(** * tree-gateway: circuit breaker and per-API stage assembly

  A shallow embedding of
  - [lib/circuitbreaker/express-circuit-breaker.ts] (class [CircuitBreaker]),
  - the authentication stage builder (class [ApiAuth]),
  - the circuit-breaker stage builder (class [ApiCircuitBreaker]),
  together with the properties of the design document that concern them
  and further properties of the code.

  JavaScript objects that are mutated and shared (the state handler, the
  response whose [end] method is replaced, the variables captured by the
  closures of [invokeApi]) and the event loop's timers and unresolved
  promises live in an explicit [world]; methods are computations in a state
  monad over it, and what the event loop does (a timer fires, a promise
  resolves, the rest of the chain ends a response) is a computation of its
  own. *)

From Stdlib Require Import ZArith Bool List Lia.
From stdpp Require Import base option list gmap strings pretty.

Local Open Scope string_scope.
Local Open Scope Z_scope.
Local Open Scope list_scope.

(** ** The state handler interface *)

Module StateHandler.

(** [interface StateHandler]: one data property and seven methods.  The
    object is the property together with whatever the implementation keeps
    ([priv]); a method may change both. *)
Record obj (St : Type) := Obj {
  halfOpenCallPending : bool;
  priv : St
}.
Arguments Obj {St} _ _.
Arguments halfOpenCallPending {St} _.
Arguments priv {St} _.

Class methods (St : Type) := {
  isOpen : obj St → bool;
  isHalfOpen : obj St → bool;
  isClosed : obj St → bool;
  forceOpen : obj St → bool * obj St;
  forceHalfOpen : obj St → bool * obj St;
  forceClose : obj St → bool * obj St;
  (* Promise<number>: the value the promise resolves with *)
  incrementFailures : obj St → Z * obj St
}.

(** [stateHandler.halfOpenCallPending = b] *)
Definition set_halfOpenCallPending {St} (b : bool) (h : obj St) : obj St :=
  Obj b (priv h).

End StateHandler.

(** ** express-circuit-breaker.ts *)

Module CircuitBreaker.

Inductive State := OPEN | CLOSED | HALF_OPEN.

(** [interface Options]; the [stateHandler] it refers to is the handler
    object of the [world]. *)
Record Options := {
  timeout : Z;
  resetTimeout : Z;
  maxFailures : Z
}.

(** A function value stored in [res.end]: the response's own method, or the
    function [invokeApi] installs, which belongs to one activation of
    [invokeApi] ([cid]) and has captured the previous value [end]. *)
Inductive endFn :=
| originalEnd
| patchedEnd (cid : nat) (end_ : endFn).

Record Response := {
  statusCode : Z;
  res_end : endFn
}.

(** The variables of one activation of [invokeApi] that its two closures
    share. *)
Record Frame := {
  f_self : Options;
  f_res : nat;
  operationTimeout : bool;
  timeoutID : nat
}.

(** The two functions handed to [setTimeout]. *)
Inductive callback :=
| cbForceHalfOpen (self : Options)
| cbOperationTimeout (cid : nat).

Inductive timerStatus := Pending | Cleared | Fired.

Record Timer := {
  t_callback : callback;
  t_delay : Z;
  t_status : timerStatus
}.

(** A promise [incrementFailures] has returned and [handleFailure] has
    attached its callback to: the breaker the callback belongs to, and the
    number the promise resolves with. *)
Record Promise := {
  p_self : Options;
  p_numFailures : Z
}.

Inductive method := mHandleSuccess | mHandleFailure.

(** What the breaker does to the outside, in the order it happens: an event
    of the emitter, a call of [next], a response written out by its own
    [end].  [EvCall] records, besides, that [handleSuccess] or
    [handleFailure] was entered. *)
Inductive effect :=
| EvEmit (name : string)
| EvNext (rid : nat)
| EvSent (rid : nat) (status : Z) (body : string)
| EvCall (m : method).

(** How a request that was let through ends. *)
Inductive completion :=
| Completes (code : Z) (body : string)
| TimesOut.

(** The endings the breaker counts as failures. *)
Definition isFailure (c : completion) : Prop :=
  match c with
  | Completes code _ => 500 ≤ code
  | TimesOut => True
  end.

Section WithHandler.
Context {St : Type} `{!StateHandler.methods St}.

(** The handler object, the timer table of the event loop, the promises
    that have not resolved yet (oldest first), the activations of
    [invokeApi], the live response objects, and what has been observed.
    Timers, activations and responses are referred to by their place in
    their table; a reference that names nothing (there is none in the
    program) reads nothing and writes nothing. *)
Record world := World {
  stateHandler : StateHandler.obj St;
  timers : list Timer;
  promises : list Promise;
  frames : list Frame;
  responses : list Response;
  trace : list effect
}.

Definition with_stateHandler (h : StateHandler.obj St) (w : world) : world :=
  World h (timers w) (promises w) (frames w) (responses w) (trace w).
Definition with_timers (ts : list Timer) (w : world) : world :=
  World (stateHandler w) ts (promises w) (frames w) (responses w) (trace w).
Definition with_promises (ps : list Promise) (w : world) : world :=
  World (stateHandler w) (timers w) ps (frames w) (responses w) (trace w).
Definition with_frames (fs : list Frame) (w : world) : world :=
  World (stateHandler w) (timers w) (promises w) fs (responses w) (trace w).
Definition with_responses (rs : list Response) (w : world) : world :=
  World (stateHandler w) (timers w) (promises w) (frames w) rs (trace w).
Definition with_trace (tr : list effect) (w : world) : world :=
  World (stateHandler w) (timers w) (promises w) (frames w) (responses w) tr.

(** *** The state monad *)

Definition M (A : Type) : Type := world → A * world.

Definition ret {A} (a : A) : M A := λ w, (a, w).
Definition bind {A B} (m : M A) (k : A → M B) : M B :=
  λ w, let (a, w') := m w in k a w'.
Definition exec {A} (m : M A) (w : world) : world := snd (m w).

Notation "x <- m ;; k" := (bind m (λ x, k))
  (at level 100, m at next level, right associativity).
Notation "m ;; k" := (bind m (λ _, k))
  (at level 100, right associativity).

Definition modify (f : world → world) : M unit := λ w, (tt, f w).

Definition readHandler {A} (f : StateHandler.obj St → A) : M A :=
  λ w, (f (stateHandler w), w).
Definition callHandler {A} (f : StateHandler.obj St → A * StateHandler.obj St) : M A :=
  λ w, let (a, h) := f (stateHandler w) in (a, with_stateHandler h w).

Definition log (e : effect) : M unit :=
  modify (λ w, with_trace (trace w ++ [e]) w).

(** [EventEmitter.emit] *)
Definition emit (name : string) : M unit := log (EvEmit name).

(** [setTimeout]: the new timer's id is its place in the table. *)
Definition setTimeout (cb : callback) (ms : Z) : M nat :=
  λ w, (length (timers w), with_timers (timers w ++ [Build_Timer cb ms Pending]) w).

Definition clearTimer (t : Timer) : Timer :=
  match t_status t with
  | Pending => Build_Timer (t_callback t) (t_delay t) Cleared
  | _ => t
  end.

(** [clearTimeout]: a timer that has fired or was cleared stays as it is. *)
Definition clearTimeout (tid : nat) : M unit :=
  modify (λ w, with_timers (alter clearTimer tid (timers w)) w).

(** Reading a response or a frame through its reference. *)
Definition withResponse (rid : nat) (k : Response → M unit) : M unit :=
  λ w, match responses w !! rid with
       | Some r => k r w
       | None => (tt, w)
       end.
Definition withFrame (cid : nat) (k : Frame → M unit) : M unit :=
  λ w, match frames w !! cid with
       | Some fr => k fr w
       | None => (tt, w)
       end.

(** [res.status(code)] *)
Definition res_status (rid : nat) (code : Z) : M unit :=
  modify (λ w, with_responses
    (alter (λ r, Build_Response code (res_end r)) rid (responses w)) w).

(** [res.end = f] *)
Definition set_res_end (rid : nat) (f : endFn) : M unit :=
  modify (λ w, with_responses
    (alter (λ r, Build_Response (statusCode r) f) rid (responses w)) w).

(** [operationTimeout = true] in the activation [cid] *)
Definition set_operationTimeout (cid : nat) : M unit :=
  modify (λ w, with_frames
    (alter (λ fr, Build_Frame (f_self fr) (f_res fr) true (timeoutID fr)) cid (frames w)) w).

(** *** class CircuitBreaker *)

Definition isOpen : M bool := readHandler StateHandler.isOpen.
Definition isHalfOpen : M bool := readHandler StateHandler.isHalfOpen.
Definition isClosed : M bool := readHandler StateHandler.isClosed.

Definition forceOpen (self : Options) : M unit :=
  changed <- callHandler StateHandler.forceOpen ;;
  if negb changed then ret tt
  else
    (* After reset timeout circuit should enter half open state *)
    _ <- setTimeout (cbForceHalfOpen self) (resetTimeout self) ;;
    emit "open".

Definition forceClosed : M unit :=
  changed <- callHandler StateHandler.forceClose ;;
  if negb changed then ret tt
  else emit "close".

Definition forceHalfOpen : M unit :=
  changed <- callHandler StateHandler.forceHalfOpen ;;
  if negb changed then ret tt
  else emit "halfOpen".

(** [constructor(options)] *)
Definition constructor : M unit := forceClosed.

Definition handleSuccess : M unit :=
  log (EvCall mHandleSuccess) ;;
  forceClosed.

(** [handleFailure] calls [incrementFailures] at once and attaches a
    callback to the promise it gets; the callback runs when the promise
    resolves, which is after the code that called [handleFailure] has
    returned. *)
Definition handleFailure (self : Options) : M unit :=
  log (EvCall mHandleFailure) ;;
  numFailures <- callHandler StateHandler.incrementFailures ;;
  modify (λ w, with_promises (promises w ++ [Build_Promise self numFailures]) w).

(** The callback [handleFailure] attaches: [numFailures => { ... }]. *)
Definition thenCallback (p : Promise) : M unit :=
  let self := p_self p in
  let numFailures := p_numFailures p in
  ho <- isHalfOpen ;;
  if ho || (maxFailures self <=? numFailures) then forceOpen self
  else ret tt.

(** The first statement of the function [invokeApi] puts into [res.end], in
    the activation whose variables are [fr]: unless the timer has fired,
    cancel it and count the response by its status. *)
Definition observeEnd (fr : Frame) : M unit :=
  if negb (operationTimeout fr) then
    clearTimeout (timeoutID fr) ;;
    withResponse (f_res fr) (λ r,
      if 500 <=? statusCode r then
        modify (λ w, with_stateHandler
          (StateHandler.set_halfOpenCallPending false (stateHandler w)) w) ;;
        handleFailure (f_self fr)
      else
        handleSuccess)
  else ret tt.

(** Calling the function value [f] as [res.end(body)] on the response [rid].
    The response's own [end] writes the response out with the status code it
    has at that moment; the function of [invokeApi] observes, puts the
    captured [end] back and calls it. *)
Fixpoint applyEnd (f : endFn) (rid : nat) (body : string) : M unit :=
  match f with
  | originalEnd =>
      withResponse rid (λ r, log (EvSent rid (statusCode r) body))
  | patchedEnd cid end_ =>
      withFrame cid (λ fr,
        observeEnd fr ;;
        set_res_end (f_res fr) end_ ;;
        applyEnd end_ (f_res fr) body)
  end.

(** [res.end(body)] *)
Definition res_end_call (rid : nat) (body : string) : M unit :=
  withResponse rid (λ r, applyEnd (res_end r) rid body).

Definition fastFail (rid : nat) : M unit :=
  res_status rid 503 ;;
  let err_message := "CircuitBreaker open" in
  res_end_call rid err_message ;;
  emit "rejected".

Definition handleTimeout (self : Options) (rid : nat) : M unit :=
  let err_message := "CircuitBreaker timeout" in
  handleFailure self ;;
  res_status rid 504 ;;
  res_end_call rid err_message.

Definition invokeApi (self : Options) (rid : nat) : M unit :=
  cid <- (λ w, (length (frames w), w)) ;;
  timeoutID <- setTimeout (cbOperationTimeout cid) (timeout self) ;;
  modify (λ w, with_frames (frames w ++ [Build_Frame self rid false timeoutID]) w) ;;
  withResponse rid (λ r, set_res_end rid (patchedEnd cid (res_end r))) ;;
  log (EvNext rid).

(** The request handler [middleware()] returns, applied to the response
    [rid]. *)
Definition middleware (self : Options) (rid : nat) : M unit :=
  rejecting <-
    (o <- isOpen ;;
     ho <- isHalfOpen ;;
     pending <- readHandler StateHandler.halfOpenCallPending ;;
     ret (o || (ho && pending))) ;;
  if rejecting then fastFail rid
  else
    probing <-
      (ho <- isHalfOpen ;;
       pending <- readHandler StateHandler.halfOpenCallPending ;;
       ret (ho && negb pending)) ;;
    if probing then
      modify (λ w, with_stateHandler
        (StateHandler.set_halfOpenCallPending true (stateHandler w)) w) ;;
      invokeApi self rid
    else
      invokeApi self rid.

(** *** The event loop and the rest of the chain *)

(** The function a timer was armed with. *)
Definition runCallback (cb : callback) : M unit :=
  match cb with
  | cbForceHalfOpen self => forceHalfOpen
  | cbOperationTimeout cid =>
      withFrame cid (λ fr,
        set_operationTimeout cid ;;
        handleTimeout (f_self fr) (f_res fr))
  end.

(** A pending timer fires; any other timer does not run. *)
Definition fireTimer (tid : nat) : M unit :=
  λ w, match timers w !! tid with
       | Some t =>
           match t_status t with
           | Pending =>
               (modify (λ w, with_timers
                  (alter (λ t, Build_Timer (t_callback t) (t_delay t) Fired) tid (timers w)) w) ;;
                runCallback (t_callback t)) w
           | _ => (tt, w)
           end
       | None => (tt, w)
       end.

(** The oldest promise resolves. *)
Definition resolve : M unit :=
  λ w, match promises w with
       | p :: ps => thenCallback p (with_promises ps w)
       | [] => (tt, w)
       end.

Fixpoint thenCallbacks (ps : list Promise) : M unit :=
  match ps with
  | [] => ret tt
  | p :: ps' => thenCallback p ;; thenCallbacks ps'
  end.

(** All promises resolve, oldest first (their callbacks hand out no new
    ones). *)
Definition settle : M unit :=
  λ w, thenCallbacks (promises w) (with_promises [] w).

(** express hands a fresh response to the chain: status 200, its own [end]. *)
Definition newResponse : M nat :=
  λ w, (length (responses w), with_responses (responses w ++ [Build_Response 200 originalEnd]) w).

(** The downstream handler completes the response with a status and a body. *)
Definition downstream (rid : nat) (code : Z) (body : string) : M unit :=
  res_status rid code ;;
  res_end_call rid body.

(** One request through the breaker, from its arrival to the moment the
    state handler has answered: express creates the response, the breaker's
    handler runs, then either the rest of the chain completes the response
    or the timer the handler has armed (the next free place of the timer
    table when the request arrived) fires, and the promises resolve. *)
Definition request (self : Options) (c : completion) : M unit :=
  rid <- newResponse ;;
  timeoutID <- (λ w, (length (timers w), w)) ;;
  middleware self rid ;;
  match c with
  | Completes code body => downstream rid code body
  | TimesOut => fireTimer timeoutID
  end ;;
  settle.

Fixpoint requests (self : Options) (cs : list completion) : M unit :=
  match cs with
  | [] => ret tt
  | c :: cs' => request self c ;; requests self cs'
  end.

(** *** Vocabulary for the properties *)

(** Every function value of the chain [f] belongs to a live activation of
    [invokeApi] on the response [rid]. *)
Fixpoint wf_end (fs : list Frame) (rid : nat) (f : endFn) : Prop :=
  match f with
  | originalEnd => True
  | patchedEnd cid end_ =>
      (∃ fr, fs !! cid = Some fr ∧ f_res fr = rid) ∧ wf_end fs rid end_
  end.

(** The request on [rid] was admitted by the breaker [self] in the
    activation [cid], whose timer [tid] has neither fired nor been cleared,
    and the response has not been ended: [res.end] is the function this
    activation installed over the response's own. *)
Definition inFlight (self : Options) (rid cid tid : nat) (w : world) : Prop :=
  frames w !! cid = Some (Build_Frame self rid false tid) ∧
  timers w !! tid = Some (Build_Timer (cbOperationTimeout cid) (timeout self) Pending) ∧
  ∃ code, responses w !! rid = Some (Build_Response code (patchedEnd cid originalEnd)).

(** The timer of the activation [cid] has fired and its callback has run:
    the activation is marked, and [res.end] is the response's own again. *)
Definition timedOut (self : Options) (rid cid tid : nat) (w : world) : Prop :=
  frames w !! cid = Some (Build_Frame self rid true tid) ∧
  timers w !! tid = Some (Build_Timer (cbOperationTimeout cid) (timeout self) Fired) ∧
  ∃ code, responses w !! rid = Some (Build_Response code originalEnd).

(** [w'] differs from [w] in the handler, in the effects [tr] added to the
    trace and in the timers [ts] armed. *)
Definition handlerStep (w w' : world) (tr : list effect) (ts : list Timer) : Prop :=
  frames w' = frames w ∧ responses w' = responses w ∧ promises w' = promises w ∧
  trace w' = trace w ++ tr ∧ timers w' = timers w ++ ts.

(** The handler object an admitted request leaves behind when it enters:
    in HALF_OPEN the pending flag is set. *)
Definition admitted (h : StateHandler.obj St) : StateHandler.obj St :=
  if StateHandler.isHalfOpen h && negb (StateHandler.halfOpenCallPending h)
  then StateHandler.set_halfOpenCallPending true h
  else h.

(** The handler object after the callback of [handleFailure] has run with
    [numFailures]; after [handleFailure] and, right behind it, its callback;
    and after [handleSuccess]: as functions of the handler object before. *)
Definition resolvedOutcome (self : Options) (numFailures : Z) (h : StateHandler.obj St)
  : StateHandler.obj St :=
  if StateHandler.isHalfOpen h || (maxFailures self <=? numFailures)
  then snd (StateHandler.forceOpen h)
  else h.
Definition failureOutcome (self : Options) (h : StateHandler.obj St) : StateHandler.obj St :=
  let r := StateHandler.incrementFailures h in
  resolvedOutcome self (fst r) (snd r).
Definition successOutcome (h : StateHandler.obj St) : StateHandler.obj St :=
  snd (StateHandler.forceClose h).

End WithHandler.

(** Effects of the emitter, and effects that stay inside the breaker. *)
Definition is_emit (e : effect) : Prop :=
  match e with
  | EvEmit _ => True
  | _ => False
  end.
Definition internal (e : effect) : Prop :=
  match e with
  | EvEmit _ | EvCall _ => True
  | _ => False
  end.

Arguments world St : clear implicits.
Arguments M St A : clear implicits.

Notation "x <- m ;; k" := (bind m (λ x, k))
  (at level 100, m at next level, right associativity).
Notation "m ;; k" := (bind m (λ _, k))
  (at level 100, right associativity).

End CircuitBreaker.

(** ** The shared breaker state *)

Module RedisStateHandler.
Import CircuitBreaker.

(** Modelled from the spec: the implementation of [StateHandler] the stage
    builder instantiates ([RedisStateHandler], from [./redis-state-handler])
    is not among the sources.  The design document gives the breaker state
    per API path as one of CLOSED, OPEN, HALF_OPEN, a failure counter and the
    flag [halfOpenCallPending]; [incrementFailures] is atomic and returns the
    post-increment count; [forceOpen], [forceClose] and [forceHalfOpen]
    short-circuit (answer [false]) if the state is already the target;
    forcing CLOSED clears the failure counter (from CLOSED too) and the
    pending flag; entering HALF_OPEN clears the pending flag; entering OPEN
    from HALF_OPEN clears the pending flag. *)
Record data := Data {
  state : State;
  failures : Z
}.

Definition t : Type := StateHandler.obj data.

(** Initial state on configure: CLOSED, failure counter zero,
    [halfOpenCallPending = false]. *)
Definition initial : t := StateHandler.Obj false (Data CLOSED 0).

Definition isOpen (h : t) : bool :=
  match state (StateHandler.priv h) with OPEN => true | _ => false end.
Definition isHalfOpen (h : t) : bool :=
  match state (StateHandler.priv h) with HALF_OPEN => true | _ => false end.
Definition isClosed (h : t) : bool :=
  match state (StateHandler.priv h) with CLOSED => true | _ => false end.

Definition forceOpen (h : t) : bool * t :=
  match state (StateHandler.priv h) with
  | OPEN => (false, h)
  | HALF_OPEN => (true, StateHandler.Obj false (Data OPEN (failures (StateHandler.priv h))))
  | CLOSED =>
      (true, StateHandler.Obj (StateHandler.halfOpenCallPending h)
               (Data OPEN (failures (StateHandler.priv h))))
  end.

Definition forceHalfOpen (h : t) : bool * t :=
  match state (StateHandler.priv h) with
  | HALF_OPEN => (false, h)
  | _ => (true, StateHandler.Obj false (Data HALF_OPEN (failures (StateHandler.priv h))))
  end.

Definition forceClose (h : t) : bool * t :=
  match state (StateHandler.priv h) with
  | CLOSED => (false, StateHandler.Obj (StateHandler.halfOpenCallPending h) (Data CLOSED 0))
  | _ => (true, StateHandler.Obj false (Data CLOSED 0))
  end.

Definition incrementFailures (h : t) : Z * t :=
  let n := failures (StateHandler.priv h) + 1 in
  (n, StateHandler.Obj (StateHandler.halfOpenCallPending h)
        (Data (state (StateHandler.priv h)) n)).

#[global] Instance methods : StateHandler.methods data := {
  StateHandler.isOpen := isOpen;
  StateHandler.isHalfOpen := isHalfOpen;
  StateHandler.isClosed := isClosed;
  StateHandler.forceOpen := forceOpen;
  StateHandler.forceHalfOpen := forceHalfOpen;
  StateHandler.forceClose := forceClose;
  StateHandler.incrementFailures := incrementFailures
}.

End RedisStateHandler.

(** ** Configuration documents *)

(** Modelled from the spec: the declarations of the configuration types
    ([config/api], [config/authentication], [config/circuit-breaker],
    [config/gateway]) are not among the sources; the records below carry the
    fields the design document lists and the code reads.  An optional field
    that is absent ([undefined]) is [None]. *)

Module MiddlewareConfig.
Record t := Build {
  name : string;
  options : string
}.
End MiddlewareConfig.

Module Group.
Record Predicate := {
  method : option string;
  url : option string
}.
Record t := Build {
  name : string;
  predicates : list Predicate
}.
End Group.

Module ApiAuthenticationConfig.
Record t := Build {
  strategy : option MiddlewareConfig.t;
  group : option (list string);
  use : option string
}.
End ApiAuthenticationConfig.

Module CircuitBreakerConfig.
Record t := Build {
  timeout : option Z;
  resetTimeout : option Z;
  maxFailures : option Z;
  group : option (list string);
  onOpen : option string;
  onClose : option string;
  onRejected : option string;
  disableStats : option bool
}.

(** What an element of the array [api.circuitBreaker] can be at run time: a
    config object or, once [sortBreakers] has pushed the array [splice]
    returned, an array. *)
#[warnings="-register-all"]
Inductive value :=
| Config (c : t)
| ArrayOf (gen : list value).

End CircuitBreakerConfig.

Module ApiPipelineConfig.
Record t := Build {
  authentication : option (gmap string ApiAuthenticationConfig.t)
}.
End ApiPipelineConfig.

Module ApiConfig.
Record t := Build {
  path : string;
  proxy_path : string;
  group : option (list Group.t);
  authentication : list ApiAuthenticationConfig.t;
  circuitBreaker : list CircuitBreakerConfig.value
}.
End ApiConfig.

(** What the logger was asked to write. *)
Inductive LogEntry :=
| LogError (message : string) (e : option string)
| LogDebug (message : string).

(** The outcome of a call that may throw. *)
Inductive Result (A : Type) :=
| Return (a : A)
| Throw (e : string).
Arguments Return {A} _.
Arguments Throw {A} _.

(** JavaScript truthiness of the values the builders test. *)
Definition truthy_string (o : option string) : bool :=
  match o with
  | Some s => negb (String.eqb s EmptyString)
  | None => false
  end.

(** [!!v] for an optional boolean *)
Definition truthy_bool (o : option bool) : bool :=
  match o with
  | Some b => b
  | None => false
  end.

(** The property names of [Object.prototype], which every plain object
    inherits.  Each of them holds a function, and [__proto__] answers the
    prototype itself: a truthy value that has no enumerable property. *)
Definition Object_prototype : list string :=
  ["constructor"; "__defineGetter__"; "__defineSetter__"; "hasOwnProperty";
   "__lookupGetter__"; "__lookupSetter__"; "isPrototypeOf"; "propertyIsEnumerable";
   "toString"; "valueOf"; "__proto__"; "toLocaleString"].

(** [v || d] for an optional number *)
Definition or_default (v : option Z) (d : Z) : Z :=
  match v with
  | Some 0 => d
  | Some n => n
  | None => d
  end.

(** [xs.indexOf(_.filter(xs, p)[0])], for a filtered array that is not empty:
    [_.filter] keeps the elements themselves and their order, so its first
    element is the first element of [xs] that passes [p], and [indexOf]
    (strict equality, which for objects is identity) answers the first place
    that holds it. *)
Fixpoint indexOfFirst {A} (p : A → bool) (xs : list A) : nat :=
  match xs with
  | [] => 0%nat
  | x :: xs' => if p x then 0%nat else S (indexOfFirst p xs')
  end.

(** [xs.splice(index, 1)]: the removed elements, and the array afterwards. *)
Definition splice1 {A} (index : nat) (xs : list A) : list A * list A :=
  (take 1 (drop index xs), take index xs ++ drop (S index) xs).

(** ** The circuit-breaker stage builder *)

Module EventEmitter.

(** Node's [EventEmitter], as far as the stage builder uses it: [on] puts a
    listener behind those already there, and [emit] calls the listeners of
    the event in that order. *)
Definition t (L : Type) : Type := list (string * L).

Definition on {L} (eventName : string) (listener : L) (emitter : t L) : t L :=
  emitter ++ [(eventName, listener)].

Definition listeners {L} (eventName : string) (emitter : t L) : list L :=
  snd <$> List.filter (λ l, String.eqb (fst l) eventName) emitter.

End EventEmitter.

Module StatsController.
(** The fields [createCircuitBreakerStats] assigns; the class declares
    [halfOpen], [success], [failure] and [timeout] too, which nothing
    assigns. *)
Record t (Stats : Type) := Build {
  open : Stats;
  close : Stats;
  rejected : Stats
}.
Arguments Build {Stats} _ _ _.
Arguments open {Stats} _.
Arguments close {Stats} _.
Arguments rejected {Stats} _.
End StatsController.

Module BreakerInfo.
Record t (Req : Type) := Build {
  circuitBreaker : CircuitBreaker.Options;
  groupValidator : option (Req → bool)
}.
Arguments Build {Req} _ _.
Arguments circuitBreaker {Req} _.
Arguments groupValidator {Req} _.
End BreakerInfo.

Module ApiCircuitBreaker.
Import CircuitBreaker.

(** Property reads on an element of [api.circuitBreaker]; an array has none
    of these properties. *)
Definition group (v : CircuitBreakerConfig.value) : option (list string) :=
  match v with
  | CircuitBreakerConfig.Config c => CircuitBreakerConfig.group c
  | CircuitBreakerConfig.ArrayOf _ => None
  end.
Definition timeout (v : CircuitBreakerConfig.value) : option Z :=
  match v with
  | CircuitBreakerConfig.Config c => CircuitBreakerConfig.timeout c
  | CircuitBreakerConfig.ArrayOf _ => None
  end.
Definition resetTimeout (v : CircuitBreakerConfig.value) : option Z :=
  match v with
  | CircuitBreakerConfig.Config c => CircuitBreakerConfig.resetTimeout c
  | CircuitBreakerConfig.ArrayOf _ => None
  end.
Definition maxFailures (v : CircuitBreakerConfig.value) : option Z :=
  match v with
  | CircuitBreakerConfig.Config c => CircuitBreakerConfig.maxFailures c
  | CircuitBreakerConfig.ArrayOf _ => None
  end.
Definition onOpen (v : CircuitBreakerConfig.value) : option string :=
  match v with
  | CircuitBreakerConfig.Config c => CircuitBreakerConfig.onOpen c
  | CircuitBreakerConfig.ArrayOf _ => None
  end.
Definition onClose (v : CircuitBreakerConfig.value) : option string :=
  match v with
  | CircuitBreakerConfig.Config c => CircuitBreakerConfig.onClose c
  | CircuitBreakerConfig.ArrayOf _ => None
  end.
Definition onRejected (v : CircuitBreakerConfig.value) : option string :=
  match v with
  | CircuitBreakerConfig.Config c => CircuitBreakerConfig.onRejected c
  | CircuitBreakerConfig.ArrayOf _ => None
  end.
Definition disableStats (v : CircuitBreakerConfig.value) : option bool :=
  match v with
  | CircuitBreakerConfig.Config c => CircuitBreakerConfig.disableStats c
  | CircuitBreakerConfig.ArrayOf _ => None
  end.

(** The test [sortBreakers] hands to [_.filter]. *)
Definition sortBreakers_test (value : CircuitBreakerConfig.value) : bool :=
  match group value with
  | Some _ => true
  | None => false
  end.

(** The entry [sortBreakers] hands to [logger.error]. *)
Definition conflictingConfigurations (path : string) : LogEntry :=
  LogError ("Invalid circuit breaker configuration for api [" +:+ path
            +:+ "]. Conflicting configurations for default group") None.

Definition sortBreakers (breakers : list CircuitBreakerConfig.value) (path : string)
  : list CircuitBreakerConfig.value * list LogEntry :=
  let generalBreakers := List.filter sortBreakers_test breakers in
  if (1 <? length generalBreakers)%nat then
    ([], [conflictingConfigurations path])
  else if (0 <? length generalBreakers)%nat then
    let index := indexOfFirst sortBreakers_test breakers in
    if Z.of_nat index <? Z.of_nat (length breakers) - 1 then
      let '(gen, breakers') := splice1 index breakers in
      (breakers' ++ [CircuitBreakerConfig.ArrayOf gen], [])
    else (breakers, [])
  else (breakers, []).

(** The two kinds of function the builder subscribes:
    [() => { stats.registerOccurrence(key, increment) }] and
    [() => { handler(path) }]. *)
Inductive Listener (Stats Handler : Type) :=
| registerOccurrence (stats : Stats) (key : string) (increment : Z)
| callHandler (handler : Handler) (path : string).
Arguments registerOccurrence {Stats Handler} _ _ _.
Arguments callHandler {Stats Handler} _ _.

Section WithGateway.
Context {St : Type} `{!StateHandler.methods St} {Req Stats Handler : Type}.

(** [gateway.logger.isDebugEnabled()] *)
Variable isDebugEnabled : bool.
(** [JSON.stringify(Groups.filter(groups, names))] *)
Variable groupsJSON : option (list Group.t) → list string → string.
(** [Groups.buildGroupAllowFilter(groups, names)]; the filter is a pure
    predicate of the request. *)
Variable buildGroupAllowFilter : option (list Group.t) → list string → Req → bool.
(** whether [gateway.statsConfig] is there *)
Variable statsConfig : bool.
(** [gateway.createStats(key)] and [Stats.getStatsKey(prefix, path, key)] *)
Variable createStats : string → Stats.
Variable getStatsKey : string → string → string → string.
(** [gateway.middlewarePath] and [pathUtil.join(...)] *)
Variable middlewarePath : string.
Variable join : list string → string.
(** [require(p)]: the function the module exports, or an exception. *)
Variable require : string → Result Handler.

Definition createCircuitBreakerStats (path : string) (config : CircuitBreakerConfig.value)
  : option (StatsController.t Stats) :=
  if negb (truthy_bool (disableStats config)) && statsConfig then
    let close := createStats (getStatsKey "circuitbreaker" path "close") in
    let open := createStats (getStatsKey "circuitbreaker" path "open") in
    let rejected := createStats (getStatsKey "circuitbreaker" path "rejected") in
    Some (StatsController.Build open close rejected)
  else None.

(** [configureCircuitBreakerEventListeners]: [emitter] holds the listeners
    of [breakerInfo.circuitBreaker]; the answer is the emitter with the new
    subscriptions, or the exception of a [require]. *)
Definition configureCircuitBreakerEventListeners
    (emitter : EventEmitter.t (Listener Stats Handler)) (path : string)
    (config : CircuitBreakerConfig.value)
  : Result (EventEmitter.t (Listener Stats Handler)) :=
  let emitter :=
    match createCircuitBreakerStats path config with
    | Some stats =>
        let emitter :=
          EventEmitter.on "open"
            (registerOccurrence (StatsController.open stats) "total" 1) emitter in
        let emitter :=
          EventEmitter.on "close"
            (registerOccurrence (StatsController.close stats) "total" 1) emitter in
        EventEmitter.on "rejected"
          (registerOccurrence (StatsController.rejected stats) "total" 1) emitter
    | None => emitter
    end in
  match
    match onOpen config with
    | Some name =>
        if truthy_string (Some name) then
          let p := join [middlewarePath; "circuitbreaker"; "handler"; name] in
          match require p with
          | Return openHandler => Return (EventEmitter.on "open" (callHandler openHandler path) emitter)
          | Throw e => Throw e
          end
        else Return emitter
    | None => Return emitter
    end
  with
  | Throw e => Throw e
  | Return emitter =>
      match
        match onClose config with
        | Some name =>
            if truthy_string (Some name) then
              let p := join [middlewarePath; "circuitbreaker"; "handler"; name] in
              match require p with
              | Return closeHandler =>
                  Return (EventEmitter.on "close" (callHandler closeHandler path) emitter)
              | Throw e => Throw e
              end
            else Return emitter
        | None => Return emitter
        end
      with
      | Throw e => Throw e
      | Return emitter =>
          match onRejected config with
          | Some name =>
              if truthy_string (Some name) then
                let p := join [middlewarePath; "circuitbreaker"; "handler"; name] in
                match require p with
                | Return rejectedHandler =>
                    Return (EventEmitter.on "rejected" (callHandler rejectedHandler path) emitter)
                | Throw e => Throw e
                end
              else Return emitter
          | None => Return emitter
          end
      end
  end.

(** A [BreakerInfo] together with the listeners of its breaker. *)
Record Breaker := Build_Breaker {
  breakerInfo : BreakerInfo.t Req;
  emitter : EventEmitter.t (Listener Stats Handler)
}.

(** A handler mounted on the router of the API. *)
Definition Stage : Type := Req → nat → M St unit.

(** The loop of [circuitBreaker] over the sorted list: what was logged, and
    the [breakerInfos] collected or the exception that ended the loop.
    Every breaker is constructed on the state handler of the API path; the
    exception of a [require] leaves the loop, and [circuitBreaker] with
    it. *)
Fixpoint configureBreakers (api : ApiConfig.t) (sortedBreakers : list CircuitBreakerConfig.value)
  : M St (list LogEntry * Result (list Breaker)) :=
  match sortedBreakers with
  | [] => ret ([], Return [])
  | cbConfig :: rest =>
      let cbOptions :=
        {| CircuitBreaker.timeout := or_default (timeout cbConfig) 30000;
           CircuitBreaker.resetTimeout := or_default (resetTimeout cbConfig) 120000;
           CircuitBreaker.maxFailures := or_default (maxFailures cbConfig) 10 |} in
      let d1 :=
        if isDebugEnabled
        then [LogDebug ("Configuring Circuit Breaker for path [" +:+ ApiConfig.proxy_path api +:+ "].")]
        else [] in
      constructor ;;
      match configureCircuitBreakerEventListeners [] (ApiConfig.proxy_path api) cbConfig with
      | Throw e => ret (d1, Throw e)
      | Return emitter =>
          let '(d2, groupValidator) :=
            match group cbConfig with
            | Some names =>
                (if isDebugEnabled
                 then [LogDebug ("Configuring Group filters for Circuit Breaker on path ["
                                 +:+ ApiConfig.proxy_path api +:+ "]. Groups ["
                                 +:+ groupsJSON (ApiConfig.group api) names +:+ "]")]
                 else [],
                 Some (buildGroupAllowFilter (ApiConfig.group api) names))
            | None => ([], None)
            end in
          r <- configureBreakers api rest ;;
          ret (d1 ++ d2 ++ fst r,
               match snd r with
               | Return breakerInfos =>
                   Return (Build_Breaker (BreakerInfo.Build cbOptions groupValidator) emitter
                           :: breakerInfos)
               | Throw e => Throw e
               end)
      end
  end.

(** The request handler [buildMiddleware(breakerInfo)] returns; [next()] is
    the effect [EvNext]. *)
Definition buildMiddleware (breakerInfo : BreakerInfo.t Req) (req : Req) (rid : nat) : M St unit :=
  match BreakerInfo.groupValidator breakerInfo with
  | Some groupValidator =>
      if groupValidator req then middleware (BreakerInfo.circuitBreaker breakerInfo) rid
      else log (EvNext rid)
  | None => middleware (BreakerInfo.circuitBreaker breakerInfo) rid
  end.

Definition setupMiddlewares (apiRouter : list Stage) (throttlingInfos : list Breaker) : list Stage :=
  apiRouter ++ ((λ b, buildMiddleware (breakerInfo b)) <$> throttlingInfos).

(** [circuitBreaker(apiRouter, api)]: what was logged, the router
    afterwards, and the exception thrown, if one was. *)
Definition circuitBreaker (apiRouter : list Stage) (api : ApiConfig.t)
  : M St (list LogEntry * list Stage * option string) :=
  let '(sortedBreakers, logs) :=
    sortBreakers (ApiConfig.circuitBreaker api) (ApiConfig.proxy_path api) in
  r <- configureBreakers api sortedBreakers ;;
  match snd r with
  | Return breakerInfos => ret (logs ++ fst r, setupMiddlewares apiRouter breakerInfos, None)
  | Throw e => ret (logs ++ fst r, apiRouter, Some e)
  end.

End WithGateway.

End ApiCircuitBreaker.

(** ** The authentication stage builder *)

Module ApiAuth.

(** An express request handler, in continuation-passing style: [W] is
    whatever the handlers of the chain read and change (the response, the
    request log), and [next(err)] is the continuation. *)
Definition RequestHandler (Req Err W : Type) : Type :=
  Req → (option Err → W → W) → W → W.

(** [_.defaults(object, source)]: the properties of [object] that are
    [undefined] are taken from [source]. *)
Definition defaults (object source : ApiAuthenticationConfig.t) : ApiAuthenticationConfig.t :=
  ApiAuthenticationConfig.Build
    (match ApiAuthenticationConfig.strategy object with
     | Some v => Some v
     | None => ApiAuthenticationConfig.strategy source
     end)
    (match ApiAuthenticationConfig.group object with
     | Some v => Some v
     | None => ApiAuthenticationConfig.group source
     end)
    (match ApiAuthenticationConfig.use object with
     | Some v => Some v
     | None => ApiAuthenticationConfig.use source
     end).

(** What [dict[use]] answers on the plain object [dict]: an entry of the
    dictionary (an own property), or a property the object inherits from
    [Object.prototype]. *)
Inductive property :=
| Own (source : ApiAuthenticationConfig.t)
| Inherited (name : string).

Definition get (dict : gmap string ApiAuthenticationConfig.t) (use : string) : option property :=
  match dict !! use with
  | Some source => Some (Own source)
  | None => if bool_decide (use ∈ Object_prototype) then Some (Inherited use) else None
  end.

(** An inherited property is truthy, and [_.defaults] finds no enumerable
    property on it to copy: the entry comes back as it is. *)
Definition resolveReferences (authentication : ApiAuthenticationConfig.t)
    (pipelineConfig : ApiPipelineConfig.t) : Result ApiAuthenticationConfig.t :=
  match ApiAuthenticationConfig.use authentication, ApiPipelineConfig.authentication pipelineConfig with
  | Some use, Some dict =>
      if truthy_string (Some use) then
        match get dict use with
        | Some (Own source) => Return (defaults authentication source)
        | Some (Inherited _) => Return authentication
        | None => Throw ("Invalid reference " +:+ use +:+ ". There is no configuration for this id.")
        end
      else Return authentication
  | _, _ => Return authentication
  end.


(** The test [sortMiddlewares] hands to [_.filter]. *)
Definition sortMiddlewares_test (value : ApiAuthenticationConfig.t) : bool :=
  match ApiAuthenticationConfig.group value with
  | Some _ => false
  | None => true
  end.

(** The entry [sortMiddlewares] hands to [logger.error]. *)
Definition conflictingConfigurations (path : string) : LogEntry :=
  LogError ("Invalid authentication configuration for api [" +:+ path
            +:+ "]. Conflicting configurations for default group") None.

Definition sortMiddlewares (middlewares : list ApiAuthenticationConfig.t) (path : string)
  : list ApiAuthenticationConfig.t * list LogEntry :=
  let generalMiddlewares := List.filter sortMiddlewares_test middlewares in
  if (1 <? length generalMiddlewares)%nat then
    ([], [conflictingConfigurations path])
  else if (0 <? length generalMiddlewares)%nat then
    let index := indexOfFirst sortMiddlewares_test middlewares in
    if Z.of_nat index <? Z.of_nat (length middlewares) - 1 then
      let '(gen, middlewares') := splice1 index middlewares in
      match gen with
      | gen0 :: _ => (middlewares' ++ [gen0], [])
      | [] => (middlewares', [])
      end
    else (middlewares, [])
  else (middlewares, []).

Section WithEnvironment.
Context {Strategy Req Err W RequestLog : Type}.

(** [middlewareLoader.loadMiddleware(kind, config)]: throws, or returns a
    strategy or something falsy. *)
Variable loadMiddleware : string → option MiddlewareConfig.t → Result (option Strategy).
(** [middlewareLoader.getId(config)] *)
Variable getId : option MiddlewareConfig.t → string.
(** [logger.isDebugEnabled()] *)
Variable isDebugEnabled : bool.
(** [requestLogger.isRequestLogEnabled(api)] *)
Variable isRequestLogEnabled : ApiConfig.t → bool.
(** [requestLogger.getRequestLog(req)] and [requestLog.authentication = v] *)
Variable getRequestLog : Req → W → option RequestLog.
Variable setAuthentication : RequestLog → string → W → W.
(** [auth.authenticate(key, { session: false, failWithError: true })] *)
Variable authenticate : string → RequestHandler Req Err W.
(** [JSON.stringify(Groups.filter(groups, names))] *)
Variable groupsJSON : option (list Group.t) → list string → string.
(** [Groups.buildGroupAllowFilter(groups, names)]; the filter is a pure
    predicate of the request. *)
Variable buildGroupAllowFilter : option (list Group.t) → list string → Req → bool.

(** The router under construction, the strategies registered with
    [auth.use], and what the logger was asked to write. *)
Record Configured := Build_Configured {
  router : list (RequestHandler Req Err W);
  strategies : list (string * Strategy);
  logs : list LogEntry
}.

Definition logger (entry : LogEntry) (c : Configured) : Configured :=
  Build_Configured (router c) (strategies c) (logs c ++ [entry]).
Definition router_use (h : RequestHandler Req Err W) (c : Configured) : Configured :=
  Build_Configured (router c ++ [h]) (strategies c) (logs c).
Definition auth_use (key : string) (s : Strategy) (c : Configured) : Configured :=
  Build_Configured (router c) (strategies c ++ [(key, s)]) (logs c).

(** The callback both builders hand to the authenticator when the request
    log is enabled. *)
Definition markRequestLog (req : Req) (next : option Err → W → W) : option Err → W → W :=
  λ err w,
    let requestLog := getRequestLog req w in
    match err with
    | Some e =>
        next (Some e)
          (match requestLog with
           | Some l => setAuthentication l "fail" w
           | None => w
           end)
    | None =>
        next None
          (match requestLog with
           | Some l => setAuthentication l "success" w
           | None => w
           end)
    end.

(** The handler [createAuthenticator] mounts. *)
Definition authenticatorHandler (api : ApiConfig.t) (authenticator : RequestHandler Req Err W)
  : RequestHandler Req Err W :=
  if isRequestLogEnabled api then
    λ req next, authenticator req (markRequestLog req next)
  else authenticator.

Definition createAuthenticator (api : ApiConfig.t) (authentication : ApiAuthenticationConfig.t)
    (authenticator : RequestHandler Req Err W) (c : Configured) : Configured :=
  router_use (authenticatorHandler api authenticator) c.

(** The handler [createAuthenticatorForGroup] mounts, for the filter [f]. *)
Definition groupAuthenticatorHandler (api : ApiConfig.t) (f : Req → bool)
    (authenticator : RequestHandler Req Err W) : RequestHandler Req Err W :=
  if isRequestLogEnabled api then
    λ req next,
      if f req then authenticator req (markRequestLog req next)
      else next None
  else
    λ req next,
      if f req then authenticator req next
      else next None.

(** [createAuthenticatorForGroup], for an entry whose [group] is [names]. *)
Definition createAuthenticatorForGroup (api : ApiConfig.t) (names : list string)
    (authenticator : RequestHandler Req Err W) (c : Configured) : Configured :=
  let c :=
    if isDebugEnabled
    then logger (LogDebug ("Configuring Group filters for Authentication on path ["
                           +:+ ApiConfig.path api +:+ "]. Groups ["
                           +:+ groupsJSON (ApiConfig.group api) names +:+ "]")) c
    else c in
  let f := buildGroupAllowFilter (ApiConfig.group api) names in
  router_use (groupAuthenticatorHandler api f authenticator) c.

Definition configuringError (authentication : ApiAuthenticationConfig.t) (path : string) (e : string)
  : LogEntry :=
  LogError ("Error configuring Authentication Strategy ["
            +:+ getId (ApiAuthenticationConfig.strategy authentication)
            +:+ "] for path [" +:+ path +:+ "]") (Some e).

(** The body of the loop of [authentication]: one entry, with its index. *)
Definition configureEntry (apiKey : string) (api : ApiConfig.t) (pipelineConfig : ApiPipelineConfig.t)
    (index : nat) (authentication : ApiAuthenticationConfig.t) (c : Configured) : Configured :=
  let path := ApiConfig.path api in
  match resolveReferences authentication pipelineConfig with
  | Throw e => logger (configuringError authentication path e) c
  | Return authentication =>
      match loadMiddleware "authentication/strategy" (ApiAuthenticationConfig.strategy authentication) with
      | Throw e => logger (configuringError authentication path e) c
      | Return None => logger (LogError "Error configuring authenticator. Invalid Strategy" None) c
      | Return (Some authStrategy) =>
          let key := apiKey +:+ "_" +:+ pretty index in
          let c := auth_use key authStrategy c in
          let authenticator := authenticate key in
          let c :=
            match ApiAuthenticationConfig.group authentication with
            | Some names => createAuthenticatorForGroup api names authenticator c
            | None => createAuthenticator api authentication authenticator c
            end in
          (* [if (this.logger.isDebugEnabled)] tests the method itself, which
             is always there *)
          logger (LogDebug ("Authentication Strategy ["
                            +:+ getId (ApiAuthenticationConfig.strategy authentication)
                            +:+ "] configured for path [" +:+ path +:+ "]")) c
      end
  end.

(** [authentications.forEach(...)], from the index [index] on. *)
Fixpoint configureEntries (apiKey : string) (api : ApiConfig.t) (pipelineConfig : ApiPipelineConfig.t)
    (index : nat) (authentications : list ApiAuthenticationConfig.t) (c : Configured) : Configured :=
  match authentications with
  | [] => c
  | authentication :: rest =>
      configureEntries apiKey api pipelineConfig (S index) rest
        (configureEntry apiKey api pipelineConfig index authentication c)
  end.

Definition authentication (apiKey : string) (api : ApiConfig.t) (pipelineConfig : ApiPipelineConfig.t)
    (c : Configured) : Configured :=
  let path := ApiConfig.path api in
  let '(authentications, errors) := sortMiddlewares (ApiConfig.authentication api) path in
  configureEntries apiKey api pipelineConfig 0
    authentications (Build_Configured (router c) (strategies c) (logs c ++ errors)).

End WithEnvironment.

End ApiAuth.
(** ** Runs of the event loop *)

Module EventLoop.
Import CircuitBreaker.

(** What can happen next around breakers whose requests each have a
    response of their own: a request arrives at the handler of the breaker
    [self], the rest of the chain completes a response, a timer comes due,
    the oldest promise resolves. *)
Inductive action :=
| Arrive (self : Options)
| Complete (rid : nat) (code : Z) (body : string)
| Fire (tid : nat)
| Resolve.

(** Counting in a trace and in the timer table. *)
Definition is_call (e : effect) : bool :=
  match e with
  | EvCall _ => true
  | _ => false
  end.
Definition is_next (e : effect) : bool :=
  match e with
  | EvNext _ => true
  | _ => false
  end.
Definition is_open (e : effect) : bool :=
  match e with
  | EvEmit name => String.eqb name "open"
  | _ => false
  end.

(** The timers [forceOpen] arms, and the timers of [invokeApi] that have
    neither fired nor been cancelled. *)
Definition is_resetTimer (t : Timer) : bool :=
  match t_callback t with
  | cbForceHalfOpen _ => true
  | cbOperationTimeout _ => false
  end.
Definition is_pendingOperation (t : Timer) : bool :=
  match t_callback t, t_status t with
  | cbOperationTimeout _, Pending => true
  | _, _ => false
  end.

(** The names [emit] is called with in [express-circuit-breaker.ts]. *)
Definition emitted (e : effect) : Prop :=
  match e with
  | EvEmit name => name ∈ ["open"; "close"; "halfOpen"; "rejected"]
  | _ => True
  end.

(** The activations whose functions are stacked on [res.end], outermost
    first, and whether the timer of an activation has not fired. *)
Fixpoint activations (f : endFn) : list nat :=
  match f with
  | originalEnd => []
  | patchedEnd cid end_ => cid :: activations end_
  end.
Definition live (fs : list Frame) (cid : nat) : bool :=
  match fs !! cid with
  | Some fr => negb (operationTimeout fr)
  | None => false
  end.

Section WithHandler.
Context {St : Type} `{!StateHandler.methods St}.

(** express hands a fresh response to the handler [middleware()] returned. *)
Definition arrive (self : Options) : M St unit :=
  rid <- newResponse ;;
  middleware self rid.

Definition perform (a : action) : M St unit :=
  match a with
  | Arrive self => arrive self
  | Complete rid code body => downstream rid code body
  | Fire tid => fireTimer tid
  | Resolve => resolve
  end.

Fixpoint run (actions : list action) : M St unit :=
  match actions with
  | [] => ret tt
  | a :: rest => perform a ;; run rest
  end.

(** From [w] to [w'] the trace has grown by events of the four names, and
    the timer table has as many more reset timers as [open] was emitted. *)
Definition stepsTo (w w' : world St) : Prop :=
  ∃ tr, trace w' = trace w ++ tr ∧ Forall emitted tr ∧
        length (List.filter is_resetTimer (timers w')) =
          (length (List.filter is_resetTimer (timers w)) + length (List.filter is_open tr))%nat.

Definition paired {A} (m : M St A) : Prop := ∀ w, stepsTo w (exec m w).

(** Every response is as express made it or wrapped, once, by an activation
    in flight, and every operation timer that is pending belongs to an
    activation in flight. *)
Definition separate (w : world St) : Prop :=
  (∀ rid r, responses w !! rid = Some r →
     res_end r = originalEnd ∨
     ∃ self cid tid, res_end r = patchedEnd cid originalEnd ∧ inFlight self rid cid tid w) ∧
  (∀ tid cid ms, timers w !! tid = Some (Build_Timer (cbOperationTimeout cid) ms Pending) →
     ∃ self rid, inFlight self rid cid tid w).

(** [w'] has as many more outcomes recorded and requests in flight,
    together, as it has more requests handed to [next]. *)
Definition balanced (w w' : world St) : Prop :=
  (length (List.filter is_call (trace w')) + length (List.filter is_pendingOperation (timers w'))
     + length (List.filter is_next (trace w)) =
   length (List.filter is_call (trace w)) + length (List.filter is_pendingOperation (timers w))
     + length (List.filter is_next (trace w')))%nat.

End WithHandler.

End EventLoop.

(** ** The router the authentication stages are mounted on *)

Module Router.

(** [express.Router], as far as the stages of [ApiAuth] meet it: the
    handlers run in the order they were mounted; [next()] goes on to the
    handler behind, [next(err)] leaves the stack with the error, and behind
    the last handler the router is left with no error. *)
Fixpoint handle {Req Err W} (stack : list (ApiAuth.RequestHandler Req Err W)) (req : Req)
    (out : option Err → W → W) : W → W :=
  match stack with
  | [] => out None
  | layer :: rest =>
      layer req (λ err,
        match err with
        | Some e => out (Some e)
        | None => handle rest req out
        end)
  end.

End Router.


(** ** Sample configurations *)

Module Examples.

Definition basic : MiddlewareConfig.t := MiddlewareConfig.Build "basic" "{}".
Definition jwt : MiddlewareConfig.t := MiddlewareConfig.Build "jwt" "{}".

(** Two entries without a group, one for the group [admins], and one that
    refers to a pipeline-level entry. *)
Definition defaultAuth : ApiAuthenticationConfig.t :=
  ApiAuthenticationConfig.Build (Some basic) None None.
Definition secondDefaultAuth : ApiAuthenticationConfig.t :=
  ApiAuthenticationConfig.Build (Some jwt) None None.
Definition adminAuth : ApiAuthenticationConfig.t :=
  ApiAuthenticationConfig.Build (Some jwt) (Some ["admins"]) None.
Definition sharedAuth : ApiAuthenticationConfig.t :=
  ApiAuthenticationConfig.Build None None (Some "shared").

(** Breaker configs: two without a group, two for a group. *)
Definition defaultBreaker : CircuitBreakerConfig.t :=
  CircuitBreakerConfig.Build (Some 100) None (Some 3) None None None None None.
Definition secondDefaultBreaker : CircuitBreakerConfig.t :=
  CircuitBreakerConfig.Build (Some 200) None None None None None None None.
Definition adminBreaker : CircuitBreakerConfig.t :=
  CircuitBreakerConfig.Build (Some 100) None (Some 5) (Some ["admins"]) None None None None.
Definition usersBreaker : CircuitBreakerConfig.t :=
  CircuitBreakerConfig.Build None None None (Some ["users"]) None None None None.

Definition noDictionary : ApiPipelineConfig.t := ApiPipelineConfig.Build None.
Definition dictionary : ApiPipelineConfig.t :=
  ApiPipelineConfig.Build (Some {[ "shared" := adminAuth ]}).

Definition api (authentication : list ApiAuthenticationConfig.t)
    (circuitBreaker : list CircuitBreakerConfig.value) : ApiConfig.t :=
  ApiConfig.Build "/api" "/api" None authentication circuitBreaker.

(** An environment for the authentication builder: strategies are known by
    name, a request is its URL, and handlers record what they did. *)
Definition loadMiddleware (kind : string) (config : option MiddlewareConfig.t)
  : Result (option string) :=
  match config with
  | Some c => Return (Some (MiddlewareConfig.name c))
  | None => Return None
  end.
Definition getId (config : option MiddlewareConfig.t) : string :=
  match config with
  | Some c => MiddlewareConfig.name c
  | None => "undefined"
  end.
Definition authenticate (key : string) : ApiAuth.RequestHandler string string (list string) :=
  λ req next w, next None (w ++ [key]).
Definition groupsJSON (groups : option (list Group.t)) (names : list string) : string := "[]".
Definition buildGroupAllowFilter (groups : option (list Group.t)) (names : list string)
  : string → bool :=
  λ req, String.prefix "/admin" req.

(** An environment for the breaker builder: a statistics object is known
    by its key and a handler by the path of its module. *)
Definition createStats (key : string) : string := key.
Definition getStatsKey (prefix path key : string) : string :=
  prefix +:+ ":" +:+ path +:+ ":" +:+ key.
Definition join (parts : list string) : string := String.concat "/" parts.
Definition require (p : string) : Result string := Return p.

Definition emptyRouter : ApiAuth.Configured (Strategy := string) (Req := string) (Err := string) (W := list string) :=
  ApiAuth.Build_Configured [] [] [].

(** A breaker with [maxFailures = 3], and the world right after configure. *)
Definition options : CircuitBreaker.Options :=
  {| CircuitBreaker.timeout := 100;
     CircuitBreaker.resetTimeout := 1000;
     CircuitBreaker.maxFailures := 3 |}.
Definition configured : CircuitBreaker.world RedisStateHandler.data :=
  CircuitBreaker.World RedisStateHandler.initial [] [] [] [] [].

(** The same breaker when it is OPEN, and when it is HALF_OPEN with no call
    pending; each world holds one response express has just created. *)
Definition arrived : CircuitBreaker.world RedisStateHandler.data :=
  CircuitBreaker.World RedisStateHandler.initial [] [] []
    [CircuitBreaker.Build_Response 200 CircuitBreaker.originalEnd] [].
Definition arrivedOpen : CircuitBreaker.world RedisStateHandler.data :=
  CircuitBreaker.World
    (StateHandler.Obj false (RedisStateHandler.Data CircuitBreaker.OPEN 3)) [] [] []
    [CircuitBreaker.Build_Response 200 CircuitBreaker.originalEnd] [].
Definition arrivedHalfOpen : CircuitBreaker.world RedisStateHandler.data :=
  CircuitBreaker.World
    (StateHandler.Obj false (RedisStateHandler.Data CircuitBreaker.HALF_OPEN 3)) [] [] []
    [CircuitBreaker.Build_Response 200 CircuitBreaker.originalEnd] [].

(** The request on the response just created has been admitted. *)
Definition admittedWorld : CircuitBreaker.world RedisStateHandler.data :=
  CircuitBreaker.exec (CircuitBreaker.invokeApi options 0) arrived.

(** The probe of the HALF_OPEN breaker has been admitted, and the flag
    [halfOpenCallPending] is set. *)
Definition probeWorld : CircuitBreaker.world RedisStateHandler.data :=
  CircuitBreaker.exec (CircuitBreaker.middleware options 0) arrivedHalfOpen.


End Examples.
(** ** More sample worlds *)

Module Samples.

(** Two breaker stages have admitted the request on the response of
    [Examples.arrived], one behind the other. *)
Definition stackedWorld : CircuitBreaker.world RedisStateHandler.data :=
  CircuitBreaker.exec (CircuitBreaker.invokeApi Examples.options 0)
    (CircuitBreaker.exec (CircuitBreaker.invokeApi Examples.options 0) Examples.arrived).

(** A breaker config that names a handler for [open], and the listeners
    its breaker gets in the sample environment. *)
Definition notifyingBreaker : CircuitBreakerConfig.t :=
  CircuitBreakerConfig.Build (Some 100) None (Some 3) None (Some "notify") None None None.
Definition notifyingEmitter : EventEmitter.t (ApiCircuitBreaker.Listener string string) :=
  [("open", ApiCircuitBreaker.registerOccurrence "circuitbreaker:/api:open" "total" 1);
   ("close", ApiCircuitBreaker.registerOccurrence "circuitbreaker:/api:close" "total" 1);
   ("rejected", ApiCircuitBreaker.registerOccurrence "circuitbreaker:/api:rejected" "total" 1);
   ("open", ApiCircuitBreaker.callHandler "/middleware/circuitbreaker/handler/notify" "/api")].

(** A breaker that opens at the first failure, and the world in which it
    has admitted two requests, the first of which has failed: the breaker
    is OPEN and the second request is still in flight. *)
Definition hasty : CircuitBreaker.Options :=
  {| CircuitBreaker.timeout := 100;
     CircuitBreaker.resetTimeout := 1000;
     CircuitBreaker.maxFailures := 1 |}.
Definition lateWorld : CircuitBreaker.world RedisStateHandler.data :=
  CircuitBreaker.exec
    (EventLoop.run [EventLoop.Arrive hasty; EventLoop.Arrive hasty;
                    EventLoop.Complete 0 500 "error"; EventLoop.Resolve])
    Examples.configured.

End Samples.


(** * Properties *)

(** ** Lists: moving the one element that passes a test to the end *)

Section MoveToEnd.
Context {A : Type} (p : A → bool).

Lemma filter_none_negb (l : list A) :
  List.filter p l = [] → List.filter (λ v, negb (p v)) l = l.
Proof.
  induction l as [|x l IH]; simpl; [done|].
  destruct (p x); simpl; [done|].
  intros E. by rewrite IH.
Qed.

Lemma filter_length_0 (l : list A) :
  length (List.filter p l) = 0%nat → List.filter p l = [].
Proof. by destruct (List.filter p l). Qed.

(** With exactly one passing element, [indexOfFirst] is its place: the list
    is the other elements, in order, with the passing one inserted there. *)
Lemma filter_one_split (l : list A) :
  length (List.filter p l) = 1%nat →
  let i := indexOfFirst p l in
  (i < length l)%nat ∧
  take 1 (drop i l) = List.filter p l ∧
  take i l ++ drop (S i) l = List.filter (λ v, negb (p v)) l.
Proof.
  induction l as [|x l IH]; simpl; [done|].
  destruct (p x) eqn:Hx; simpl.
  - intros E. injection E as E. apply filter_length_0 in E.
    split; [lia|]. rewrite E. split; [by rewrite take_0|].
    rewrite drop_0. symmetry. by apply filter_none_negb.
  - intros E. destruct (IH E) as (Hi & Ht & Hd).
    split; [lia|]. split; [done|]. by rewrite Hd.
Qed.

(** The passing element is already the last one: nothing is behind it. *)
Lemma filter_one_last (l : list A) :
  length (List.filter p l) = 1%nat →
  (length l ≤ S (indexOfFirst p l))%nat →
  l = List.filter (λ v, negb (p v)) l ++ List.filter p l.
Proof.
  intros E Hlast. destruct (filter_one_split l E) as (Hi & Ht & Hd).
  rewrite <- Ht, <- Hd.
  rewrite (drop_ge l (S _)) by lia. rewrite app_nil_r.
  rewrite <- (take_drop (indexOfFirst p l) l) at 1. f_equal.
  rewrite take_ge; [done|]. rewrite length_drop. lia.
Qed.

End MoveToEnd.

(** ** Sorting the authentication entries *)

Section SortMiddlewares.
Import ApiAuth.

Lemma sortMiddlewares_test_general (v : ApiAuthenticationConfig.t) :
  sortMiddlewares_test v = true ↔ ApiAuthenticationConfig.group v = None.
Proof. unfold sortMiddlewares_test. destruct (ApiAuthenticationConfig.group v); naive_solver. Qed.

Lemma sortMiddlewares_conflict (middlewares : list ApiAuthenticationConfig.t) (path : string) :
  (2 ≤ length (List.filter sortMiddlewares_test middlewares))%nat →
  sortMiddlewares middlewares path = ([], [conflictingConfigurations path]).
Proof.
  intros Hlen. unfold sortMiddlewares.
  destruct (Nat.ltb_spec 1 (length (List.filter sortMiddlewares_test middlewares))); [done|lia].
Qed.

Lemma sortMiddlewares_sorted (middlewares : list ApiAuthenticationConfig.t) (path : string) :
  (length (List.filter sortMiddlewares_test middlewares) ≤ 1)%nat →
  sortMiddlewares middlewares path =
    (List.filter (λ v, negb (sortMiddlewares_test v)) middlewares
       ++ List.filter sortMiddlewares_test middlewares, []).
Proof.
  intros Hlen. unfold sortMiddlewares.
  destruct (Nat.ltb_spec 1 (length (List.filter sortMiddlewares_test middlewares))); [lia|].
  destruct (Nat.ltb_spec 0 (length (List.filter sortMiddlewares_test middlewares))) as [Hpos|Hzero].
  - assert (length (List.filter sortMiddlewares_test middlewares) = 1%nat) as E by lia.
    destruct (filter_one_split sortMiddlewares_test middlewares E) as (Hi & Ht & Hd).
    destruct (Z.ltb_spec (Z.of_nat (indexOfFirst sortMiddlewares_test middlewares))
                (Z.of_nat (length middlewares) - 1)) as [Hlt|Hge].
    + unfold splice1. rewrite Ht, Hd.
      destruct (List.filter sortMiddlewares_test middlewares) as [|g [|]]; done.
    + f_equal. apply filter_one_last; [done|lia].
  - assert (List.filter sortMiddlewares_test middlewares = []) as E
      by (apply filter_length_0; lia).
    rewrite E, app_nil_r. f_equal. symmetry. by apply filter_none_negb.
Qed.

Context {Strategy Req Err W RequestLog : Type}.
Variable loadMiddleware : string → option MiddlewareConfig.t → Result (option Strategy).
Variable getId : option MiddlewareConfig.t → string.
Variable isDebugEnabled : bool.
Variable isRequestLogEnabled : ApiConfig.t → bool.
Variable getRequestLog : Req → W → option RequestLog.
Variable setAuthentication : RequestLog → string → W → W.
Variable authenticate : string → RequestHandler Req Err W.
Variable groupsJSON : option (list Group.t) → list string → string.
Variable buildGroupAllowFilter : option (list Group.t) → list string → Req → bool.

(** C4.  [sortMiddlewares] takes an entry for general exactly when it has no
    group.  With at most one general entry the result is the group-scoped
    entries in their order followed by the general one; with two or more an
    error is logged, the result is empty, and [authentication] mounts no
    stage and registers no strategy for the API. *)
Theorem sortMiddlewares_general_last (apiKey : string) (api : ApiConfig.t)
    (pipelineConfig : ApiPipelineConfig.t) (c : Configured) :
  let middlewares := ApiConfig.authentication api in
  let path := ApiConfig.path api in
  let general := List.filter sortMiddlewares_test middlewares in
  let scoped := List.filter (λ v, negb (sortMiddlewares_test v)) middlewares in
  let c' := authentication loadMiddleware getId isDebugEnabled isRequestLogEnabled
              getRequestLog setAuthentication authenticate groupsJSON
              buildGroupAllowFilter apiKey api pipelineConfig c in
  (∀ v, In v general ↔ In v middlewares ∧ ApiAuthenticationConfig.group v = None) ∧
  ((length general ≤ 1)%nat →
     sortMiddlewares middlewares path = (scoped ++ general, [])) ∧
  ((2 ≤ length general)%nat →
     sortMiddlewares middlewares path = ([], [conflictingConfigurations path]) ∧
     router c' = router c ∧
     strategies c' = strategies c ∧
     logs c' = logs c ++ [conflictingConfigurations path]).
Proof.
  intros middlewares path general scoped c'. split; [|split].
  - intros v. unfold general. rewrite filter_In, sortMiddlewares_test_general. done.
  - apply sortMiddlewares_sorted.
  - intros Hlen. pose proof (sortMiddlewares_conflict middlewares path Hlen) as E.
    split; [done|]. unfold c', authentication.
    fold middlewares path. rewrite E. done.
Qed.

End SortMiddlewares.

(** [defaultAuth] in front of [adminAuth] is moved behind it; two entries
    without a group are rejected. *)
Lemma sortMiddlewares_general_last_witness :
  ApiAuth.sortMiddlewares [Examples.defaultAuth; Examples.adminAuth] "/api"
    = ([Examples.adminAuth; Examples.defaultAuth], []) ∧
  ApiAuth.router
    (ApiAuth.authentication Examples.loadMiddleware Examples.getId false (λ _, false)
       (λ _ _, None) (λ (_ : unit) _ w, w) Examples.authenticate Examples.groupsJSON
       Examples.buildGroupAllowFilter "api"
       (Examples.api [Examples.defaultAuth; Examples.adminAuth; Examples.secondDefaultAuth] [])
       (ApiPipelineConfig.Build None) Examples.emptyRouter) = [].
Proof.
  split.
  - apply (proj1 (proj2 (sortMiddlewares_general_last
      Examples.loadMiddleware Examples.getId false (λ _, false)
      (λ _ _, None) (λ (_ : unit) _ w, w) Examples.authenticate Examples.groupsJSON
      Examples.buildGroupAllowFilter "api"
      (Examples.api [Examples.defaultAuth; Examples.adminAuth] [])
      (ApiPipelineConfig.Build None) Examples.emptyRouter))).
    simpl. lia.
  - apply (proj2 (proj2 (sortMiddlewares_general_last
      Examples.loadMiddleware Examples.getId false (λ _, false)
      (λ _ _, None) (λ (_ : unit) _ w, w) Examples.authenticate Examples.groupsJSON
      Examples.buildGroupAllowFilter "api"
      (Examples.api [Examples.defaultAuth; Examples.adminAuth; Examples.secondDefaultAuth] [])
      (ApiPipelineConfig.Build None) Examples.emptyRouter))).
    simpl. lia.
Defined.

(** ** Sorting the breaker configs *)

Section SortBreakers.
Import CircuitBreakerConfig.
Import ApiCircuitBreaker.

Lemma sortBreakers_test_scoped (v : value) :
  sortBreakers_test v = true ↔ is_Some (group v).
Proof.
  unfold sortBreakers_test. destruct (group v); split; done.
Qed.

(** What [sortBreakers] does: the entries its test passes are the ones
    with a group.  Two or more of them: an error and the empty list.
    Exactly one, not yet last: it leaves its place and the array [splice]
    returned is pushed.  Otherwise the list is returned as it is. *)
Lemma sortBreakers_conflict (breakers : list value) (path : string) :
  (2 ≤ length (List.filter sortBreakers_test breakers))%nat →
  sortBreakers breakers path = ([], [conflictingConfigurations path]).
Proof.
  intros Hlen. unfold sortBreakers.
  destruct (Nat.ltb_spec 1 (length (List.filter sortBreakers_test breakers))); [done|lia].
Qed.

Lemma sortBreakers_none_scoped (breakers : list value) (path : string) :
  List.filter sortBreakers_test breakers = [] →
  sortBreakers breakers path = (breakers, []).
Proof. intros E. unfold sortBreakers. by rewrite E. Qed.

Lemma sortBreakers_one_scoped (breakers : list value) (path : string) (g : value) :
  List.filter sortBreakers_test breakers = [g] →
  sortBreakers breakers path =
    if Z.of_nat (indexOfFirst sortBreakers_test breakers) <? Z.of_nat (length breakers) - 1
    then (List.filter (λ v, negb (sortBreakers_test v)) breakers ++ [ArrayOf [g]], [])
    else (breakers, []).
Proof.
  intros E. unfold sortBreakers. rewrite E. simpl.
  destruct (filter_one_split sortBreakers_test breakers) as (Hi & Ht & Hd);
    [by rewrite E|].
  destruct (Z.ltb_spec (Z.of_nat (indexOfFirst sortBreakers_test breakers))
              (Z.of_nat (length breakers) - 1)); [|done].
  unfold splice1. by rewrite Ht, Hd, E.
Qed.

(** C3, on the code.  A default entry in front of a group-scoped one stays
    in front; the group-scoped entry in front of the default one is the one
    that is moved, and it arrives as a one-element array; two default entries
    are accepted without an error, and both become stages; two group-scoped
    entries are rejected. *)
Theorem sortBreakers_moves_group_entry :
  sortBreakers [Config Examples.defaultBreaker; Config Examples.adminBreaker] "/api"
    = ([Config Examples.defaultBreaker; Config Examples.adminBreaker], []) ∧
  sortBreakers [Config Examples.adminBreaker; Config Examples.defaultBreaker] "/api"
    = ([Config Examples.defaultBreaker; ArrayOf [Config Examples.adminBreaker]], []) ∧
  sortBreakers [Config Examples.defaultBreaker; Config Examples.secondDefaultBreaker] "/api"
    = ([Config Examples.defaultBreaker; Config Examples.secondDefaultBreaker], []) ∧
  sortBreakers [Config Examples.adminBreaker; Config Examples.usersBreaker] "/api"
    = ([], [conflictingConfigurations "/api"]) ∧
  fst (configureBreakers false Examples.groupsJSON Examples.buildGroupAllowFilter false
         Examples.createStats Examples.getStatsKey "/middleware" Examples.join Examples.require
         (Examples.api [] [Config Examples.defaultBreaker; Config Examples.secondDefaultBreaker])
         [Config Examples.defaultBreaker; Config Examples.secondDefaultBreaker]
         Examples.configured)
    = ([], Return [Build_Breaker (BreakerInfo.Build (CircuitBreaker.Build_Options 100 120000 3) None) [];
                   Build_Breaker (BreakerInfo.Build (CircuitBreaker.Build_Options 200 120000 10) None) []]) ∧
  fst (circuitBreaker false Examples.groupsJSON Examples.buildGroupAllowFilter false
         Examples.createStats Examples.getStatsKey "/middleware" Examples.join Examples.require []
         (Examples.api [] [Config Examples.defaultBreaker; Config Examples.secondDefaultBreaker])
         Examples.configured)
    = ([],
       [buildMiddleware (BreakerInfo.Build (CircuitBreaker.Build_Options 100 120000 3) None);
        buildMiddleware (BreakerInfo.Build (CircuitBreaker.Build_Options 200 120000 10) None)],
       None).
Proof. repeat split; reflexivity. Qed.

End SortBreakers.

(** ** Stores: reading what was written *)

Section Stores.
Context {A : Type}.

Lemma alter_insert (f : A → A) (l : list A) (i : nat) (x : A) :
  l !! i = Some x → alter f i l = <[i := f x]> l.
Proof.
  intros E. apply list_eq. intros j. destruct (decide (i = j)) as [<-|Hne].
  - rewrite list_lookup_alter_eq, E, list_lookup_insert_eq; [done|].
    by eapply lookup_lt_Some.
  - by rewrite list_lookup_alter_ne, list_lookup_insert_ne.
Qed.

Lemma lookup_insert_same (l : list A) (i : nat) (x y : A) :
  l !! i = Some x → <[i := y]> l !! i = Some y.
Proof. intros E. apply list_lookup_insert_eq. by eapply lookup_lt_Some. Qed.

End Stores.

(** Lookups in a store that was just written. *)
Ltac lookup_written :=
  simpl; rewrite ?list_insert_insert_eq;
  first [ eassumption | eapply lookup_insert_same; lookup_written' ]
with lookup_written' :=
  first [ eassumption | eapply lookup_insert_same; lookup_written' ].


(** ** The breaker, for any state handler *)

Section BreakerFacts.
Import CircuitBreaker.
Context {St : Type} `{!StateHandler.methods St}.
Implicit Types (w : world St) (self : Options) (rid cid tid : nat).

Lemma withResponse_Some rid (k : Response → M St unit) w r :
  responses w !! rid = Some r → withResponse rid k w = k r w.
Proof. intros E. unfold withResponse. by rewrite E. Qed.

Lemma withFrame_Some cid (k : Frame → M St unit) w fr :
  frames w !! cid = Some fr → withFrame cid k w = k fr w.
Proof. intros E. unfold withFrame. by rewrite E. Qed.

Lemma exec_withResponse_Some rid (k : Response → M St unit) w r :
  responses w !! rid = Some r → exec (withResponse rid k) w = exec (k r) w.
Proof. intros E. unfold exec. by rewrite (withResponse_Some _ _ _ _ E). Qed.

Lemma exec_withResponse_None rid (k : Response → M St unit) w :
  responses w !! rid = None → exec (withResponse rid k) w = w.
Proof. intros E. unfold exec, withResponse. by rewrite E. Qed.

Lemma exec_withFrame_Some cid (k : Frame → M St unit) w fr :
  frames w !! cid = Some fr → exec (withFrame cid k) w = exec (k fr) w.
Proof. intros E. unfold exec. by rewrite (withFrame_Some _ _ _ _ E). Qed.

Lemma res_status_Some rid (code : Z) w r :
  responses w !! rid = Some r →
  exec (res_status rid code) w =
    with_responses (<[rid := Build_Response code (res_end r)]> (responses w)) w.
Proof. intros E. unfold exec, res_status, modify. simpl. by rewrite (alter_insert _ _ _ _ E). Qed.

Lemma set_res_end_Some rid (f : endFn) w r :
  responses w !! rid = Some r →
  exec (set_res_end rid f) w =
    with_responses (<[rid := Build_Response (statusCode r) f]> (responses w)) w.
Proof. intros E. unfold exec, set_res_end, modify. simpl. by rewrite (alter_insert _ _ _ _ E). Qed.

Lemma set_operationTimeout_Some cid w fr :
  frames w !! cid = Some fr →
  exec (set_operationTimeout cid) w =
    with_frames (<[cid := Build_Frame (f_self fr) (f_res fr) true (timeoutID fr)]> (frames w)) w.
Proof.
  intros E. unfold exec, set_operationTimeout, modify. simpl.
  by rewrite (alter_insert _ _ _ _ E).
Qed.

Lemma clearTimeout_Pending tid w (cb : callback) (ms : Z) :
  timers w !! tid = Some (Build_Timer cb ms Pending) →
  exec (clearTimeout tid) w = with_timers (<[tid := Build_Timer cb ms Cleared]> (timers w)) w.
Proof. intros E. unfold exec, clearTimeout, modify. simpl. by rewrite (alter_insert _ _ _ _ E). Qed.

Lemma exec_bind {A B} (m : M St A) (k : A → M St B) w :
  exec (bind m k) w = exec (k (fst (m w))) (snd (m w)).
Proof. unfold exec, bind. by destruct (m w). Qed.

Lemma exec_seq {A} (m : M St unit) (k : M St A) w :
  exec (m ;; k) w = exec k (exec m w).
Proof. unfold exec, bind. by destruct (m w). Qed.

(** *** What the methods on the handler leave alone *)

Lemma forceOpen_step self w :
  ∃ tr ts, handlerStep w (exec (forceOpen self) w) tr ts ∧ Forall is_emit tr.
Proof.
  unfold forceOpen, exec, bind, callHandler, handlerStep.
  destruct (StateHandler.forceOpen (stateHandler w)) as [[] h']; simpl.
  - exists [EvEmit "open"], [Build_Timer (cbForceHalfOpen self) (resetTimeout self) Pending].
    repeat split; auto. repeat constructor.
  - exists [], []. rewrite !app_nil_r. repeat split; auto.
Qed.

Lemma forceClosed_step w :
  ∃ tr, handlerStep w (exec forceClosed w) tr [] ∧ Forall is_emit tr.
Proof.
  unfold forceClosed, exec, bind, callHandler, handlerStep.
  destruct (StateHandler.forceClose (stateHandler w)) as [[] h']; simpl.
  - exists [EvEmit "close"]. rewrite app_nil_r. repeat split; auto. repeat constructor.
  - exists []. rewrite !app_nil_r. repeat split; auto.
Qed.

(** [handleFailure] has the handler increment the counter and leaves a
    promise behind; nothing else happens before the promise resolves. *)
Lemma handleFailure_exec self w :
  exec (handleFailure self) w =
    let r := StateHandler.incrementFailures (stateHandler w) in
    with_promises (promises w ++ [Build_Promise self (fst r)])
      (with_stateHandler (snd r) (with_trace (trace w ++ [EvCall mHandleFailure]) w)).
Proof.
  unfold handleFailure, exec, bind, callHandler, log, modify. simpl.
  by destruct (StateHandler.incrementFailures (stateHandler w)).
Qed.

Lemma thenCallback_step (p : Promise) w :
  ∃ tr ts, handlerStep w (exec (thenCallback p) w) tr ts ∧ Forall is_emit tr.
Proof.
  unfold thenCallback. rewrite exec_bind. simpl.
  destruct (StateHandler.isHalfOpen (stateHandler w) || (maxFailures (p_self p) <=? p_numFailures p)).
  - apply forceOpen_step.
  - exists [], []. split; [|constructor]. unfold handlerStep, exec, ret. simpl.
    rewrite !app_nil_r. done.
Qed.

Lemma thenCallback_handler (p : Promise) w :
  stateHandler (exec (thenCallback p) w) =
    resolvedOutcome (p_self p) (p_numFailures p) (stateHandler w).
Proof.
  unfold thenCallback, resolvedOutcome, forceOpen, exec, bind, callHandler, isHalfOpen,
    readHandler. simpl.
  destruct (StateHandler.isHalfOpen (stateHandler w) || (maxFailures (p_self p) <=? p_numFailures p));
    [|done].
  destruct (StateHandler.forceOpen (stateHandler w)) as [[] h2]; done.
Qed.

Lemma handleSuccess_step w :
  ∃ tr, handlerStep w (exec handleSuccess w) (EvCall mHandleSuccess :: tr) []
        ∧ Forall is_emit tr.
Proof.
  unfold handleSuccess. rewrite exec_seq.
  destruct (forceClosed_step (exec (log (EvCall mHandleSuccess)) w))
    as (tr & (F & R & P & T & S) & Hemit).
  exists tr. split; [|done]. unfold handlerStep.
  rewrite F, R, P, T, S. simpl. rewrite <- app_assoc. done.
Qed.

Lemma handleSuccess_handler w :
  stateHandler (exec handleSuccess w) = successOutcome (stateHandler w).
Proof.
  unfold handleSuccess, successOutcome, forceClosed, exec, bind, callHandler, log, modify.
  simpl. destruct (StateHandler.forceClose (stateHandler w)) as [[] h2]; done.
Qed.

(** With one promise pending, settling is running its callback. *)
Lemma settle_one (p : Promise) w :
  promises w = [p] → exec settle w = exec (thenCallback p) (with_promises [] w).
Proof.
  intros E. unfold exec, settle. rewrite E. simpl. unfold bind.
  by destruct (thenCallback p (with_promises [] w)) as [[] w1].
Qed.

Lemma settle_none w : promises w = [] → exec settle w = w.
Proof. intros E. unfold exec, settle. rewrite E. simpl. by destruct w; simpl in *; subst. Qed.

Lemma is_emit_internal (tr : list effect) : Forall is_emit tr → Forall internal tr.
Proof. intros Hall. eapply Forall_impl; [done|]. by intros []. Qed.

(** *** Ending a response *)

(** Observing the end of a response touches neither the activations nor the
    responses, and adds only internal effects. *)
Lemma observeEnd_quiet (fr : Frame) w :
  let w' := exec (observeEnd fr) w in
  frames w' = frames w ∧ responses w' = responses w ∧
  ∃ tr, trace w' = trace w ++ tr ∧ Forall internal tr.
Proof.
  unfold observeEnd. destruct (operationTimeout fr); simpl.
  { split; [done|]. split; [done|]. exists []. by rewrite app_nil_r. }
  rewrite exec_seq. set (w1 := exec (clearTimeout (timeoutID fr)) w).
  destruct (responses w1 !! f_res fr) as [r|] eqn:Er.
  2:{ rewrite exec_withResponse_None by done.
      split; [done|]. split; [done|]. exists []. split; [by rewrite app_nil_r|constructor]. }
  rewrite (exec_withResponse_Some _ _ _ _ Er).
  destruct (500 <=? statusCode r).
  - rewrite exec_seq, handleFailure_exec. simpl.
    split; [done|]. split; [done|]. eexists; split; [done|]. by repeat constructor.
  - destruct (handleSuccess_step w1) as (tr & (F & R & P & T & S) & Hemit).
    rewrite F, R, T. split; [done|]. split; [done|]. eexists; split; [done|].
    constructor; [done|]. by apply is_emit_internal.
Qed.

(** Whatever functions have been stacked on [res.end], calling it writes the
    response out, with the status code it has, after internal effects only;
    afterwards [res.end] is the response's own again. *)
Lemma applyEnd_sent (f : endFn) : ∀ w rid (body : string) (code : Z),
  responses w !! rid = Some (Build_Response code f) →
  wf_end (frames w) rid f →
  let w' := exec (applyEnd f rid body) w in
  frames w' = frames w ∧
  responses w' = <[rid := Build_Response code originalEnd]> (responses w) ∧
  ∃ tr, trace w' = trace w ++ tr ++ [EvSent rid code body] ∧ Forall internal tr.
Proof.
  induction f as [|cid end_ IH]; intros w rid body code Hres Hwf; simpl.
  - rewrite (exec_withResponse_Some _ _ _ _ Hres). simpl.
    split; [done|]. split; [by rewrite list_insert_id|].
    exists []. split; [done|constructor].
  - destruct Hwf as [(fr & Hfr & <-) Hwf].
    rewrite (exec_withFrame_Some _ _ _ _ Hfr), exec_seq.
    destruct (observeEnd_quiet fr w) as (F1 & R1 & tr1 & T1 & I1).
    set (w1 := exec (observeEnd fr) w) in *.
    rewrite exec_seq.
    set (w2 := exec (set_res_end (f_res fr) end_) w1).
    assert (responses w2 = <[f_res fr := Build_Response code end_]> (responses w)) as R2.
    { unfold w2. simpl. rewrite R1. by rewrite (alter_insert _ _ _ _ Hres). }
    assert (frames w2 = frames w) as F2 by (unfold w2; simpl; done).
    assert (trace w2 = trace w ++ tr1) as T2 by (unfold w2; simpl; done).
    destruct (IH w2 (f_res fr) body code) as (F3 & R3 & tr3 & T3 & I3).
    { rewrite R2. apply list_lookup_insert_eq. by eapply lookup_lt_Some. }
    { by rewrite F2. }
    split; [by rewrite F3|]. split.
    { rewrite R3, R2. by rewrite list_insert_insert_eq. }
    exists (tr1 ++ tr3). split.
    + rewrite T3, T2, <- !app_assoc. done.
    + by apply Forall_app.
Qed.

End BreakerFacts.

(** ** Admission *)

Section Admission.
Import CircuitBreaker.
Context {St : Type} `{!StateHandler.methods St}.
Implicit Types (w : world St) (self : Options) (rid cid tid : nat).

Lemma invokeApi_trace self rid w :
  stateHandler (exec (invokeApi self rid) w) = stateHandler w ∧
  trace (exec (invokeApi self rid) w) = trace w ++ [EvNext rid].
Proof.
  unfold invokeApi, exec, bind, setTimeout, modify, withResponse, log. simpl.
  destruct (responses w !! rid); simpl; done.
Qed.

(** What the handler does, by the two tests it makes. *)
Lemma middleware_cases self rid w :
  let h := stateHandler w in
  exec (middleware self rid) w =
    exec (if StateHandler.isOpen h || (StateHandler.isHalfOpen h && StateHandler.halfOpenCallPending h)
          then fastFail rid
          else if StateHandler.isHalfOpen h && negb (StateHandler.halfOpenCallPending h)
          then modify (λ w, with_stateHandler
                 (StateHandler.set_halfOpenCallPending true (stateHandler w)) w) ;;
               invokeApi self rid
          else invokeApi self rid) w.
Proof.
  unfold middleware, exec, bind, isOpen, isHalfOpen, readHandler, ret. simpl.
  by destruct (StateHandler.isOpen (stateHandler w)
               || StateHandler.isHalfOpen (stateHandler w)
                  && StateHandler.halfOpenCallPending (stateHandler w)).
Qed.

(** An admitted request goes on to [invokeApi]. *)
Lemma middleware_admits self rid w :
  let h := stateHandler w in
  StateHandler.isOpen h || (StateHandler.isHalfOpen h && StateHandler.halfOpenCallPending h) = false →
  exec (middleware self rid) w = exec (invokeApi self rid) (with_stateHandler (admitted h) w).
Proof.
  intros h Hrej. rewrite middleware_cases. cbv zeta. fold h. rewrite Hrej. unfold admitted.
  destruct (StateHandler.isHalfOpen h && negb (StateHandler.halfOpenCallPending h)).
  - by rewrite exec_seq.
  - by destruct w.
Qed.

Lemma fastFail_rejects rid (code : Z) (f : endFn) w :
  responses w !! rid = Some (Build_Response code f) →
  wf_end (frames w) rid f →
  let w' := exec (fastFail rid) w in
  ∃ tr, trace w' = trace w ++ tr ++ [EvSent rid 503 "CircuitBreaker open"; EvEmit "rejected"]
        ∧ Forall internal tr
        ∧ (f = originalEnd → tr = [] ∧ stateHandler w' = stateHandler w).
Proof.
  intros Hres Hwf. unfold fastFail. rewrite !exec_seq.
  set (w1 := exec (res_status rid 503) w).
  assert (responses w1 = <[rid := Build_Response 503 f]> (responses w)) as R1.
  { unfold w1. simpl. by rewrite (alter_insert _ _ _ _ Hres). }
  assert (responses w1 !! rid = Some (Build_Response 503 f)) as Hres1.
  { rewrite R1. apply list_lookup_insert_eq. by eapply lookup_lt_Some. }
  unfold res_end_call. rewrite (exec_withResponse_Some _ _ _ _ Hres1). simpl res_end.
  destruct (applyEnd_sent f w1 rid "CircuitBreaker open" 503 Hres1 Hwf)
    as (F2 & R2 & tr & T2 & I2).
  exists tr. simpl. rewrite T2. change (trace w1) with (trace w).
  rewrite <- !app_assoc. split; [done|]. split; [done|].
  intros ->. simpl in T2 |- *.
  rewrite (exec_withResponse_Some _ _ _ _ Hres1) in T2 |- *. simpl in T2 |- *.
  split; [|done]. apply (app_inv_head (trace w)) in T2.
  destruct tr as [|e tr]; [done|]. destruct tr; discriminate.
Qed.

(** C1.  The breaker's request handler, on a live response (one of the
    table, each function stacked on its [end] belonging to an activation on
    it).  In OPEN, or in HALF_OPEN with a call pending, the response goes
    out with status 503 and body [CircuitBreaker open], then [rejected] is
    emitted, and [next] is not called (what precedes the response is
    internal: the observers other breaker stages stacked on [res.end];
    nothing, on a response nobody wrapped).  In HALF_OPEN with no call
    pending the flag is set and [next] is called.  Otherwise the handler
    object is left as it is and [next] is called. *)
Theorem middleware_admission self rid (code : Z) (f : endFn) w :
  responses w !! rid = Some (Build_Response code f) →
  wf_end (frames w) rid f →
  let h := stateHandler w in
  let rejecting :=
    StateHandler.isOpen h || (StateHandler.isHalfOpen h && StateHandler.halfOpenCallPending h) in
  let w' := exec (middleware self rid) w in
  (rejecting = true →
     ∃ tr, trace w' = trace w ++ tr ++ [EvSent rid 503 "CircuitBreaker open"; EvEmit "rejected"]
           ∧ Forall internal tr
           ∧ (f = originalEnd → tr = [] ∧ stateHandler w' = h)) ∧
  (rejecting = false → StateHandler.isHalfOpen h = true →
     stateHandler w' = StateHandler.set_halfOpenCallPending true h ∧
     StateHandler.halfOpenCallPending (stateHandler w') = true ∧
     trace w' = trace w ++ [EvNext rid]) ∧
  (rejecting = false → StateHandler.isHalfOpen h = false →
     stateHandler w' = h ∧
     trace w' = trace w ++ [EvNext rid]).
Proof.
  intros Hres Hwf h rejecting w'.
  unfold w'. rewrite middleware_cases. fold h rejecting.
  split; [|split].
  - intros Hrej. rewrite Hrej. by apply (fastFail_rejects rid code f w).
  - intros Hrej Hho. rewrite Hrej. unfold rejecting in Hrej. rewrite Hho in *.
    apply orb_false_iff in Hrej as [_ Hp]. simpl in Hp. rewrite Hp. simpl.
    rewrite exec_seq.
    destruct (invokeApi_trace self rid
      (exec (modify (λ w, with_stateHandler
         (StateHandler.set_halfOpenCallPending true (stateHandler w)) w)) w)) as [-> ->].
    done.
  - intros Hrej Hho. rewrite Hrej, Hho. simpl.
    by destruct (invokeApi_trace self rid w) as [-> ->].
Qed.

End Admission.

(** A request that arrives while the breaker is OPEN, one that arrives in
    HALF_OPEN with no call pending, and one that arrives in CLOSED. *)
Lemma middleware_admission_witness :
  CircuitBreaker.trace (CircuitBreaker.exec (CircuitBreaker.middleware Examples.options 0)
                          Examples.arrivedOpen)
    = [CircuitBreaker.EvSent 0 503 "CircuitBreaker open"; CircuitBreaker.EvEmit "rejected"] ∧
  StateHandler.halfOpenCallPending
    (CircuitBreaker.stateHandler
       (CircuitBreaker.exec (CircuitBreaker.middleware Examples.options 0)
          Examples.arrivedHalfOpen)) = true ∧
  CircuitBreaker.trace (CircuitBreaker.exec (CircuitBreaker.middleware Examples.options 0)
                          Examples.arrived)
    = [CircuitBreaker.EvNext 0].
Proof.
  pose proof (@middleware_admission _ RedisStateHandler.methods Examples.options 0 200
    CircuitBreaker.originalEnd) as Hadmission.
  split; [|split].
  - destruct (proj1 (Hadmission Examples.arrivedOpen eq_refl I) eq_refl) as (tr & T & _ & Htr).
    destruct (Htr eq_refl) as [-> _]. exact T.
  - exact (proj1 (proj2 (proj1 (proj2 (Hadmission Examples.arrivedHalfOpen eq_refl I))
      eq_refl eq_refl))).
  - exact (proj2 (proj2 (proj2 (Hadmission Examples.arrived eq_refl I)) eq_refl eq_refl)).
Defined.

(** ** One admitted request *)

Section InFlight.
Import CircuitBreaker.
Context {St : Type} `{!StateHandler.methods St}.
Implicit Types (w : world St) (self : Options) (rid cid tid : nat).

(** Admission on a response nobody has wrapped leaves the request in
    flight, with a fresh activation and a fresh timer of [options.timeout]
    milliseconds. *)
Lemma invokeApi_inFlight self rid (code : Z) w :
  responses w !! rid = Some (Build_Response code originalEnd) →
  let w' := exec (invokeApi self rid) w in
  inFlight self rid (length (frames w)) (length (timers w)) w' ∧
  timers w' = timers w ++ [Build_Timer (cbOperationTimeout (length (frames w))) (timeout self) Pending] ∧
  frames w' = frames w ++ [Build_Frame self rid false (length (timers w))] ∧
  responses w' =
    <[rid := Build_Response code (patchedEnd (length (frames w)) originalEnd)]> (responses w) ∧
  stateHandler w' = stateHandler w ∧
  promises w' = promises w ∧
  trace w' = trace w ++ [EvNext rid].
Proof.
  intros Hres. unfold invokeApi, exec, bind, setTimeout, modify, withResponse, log. simpl.
  rewrite Hres. unfold inFlight. simpl. rewrite (alter_insert _ _ _ _ Hres). repeat split.
  - by rewrite list_lookup_middle.
  - by rewrite list_lookup_middle.
  - exists code. lookup_written.
Qed.

Lemma fireTimer_Pending tid w (cb : callback) (ms : Z) :
  timers w !! tid = Some (Build_Timer cb ms Pending) →
  exec (fireTimer tid) w =
    exec (runCallback cb) (with_timers (<[tid := Build_Timer cb ms Fired]> (timers w)) w).
Proof.
  intros Htm. unfold exec at 1, fireTimer. rewrite Htm. simpl.
  unfold bind, modify. by rewrite (alter_insert _ _ _ _ Htm).
Qed.

(** A timer that is not pending does not run. *)
Lemma fireTimer_not_Pending tid w (t : Timer) :
  timers w !! tid = Some t → t_status t ≠ Pending → exec (fireTimer tid) w = w.
Proof.
  intros Htm Hst. unfold exec, fireTimer. rewrite Htm. by destruct (t_status t).
Qed.

(** The timer of a request in flight fires. *)
Lemma fireTimer_inFlight self rid cid tid w :
  inFlight self rid cid tid w →
  let w' := exec (fireTimer tid) w in
  let r := StateHandler.incrementFailures (stateHandler w) in
  frames w' = <[cid := Build_Frame self rid true tid]> (frames w) ∧
  responses w' = <[rid := Build_Response 504 originalEnd]> (responses w) ∧
  stateHandler w' = snd r ∧
  promises w' = promises w ++ [Build_Promise self (fst r)] ∧
  trace w' = trace w ++ [EvCall mHandleFailure; EvSent rid 504 "CircuitBreaker timeout"] ∧
  timers w' = <[tid := Build_Timer (cbOperationTimeout cid) (timeout self) Fired]> (timers w).
Proof.
  intros (Hfr & Htm & code & Hres).
  rewrite (fireTimer_Pending _ _ _ _ Htm).
  unfold runCallback.
  erewrite exec_withFrame_Some by (simpl; exact Hfr).
  rewrite exec_seq.
  erewrite set_operationTimeout_Some by (simpl; exact Hfr).
  simpl f_self; simpl f_res; simpl timeoutID.
  unfold handleTimeout. rewrite exec_seq, handleFailure_exec. cbv zeta.
  rewrite exec_seq. erewrite res_status_Some by (simpl; exact Hres). simpl res_end.
  unfold res_end_call.
  erewrite exec_withResponse_Some by lookup_written.
  simpl applyEnd.
  erewrite exec_withFrame_Some by lookup_written.
  unfold observeEnd. simpl. rewrite !exec_seq.
  change (exec (ret ()) ?w) with w.
  erewrite set_res_end_Some by lookup_written.
  erewrite exec_withResponse_Some by lookup_written.
  simpl. rewrite !list_insert_insert_eq, <- app_assoc. done.
Qed.

(** The downstream handler completes the response of a request in flight
    with a status of 500 or more. *)
Lemma downstream_inFlight_failure self rid cid tid (code : Z) (body : string) w :
  inFlight self rid cid tid w →
  500 ≤ code →
  let w' := exec (downstream rid code body) w in
  let r := StateHandler.incrementFailures
             (StateHandler.set_halfOpenCallPending false (stateHandler w)) in
  frames w' = frames w ∧
  responses w' = <[rid := Build_Response code originalEnd]> (responses w) ∧
  stateHandler w' = snd r ∧
  promises w' = promises w ++ [Build_Promise self (fst r)] ∧
  trace w' = trace w ++ [EvCall mHandleFailure; EvSent rid code body] ∧
  timers w' = <[tid := Build_Timer (cbOperationTimeout cid) (timeout self) Cleared]> (timers w).
Proof.
  intros (Hfr & Htm & code0 & Hres) Hcode. simpl.
  unfold downstream. rewrite exec_seq, (res_status_Some _ _ _ _ Hres). simpl res_end.
  unfold res_end_call.
  erewrite exec_withResponse_Some by lookup_written.
  simpl applyEnd.
  erewrite exec_withFrame_Some by lookup_written.
  rewrite !exec_seq. unfold observeEnd. simpl operationTimeout. simpl negb. cbv iota.
  rewrite exec_seq. simpl timeoutID. simpl f_res. simpl f_self.
  erewrite clearTimeout_Pending by lookup_written.
  erewrite (exec_withResponse_Some _ (λ r, if 500 <=? statusCode r then _ else _))
    by lookup_written.
  simpl statusCode.
  destruct (Z.leb_spec 500 code); [|lia].
  rewrite exec_seq, handleFailure_exec. cbv zeta.
  erewrite set_res_end_Some by lookup_written.
  erewrite exec_withResponse_Some by lookup_written.
  simpl. rewrite !list_insert_insert_eq, <- app_assoc. done.
Qed.

(** The downstream handler completes the response of a request in flight
    with a status below 500. *)
Lemma downstream_inFlight_success self rid cid tid (code : Z) (body : string) w :
  inFlight self rid cid tid w →
  code < 500 →
  let w' := exec (downstream rid code body) w in
  frames w' = frames w ∧
  responses w' = <[rid := Build_Response code originalEnd]> (responses w) ∧
  stateHandler w' = successOutcome (stateHandler w) ∧
  promises w' = promises w ∧
  (∃ tr, trace w' = trace w ++ EvCall mHandleSuccess :: tr ++ [EvSent rid code body] ∧
         Forall is_emit tr) ∧
  timers w' = <[tid := Build_Timer (cbOperationTimeout cid) (timeout self) Cleared]> (timers w).
Proof.
  intros (Hfr & Htm & code0 & Hres) Hcode. simpl.
  unfold downstream. rewrite exec_seq, (res_status_Some _ _ _ _ Hres). simpl res_end.
  unfold res_end_call.
  erewrite exec_withResponse_Some by lookup_written.
  simpl applyEnd.
  erewrite exec_withFrame_Some by lookup_written.
  rewrite !exec_seq. unfold observeEnd. simpl operationTimeout. simpl negb. cbv iota.
  rewrite exec_seq. simpl timeoutID. simpl f_res. simpl f_self.
  erewrite clearTimeout_Pending by lookup_written.
  erewrite (exec_withResponse_Some _ (λ r, if 500 <=? statusCode r then _ else _))
    by lookup_written.
  simpl statusCode.
  destruct (Z.leb_spec 500 code); [lia|].
  match goal with |- context [exec handleSuccess ?w2] =>
    destruct (handleSuccess_step w2) as (tr & (F3 & R3 & P3 & T3 & S3) & Hemit);
    pose proof (handleSuccess_handler w2) as H3;
    set (w3 := exec handleSuccess w2) in *; clearbody w3
  end.
  simpl in F3, R3, P3, T3, S3, H3.
  erewrite set_res_end_Some by (rewrite R3; lookup_written).
  erewrite exec_withResponse_Some by (simpl; rewrite R3; lookup_written).
  simpl. rewrite F3, R3, P3, T3, S3, H3, !list_insert_insert_eq, <- app_assoc, app_nil_r.
  split; [done|]. split; [done|]. split; [done|]. split; [done|]. split; [by exists tr|done].
Qed.

(** After the timer of a request in flight has fired, the request is timed
    out in the sense of [timedOut]. *)
Lemma fireTimer_timedOut self rid cid tid w :
  inFlight self rid cid tid w → timedOut self rid cid tid (exec (fireTimer tid) w).
Proof.
  intros Hin. pose proof Hin as (Hfr & Htm & code & Hres).
  destruct (fireTimer_inFlight self rid cid tid w Hin) as (F & R & _ & _ & _ & S).
  unfold timedOut. rewrite F, R, S. split; [lookup_written|]. split; [lookup_written|].
  exists 504. lookup_written.
Qed.

(** The downstream handler completes a response whose request has timed
    out: the response's own [end] is all that runs. *)
Lemma downstream_timedOut self rid cid tid (code : Z) (body : string) w :
  timedOut self rid cid tid w →
  exec (downstream rid code body) w =
    with_trace (trace w ++ [EvSent rid code body])
      (with_responses (<[rid := Build_Response code originalEnd]> (responses w)) w).
Proof.
  intros (Hfr & Htm & code0 & Hres).
  unfold downstream. rewrite exec_seq, (res_status_Some _ _ _ _ Hres). simpl res_end.
  unfold res_end_call.
  erewrite exec_withResponse_Some by lookup_written.
  simpl applyEnd.
  erewrite exec_withResponse_Some by lookup_written.
  done.
Qed.

(** A whole request that the breaker lets through, on a world with no
    promise pending: the handler object afterwards, and the call of
    [next]. *)
Lemma request_admitted self (c : completion) w :
  let h := stateHandler w in
  StateHandler.isOpen h || (StateHandler.isHalfOpen h && StateHandler.halfOpenCallPending h) = false →
  promises w = [] →
  let w' := exec (request self c) w in
  stateHandler w' =
    match c with
    | Completes code _ =>
        if 500 <=? code
        then failureOutcome self (StateHandler.set_halfOpenCallPending false (admitted h))
        else successOutcome (admitted h)
    | TimesOut => failureOutcome self (admitted h)
    end ∧
  promises w' = [] ∧
  length (responses w') = S (length (responses w)) ∧
  ∃ tr ts,
    trace w' = trace w ++ EvNext (length (responses w))
                 :: EvCall (match c with
                            | Completes code _ =>
                                if 500 <=? code then mHandleFailure else mHandleSuccess
                            | TimesOut => mHandleFailure
                            end) :: tr ∧
    timers w' =
      timers w ++ Build_Timer (cbOperationTimeout (length (frames w))) (timeout self)
                    (match c with Completes _ _ => Cleared | TimesOut => Fired end) :: ts.
Proof.
  intros h Hrej Hps. cbv zeta. unfold request.
  rewrite exec_bind. simpl fst. simpl snd.
  rewrite exec_bind. simpl fst. simpl snd.
  rewrite !exec_seq, middleware_admits by done. simpl stateHandler. fold h.
  set (w0 := with_stateHandler (admitted h) _).
  assert (stateHandler w0 = admitted h) as H0 by done.
  assert (timers w0 = timers w) as S0 by done.
  assert (frames w0 = frames w) as F0 by done.
  assert (trace w0 = trace w) as T0 by done.
  assert (promises w0 = []) as P0 by done.
  assert (responses w0 = responses w ++ [Build_Response 200 originalEnd]) as R0 by done.
  clearbody w0.
  destruct (invokeApi_inFlight self (length (responses w)) 200 w0)
    as (Hin & S1 & F1 & R1 & H1 & P1 & T1);
    [rewrite R0; by rewrite list_lookup_middle|].
  set (w1 := exec (invokeApi self (length (responses w))) w0) in *. clearbody w1.
  rewrite S0, F0 in *.
  assert (length (responses w1) = S (length (responses w))) as Hlen.
  { rewrite R1, length_insert, R0, length_app. simpl. lia. }
  assert (∀ w2 (p : Promise) (tr2 : list effect) (st : timerStatus),
    promises w2 = [p] →
    length (responses w2) = S (length (responses w)) →
    trace w2 = trace w ++ EvNext (length (responses w)) :: tr2 →
    timers w2 = timers w ++ [Build_Timer (cbOperationTimeout (length (frames w))) (timeout self) st] →
    stateHandler (exec settle w2) = resolvedOutcome (p_self p) (p_numFailures p) (stateHandler w2) ∧
    promises (exec settle w2) = [] ∧
    length (responses (exec settle w2)) = S (length (responses w)) ∧
    ∃ tr ts, trace (exec settle w2) = trace w ++ EvNext (length (responses w)) :: tr2 ++ tr ∧
             timers (exec settle w2) =
               timers w ++ Build_Timer (cbOperationTimeout (length (frames w))) (timeout self) st :: ts)
    as Hsettle.
  { intros w2 p tr2 st P2 L2 T2 S2. rewrite (settle_one p w2 P2).
    destruct (thenCallback_step p (with_promises [] w2)) as (tr & ts & (F & R & P & T & S) & _).
    rewrite thenCallback_handler, P, R, T, S. simpl. rewrite T2, S2, <- !app_assoc.
    split; [done|]. split; [done|]. split; [done|]. by exists tr, ts. }
  destruct c as [code body|].
  - destruct (Z.leb_spec 500 code) as [Hcode|Hcode].
    + destruct (downstream_inFlight_failure self _ _ _ code body w1 Hin Hcode)
        as (F & R & Hh & P & T & S).
      rewrite P1, P0 in P.
      destruct (Hsettle _ _ [EvCall mHandleFailure; EvSent (length (responses w)) code body] Cleared P)
        as (Hh2 & P2 & L2 & tr & ts & T2 & S2).
      { by rewrite R, length_insert. }
      { rewrite T, T1, T0, <- app_assoc. done. }
      { rewrite S, S1. rewrite insert_app_r_alt, Nat.sub_diag by done. done. }
      rewrite Hh2, P2, L2, T2, S2, Hh, H1, H0. simpl.
      split; [done|]. split; [done|]. split; [done|]. by eexists _, ts.
    + destruct (downstream_inFlight_success self _ _ _ code body w1 Hin Hcode)
        as (F & R & Hh & P & (tr & T & _) & S).
      rewrite settle_none by (by rewrite P, P1).
      rewrite Hh, P, P1, R, length_insert, T, T1, T0, S, S1, H1, H0, <- app_assoc.
      split; [done|]. split; [done|]. split; [done|]. eexists _, []. split; [done|].
      rewrite insert_app_r_alt, Nat.sub_diag by done. done.
  - destruct (fireTimer_inFlight self _ _ _ w1 Hin) as (F & R & Hh & P & T & S).
    rewrite P1, P0 in P.
    destruct (Hsettle _ _ [EvCall mHandleFailure;
                           EvSent (length (responses w)) 504 "CircuitBreaker timeout"] Fired P)
      as (Hh2 & P2 & L2 & tr & ts & T2 & S2).
    { by rewrite R, length_insert. }
    { rewrite T, T1, T0, <- app_assoc. done. }
    { rewrite S, S1. rewrite insert_app_r_alt, Nat.sub_diag by done. done. }
    rewrite Hh2, P2, L2, T2, S2, Hh, H1, H0. simpl.
    split; [done|]. split; [done|]. split; [done|]. by eexists _, ts.
Qed.

End InFlight.

(** ** Timeouts and completions *)

Section Completion.
Import CircuitBreaker.
Context {St : Type} `{!StateHandler.methods St}.
Implicit Types (w : world St) (self : Options) (rid cid tid : nat).

(** C6.  The downstream handler completes the response of a request in
    flight, that is, before the timer has fired.  The timer is cancelled.
    With a status of 500 or more, [halfOpenCallPending] is set to [false]
    (whatever the state, so in HALF_OPEN too) and [handleFailure] is
    entered: the counter is incremented on the handler object whose flag is
    [false] and whose other contents are as before, and a promise is left
    for the callback; so unless the handler's own [incrementFailures] sets
    the flag, it is [false] afterwards.  With a smaller status
    [handleSuccess] is entered.  Exactly one of the two is entered, and the
    response goes out. *)
Theorem completion_before_timeout self rid cid tid (code : Z) (body : string) w :
  inFlight self rid cid tid w →
  let w' := exec (downstream rid code body) w in
  timers w' !! tid = Some (Build_Timer (cbOperationTimeout cid) (timeout self) Cleared) ∧
  (500 ≤ code →
     let r := StateHandler.incrementFailures
                (StateHandler.Obj false (StateHandler.priv (stateHandler w))) in
     stateHandler w' = snd r ∧
     ((∀ h, StateHandler.halfOpenCallPending (snd (StateHandler.incrementFailures h))
            = StateHandler.halfOpenCallPending h) →
      StateHandler.halfOpenCallPending (stateHandler w') = false) ∧
     promises w' = promises w ++ [Build_Promise self (fst r)] ∧
     trace w' = trace w ++ [EvCall mHandleFailure; EvSent rid code body]) ∧
  (code < 500 →
     stateHandler w' = successOutcome (stateHandler w) ∧
     promises w' = promises w ∧
     ∃ tr, trace w' = trace w ++ EvCall mHandleSuccess :: tr ++ [EvSent rid code body]
           ∧ Forall is_emit tr).
Proof.
  intros Hin. pose proof Hin as (Hfr & Htm & code0 & Hres). cbv zeta.
  split; [|split].
  - destruct (Z.le_gt_cases 500 code) as [Hcode|Hcode].
    + destruct (downstream_inFlight_failure self rid cid tid code body w Hin Hcode)
        as (_ & _ & _ & _ & _ & S).
      rewrite S. lookup_written.
    + destruct (downstream_inFlight_success self rid cid tid code body w Hin)
        as (_ & _ & _ & _ & _ & S); [lia|].
      rewrite S. lookup_written.
  - intros Hcode.
    destruct (downstream_inFlight_failure self rid cid tid code body w Hin Hcode)
      as (_ & _ & Hh & P & T & _).
    unfold StateHandler.set_halfOpenCallPending in Hh, P.
    split; [done|]. split; [|done].
    intros Hkeep. by rewrite Hh, Hkeep.
  - intros Hcode.
    destruct (downstream_inFlight_success self rid cid tid code body w Hin Hcode)
      as (_ & _ & Hh & P & T & _).
    done.
Qed.

(** C10.  Once the timer of a request in flight has fired, the request is
    timed out: the activation is marked and [res.end] is the response's own
    again.  When the downstream handler completes such a response later, the
    response's own [end] is called with what it was given and nothing else
    happens: the handler object, the timers, the promises and the
    activations stay as they are, and neither [handleSuccess] nor
    [handleFailure] is entered, so the request has the one outcome its
    timeout recorded.  In the other order, a timer that was cancelled at
    completion never runs. *)
Theorem at_most_one_outcome self rid cid tid (code : Z) (body : string) w :
  inFlight self rid cid tid w →
  timedOut self rid cid tid (exec (fireTimer tid) w) ∧
  (∀ w1, timedOut self rid cid tid w1 →
     let w2 := exec (downstream rid code body) w1 in
     stateHandler w2 = stateHandler w1 ∧
     promises w2 = promises w1 ∧
     timers w2 = timers w1 ∧
     frames w2 = frames w1 ∧
     trace w2 = trace w1 ++ [EvSent rid code body]) ∧
  trace (exec (downstream rid code body) (exec (fireTimer tid) w)) =
    trace w ++ [EvCall mHandleFailure; EvSent rid 504 "CircuitBreaker timeout";
                EvSent rid code body] ∧
  exec (fireTimer tid) (exec (downstream rid code body) w) = exec (downstream rid code body) w.
Proof.
  intros Hin. pose proof (fireTimer_timedOut self rid cid tid w Hin) as Hout.
  split; [done|]. split; [|split].
  - intros w1 Hout1. by rewrite (downstream_timedOut self rid cid tid code body w1 Hout1).
  - rewrite (downstream_timedOut self rid cid tid code body _ Hout). simpl.
    destruct (fireTimer_inFlight self rid cid tid w Hin) as (_ & _ & _ & _ & T & _).
    rewrite T, <- app_assoc. done.
  - pose proof Hin as (_ & Htm & _).
    eapply (fireTimer_not_Pending tid _ (Build_Timer (cbOperationTimeout cid) (timeout self) Cleared));
      [|done].
    destruct (Z.le_gt_cases 500 code) as [Hcode|Hcode].
    + destruct (downstream_inFlight_failure self rid cid tid code body w Hin Hcode)
        as (_ & _ & _ & _ & _ & S).
      rewrite S. lookup_written.
    + destruct (downstream_inFlight_success self rid cid tid code body w Hin)
        as (_ & _ & _ & _ & _ & S); [lia|].
      rewrite S. lookup_written.
Qed.

End Completion.

(** The probe of the sample HALF_OPEN breaker, admitted with the flag set,
    completes with status 500: its timer is cancelled, the flag is cleared
    and the failure is counted.  The admitted request of the CLOSED sample
    breaker completes with status 200: no promise is left. *)
Lemma completion_before_timeout_witness :
  StateHandler.halfOpenCallPending (CircuitBreaker.stateHandler Examples.probeWorld) = true ∧
  CircuitBreaker.timers
    (CircuitBreaker.exec (CircuitBreaker.downstream 0 500 "error") Examples.probeWorld)
    !! 0%nat
  = Some (CircuitBreaker.Build_Timer (CircuitBreaker.cbOperationTimeout 0) 100
            CircuitBreaker.Cleared) ∧
  CircuitBreaker.stateHandler
    (CircuitBreaker.exec (CircuitBreaker.downstream 0 500 "error") Examples.probeWorld)
  = StateHandler.Obj false (RedisStateHandler.Data CircuitBreaker.HALF_OPEN 4) ∧
  CircuitBreaker.promises
    (CircuitBreaker.exec (CircuitBreaker.downstream 0 200 "ok") Examples.admittedWorld) = [].
Proof.
  pose proof (@completion_before_timeout _ RedisStateHandler.methods Examples.options 0 0 0 500
    "error" Examples.probeWorld
    (conj eq_refl (conj eq_refl (ex_intro _ 200 eq_refl)))) as (Hcleared & Hfailed & _).
  pose proof (@completion_before_timeout _ RedisStateHandler.methods Examples.options 0 0 0 200
    "ok" Examples.admittedWorld
    (conj eq_refl (conj eq_refl (ex_intro _ 200 eq_refl)))) as (_ & _ & Hok).
  split; [reflexivity|]. split; [exact Hcleared|]. split.
  - destruct (Hfailed ltac:(lia)) as (Hh & _). exact Hh.
  - exact (proj1 (proj2 (Hok ltac:(lia)))).
Defined.

(** The timer of the admitted request of the sample world fires, and the
    downstream handler completes the response afterwards. *)
Lemma at_most_one_outcome_witness :
  CircuitBreaker.trace
    (CircuitBreaker.exec (CircuitBreaker.downstream 0 200 "late")
       (CircuitBreaker.exec (CircuitBreaker.fireTimer 0) Examples.admittedWorld))
  = [CircuitBreaker.EvNext 0; CircuitBreaker.EvCall CircuitBreaker.mHandleFailure;
     CircuitBreaker.EvSent 0 504 "CircuitBreaker timeout"; CircuitBreaker.EvSent 0 200 "late"].
Proof.
  exact (proj1 (proj2 (proj2 (@at_most_one_outcome _ RedisStateHandler.methods Examples.options
    0 0 0 200 "late" Examples.admittedWorld
    (conj eq_refl (conj eq_refl (ex_intro _ 200 eq_refl))))))).
Defined.

(** ** The breaker on the shared state of the design document *)

Section OnRedisState.
Import CircuitBreaker.
Import StateHandler(Obj, halfOpenCallPending, priv).
Import RedisStateHandler(data, Data, state, failures).
Implicit Types (w : world data) (self : Options) (rid cid tid : nat) (h : StateHandler.obj data).

Lemma failureOutcome_redis self h :
  failureOutcome self h =
    let n := failures (priv h) + 1 in
    match state (priv h) with
    | HALF_OPEN => Obj false (Data OPEN n)
    | OPEN => Obj (halfOpenCallPending h) (Data OPEN n)
    | CLOSED =>
        Obj (halfOpenCallPending h) (Data (if maxFailures self <=? n then OPEN else CLOSED) n)
    end.
Proof.
  destruct h as [p [s k]]. unfold failureOutcome, resolvedOutcome. simpl.
  destruct s; simpl; try done; destruct (maxFailures self <=? k + 1); done.
Qed.



Lemma failureOutcome_failures self h :
  failures (priv (failureOutcome self h)) = failures (priv h) + 1.
Proof.
  rewrite failureOutcome_redis. simpl. by destruct (state (priv h)).
Qed.

Lemma successOutcome_redis h :
  successOutcome h =
    match state (priv h) with
    | CLOSED => Obj (halfOpenCallPending h) (Data CLOSED 0)
    | _ => Obj false (Data CLOSED 0)
    end.
Proof. destruct h as [p [s k]]. unfold successOutcome. by destruct s. Qed.


(** *** Consecutive failures *)

Lemma handleFailure_increments self w :
  let h := stateHandler w in
  let n := failures (priv h) + 1 in
  let w1 := exec (handleFailure self) w in
  stateHandler w1 = Obj (halfOpenCallPending h) (Data (state (priv h)) n) ∧
  promises w1 = promises w ++ [Build_Promise self n] ∧
  timers w1 = timers w.
Proof. cbv zeta. rewrite handleFailure_exec. done. Qed.

Lemma thenCallback_forces_open self (numFailures : Z) w :
  let h := stateHandler w in
  let w' := exec (thenCallback (Build_Promise self numFailures)) w in
  (StateHandler.isHalfOpen h || (maxFailures self <=? numFailures) = true →
     state (priv (stateHandler w')) = OPEN) ∧
  (StateHandler.isHalfOpen h || (maxFailures self <=? numFailures) = false →
     w' = w).
Proof.
  cbv zeta. split.
  - intros Hc. rewrite thenCallback_handler. unfold resolvedOutcome.
    cbn [p_self p_numFailures]. rewrite Hc.
    destruct (stateHandler w) as [p [[] k]]; done.
  - intros Hc. unfold thenCallback, exec, bind, isHalfOpen, readHandler.
    cbn [p_self p_numFailures fst snd]. by rewrite Hc.
Qed.

Lemma rejecting_redis h :
  StateHandler.isOpen h || (StateHandler.isHalfOpen h && halfOpenCallPending h) =
    match state (priv h) with
    | OPEN => true
    | HALF_OPEN => halfOpenCallPending h
    | CLOSED => false
    end.
Proof. destruct h as [p [[] k]]; done. Qed.

Lemma admitted_redis h :
  admitted h =
    match state (priv h) with
    | HALF_OPEN => Obj true (priv h)
    | _ => h
    end.
Proof. destruct h as [[] [[] k]]; done. Qed.

(** A request that arrives in CLOSED and ends in a failure: it was handed
    to [next], and the handler object is the one [handleFailure] leaves. *)
Lemma request_failure_closed self (c : completion) w :
  state (priv (stateHandler w)) = CLOSED →
  halfOpenCallPending (stateHandler w) = false →
  promises w = [] →
  isFailure c →
  let w' := exec (request self c) w in
  stateHandler w' = failureOutcome self (stateHandler w) ∧
  promises w' = [] ∧
  length (responses w') = S (length (responses w)) ∧
  ∃ tr, trace w' = trace w ++ EvNext (length (responses w)) :: tr.
Proof.
  intros Hst Hp Hps Hc.
  destruct (request_admitted self c w) as (Hh & Hps' & Hlen & tr & ts & T & _).
  { by rewrite rejecting_redis, Hst. }
  { done. }
  cbv zeta. rewrite Hh, Hlen, T, admitted_redis, Hst. split; [|split; [done|]].
  2:{ split; [done|by eexists]. }
  assert (StateHandler.set_halfOpenCallPending false (stateHandler w) = stateHandler w) as Hset.
  { destruct (stateHandler w) as [p d]. simpl in Hp. by subst p. }
  destruct c as [code body|]; [|done].
  simpl in Hc. destruct (Z.leb_spec 500 code); [|lia]. by rewrite Hset.
Qed.

(** Failures observed one after the other, from CLOSED with no call
    pending, while the counter has not yet reached [maxFailures]: every
    request is handed to [next], the counter counts them, and the breaker
    is OPEN exactly when the counter has reached [maxFailures]. *)
Lemma requests_failures self (cs : list completion) : ∀ w,
  state (priv (stateHandler w)) = CLOSED →
  halfOpenCallPending (stateHandler w) = false →
  promises w = [] →
  Forall isFailure cs →
  failures (priv (stateHandler w)) < maxFailures self →
  failures (priv (stateHandler w)) + Z.of_nat (length cs) ≤ maxFailures self →
  let w' := exec (requests self cs) w in
  let n := failures (priv (stateHandler w)) + Z.of_nat (length cs) in
  stateHandler w' = Obj false (Data (if n <? maxFailures self then CLOSED else OPEN) n) ∧
  length (responses w') = (length (responses w) + length cs)%nat ∧
  ∃ tr, trace w' = trace w ++ tr ∧
        ∀ i, (i < length cs)%nat → In (EvNext (length (responses w) + i)) tr.
Proof.
  induction cs as [|c cs IH]; intros w Hst Hp Hps Hall Hlt Hle; cbv zeta.
  - simpl. change (exec (ret ()) w) with w. rewrite Z.add_0_r, Nat.add_0_r.
    destruct (Z.ltb_spec (failures (priv (stateHandler w))) (maxFailures self)); [|lia].
    split; [|split; [done|]].
    + destruct (stateHandler w) as [p [s k]]. simpl in *. by subst.
    + exists []. rewrite app_nil_r. split; [done|]. intros i Hi. simpl in Hi. lia.
  - apply Forall_cons in Hall as [Hc Hall].
    simpl requests. rewrite exec_seq.
    destruct (request_failure_closed self c w Hst Hp Hps Hc) as (Hh & Hps1 & Hlen & tr1 & T1).
    set (w1 := exec (request self c) w) in *. clearbody w1.
    rewrite failureOutcome_redis, Hst, Hp in Hh. cbv zeta in Hh.
    rewrite length_cons, Nat2Z.inj_succ in *.
    destruct (Z.leb_spec (maxFailures self) (failures (priv (stateHandler w)) + 1)) as [Hmax|Hmax].
    + assert (cs = []) as -> by (destruct cs; [done|simpl in Hle; lia]).
      simpl. change (exec (ret ()) w1) with w1. rewrite Hh, Hlen, T1.
      match goal with |- context [?a <? ?b] => destruct (Z.ltb_spec a b) end; [lia|].
      split; [done|]. split; [lia|].
      eexists. split; [done|]. intros i Hi. assert (i = 0%nat) as -> by lia.
      rewrite Nat.add_0_r. by left.
    + destruct (IH w1) as (Hh2 & Hlen2 & tr2 & T2 & Hnext).
      { by rewrite Hh. } { by rewrite Hh. } { done. } { done. }
      { rewrite Hh. simpl. lia. } { rewrite Hh. simpl. lia. }
      rewrite Hh2, Hlen2, T2, T1, Hlen, Hh. simpl failures.
      replace (failures (priv (stateHandler w)) + 1 + Z.of_nat (length cs))
        with (failures (priv (stateHandler w)) + Z.succ (Z.of_nat (length cs))) by lia.
      split; [done|]. split; [lia|].
      exists (EvNext (length (responses w)) :: tr1 ++ tr2). split.
      * by rewrite <- app_assoc.
      * intros [|i] Hi.
        -- rewrite Nat.add_0_r. by left.
        -- right. apply in_or_app. right.
           replace (length (responses w) + S i)%nat with (length (responses w1) + i)%nat by lia.
           apply Hnext. lia.
Qed.

(** C2.  [handleFailure] has the handler increment the counter, at once, by
    one and once, and leaves the promise of the new count; nothing else of
    the handler object changes.  When the promise resolves, the breaker is
    forced OPEN exactly when that count has reached [maxFailures] or the
    state is HALF_OPEN; otherwise nothing happens.  Hence, from the state a
    configure leaves (CLOSED, counter zero), [maxFailures] (at least one)
    failures observed one after the other, each with its promise resolved
    before the next request arrives, leave the breaker OPEN; all these
    requests were handed to [next], and after any smaller number of them
    the breaker was still CLOSED. *)
Theorem handleFailure_trips_at_maxFailures self :
  (∀ w,
     let h := stateHandler w in
     let n := failures (priv h) + 1 in
     let w1 := exec (handleFailure self) w in
     stateHandler w1 = Obj (halfOpenCallPending h) (Data (state (priv h)) n) ∧
     promises w1 = promises w ++ [Build_Promise self n] ∧
     ∀ w2,
       let h2 := stateHandler w2 in
       let w3 := exec (thenCallback (Build_Promise self n)) w2 in
       (StateHandler.isHalfOpen h2 || (maxFailures self <=? n) = true →
          state (priv (stateHandler w3)) = OPEN) ∧
       (StateHandler.isHalfOpen h2 || (maxFailures self <=? n) = false →
          w3 = w2)) ∧
  (∀ (cs : list completion) w,
     stateHandler w = RedisStateHandler.initial →
     promises w = [] →
     Forall isFailure cs →
     1 ≤ maxFailures self →
     Z.of_nat (length cs) = maxFailures self →
     let w' := exec (requests self cs) w in
     state (priv (stateHandler w')) = OPEN ∧
     (∀ i, (i < length cs)%nat → In (EvNext (length (responses w) + i)) (trace w')) ∧
     (∀ k, (k < length cs)%nat →
        state (priv (stateHandler (exec (requests self (take k cs)) w))) = CLOSED)).
Proof.
  split.
  { intros w. cbv zeta. destruct (handleFailure_increments self w) as (Hh & P & _).
    split; [done|]. split; [done|]. intros w2. apply thenCallback_forces_open. }
  intros cs w Hinit Hps Hall Hpos Hlen. cbv zeta.
  destruct (requests_failures self cs w) as (Hh & _ & tr & T & Hnext);
    try done; try (rewrite Hinit; simpl; done || lia).
  rewrite Hinit in Hh. simpl in Hh. rewrite Hh, T. simpl.
  split; [|split].
  - match goal with |- context [?a <? ?b] => destruct (Z.ltb_spec a b) end; [lia|done].
  - intros i Hi. apply in_or_app. right. by apply Hnext.
  - intros k Hk.
    destruct (requests_failures self (take k cs) w) as (Hh' & _);
      try done; try (rewrite Hinit; simpl; done || lia).
    { by apply Forall_take. }
    { rewrite Hinit, length_take. simpl. lia. }
    rewrite Hh', Hinit, length_take. simpl.
    match goal with |- context [?a <? ?b] => destruct (Z.ltb_spec a b) end; [done|lia].
Qed.

(** *** The probe *)

Lemma handleSuccess_redis w :
  let h := stateHandler w in
  let w' := exec handleSuccess w in
  stateHandler w' = successOutcome h ∧
  timers w' = timers w ∧
  trace w' = trace w ++ EvCall mHandleSuccess
               :: match state (priv h) with
                  | CLOSED => []
                  | _ => [EvEmit "close"]
                  end.
Proof.
  destruct w as [[p [[] k]] ts fs rs tr];
    unfold exec, handleSuccess, forceClosed, bind, log, modify, callHandler, successOutcome;
    simpl; rewrite <- ?app_assoc; done.
Qed.

Lemma handleFailure_half_open self w :
  state (priv (stateHandler w)) = HALF_OPEN →
  promises w = [] →
  let w' := exec (handleFailure self ;; resolve) w in
  stateHandler w' = Obj false (Data OPEN (failures (priv (stateHandler w)) + 1)) ∧
  promises w' = [] ∧
  timers w' = timers w ++ [Build_Timer (cbForceHalfOpen self) (resetTimeout self) Pending] ∧
  trace w' = trace w ++ [EvCall mHandleFailure; EvEmit "open"].
Proof.
  destruct w as [[p [s k]] ts ps fs rs tr]. simpl. intros -> ->.
  unfold exec, handleFailure, resolve, thenCallback, forceOpen, bind, log, modify, callHandler,
    isHalfOpen, readHandler.
  simpl. rewrite <- app_assoc. done.
Qed.

(** C7.  [handleSuccess] leaves the breaker CLOSED with the failure counter
    at zero, and from HALF_OPEN (or OPEN) with the pending flag cleared;
    [close] is emitted when the state was not CLOSED and not when it was.
    [handleFailure] in HALF_OPEN, once its promise has resolved, leaves the
    breaker OPEN and a timer of [resetTimeout] milliseconds armed; when that
    timer fires the breaker is HALF_OPEN again, with no call pending.  For
    the probe (the request that arrives in HALF_OPEN with no call pending):
    it is handed to [next]; a completion with a status below 500 leaves the
    breaker CLOSED, counter zero, nothing pending; a failure leaves it
    OPEN. *)
Theorem probe_closes_or_reopens self w :
  let h := stateHandler w in
  (let w' := exec handleSuccess w in
   state (priv (stateHandler w')) = CLOSED ∧
   failures (priv (stateHandler w')) = 0 ∧
   (state (priv h) ≠ CLOSED →
      halfOpenCallPending (stateHandler w') = false ∧
      trace w' = trace w ++ [EvCall mHandleSuccess; EvEmit "close"]) ∧
   (state (priv h) = CLOSED →
      trace w' = trace w ++ [EvCall mHandleSuccess])) ∧
  (state (priv h) = HALF_OPEN → promises w = [] →
   let w' := exec (handleFailure self ;; resolve) w in
   let tid := length (timers w) in
   state (priv (stateHandler w')) = OPEN ∧
   timers w' = timers w ++ [Build_Timer (cbForceHalfOpen self) (resetTimeout self) Pending] ∧
   trace w' = trace w ++ [EvCall mHandleFailure; EvEmit "open"] ∧
   let w'' := exec (fireTimer tid) w' in
   state (priv (stateHandler w'')) = HALF_OPEN ∧
   halfOpenCallPending (stateHandler w'') = false ∧
   trace w'' = trace w' ++ [EvEmit "halfOpen"]) ∧
  (state (priv h) = HALF_OPEN → halfOpenCallPending h = false → promises w = [] →
   ∀ c : completion,
     let w' := exec (request self c) w in
     In (EvNext (length (responses w))) (trace w') ∧
     match c with
     | Completes code _ =>
         if 500 <=? code
         then state (priv (stateHandler w')) = OPEN
         else stateHandler w' = Obj false (Data CLOSED 0)
     | TimesOut => state (priv (stateHandler w')) = OPEN
     end).
Proof.
  intros h. split; [|split].
  - destruct (handleSuccess_redis w) as (Hh & _ & T). cbv zeta. fold h in Hh, T.
    rewrite Hh, T, successOutcome_redis. repeat split.
    + by destruct (state (priv h)).
    + by destruct (state (priv h)).
    + by destruct (state (priv h)).
    + by destruct (state (priv h)).
    + by intros ->.
  - intros Hst Hps. destruct (handleFailure_half_open self w Hst Hps) as (Hh & P & S & T).
    cbv zeta. rewrite Hh, S, T. split; [done|]. split; [done|]. split; [done|].
    set (w' := exec (handleFailure self ;; resolve) w) in *. clearbody w'.
    erewrite fireTimer_Pending by (rewrite S; by apply list_lookup_middle).
    unfold runCallback, forceHalfOpen, exec, bind, callHandler. simpl. rewrite Hh. simpl.
    by rewrite T.
  - intros Hst Hp Hps c.
    destruct (request_admitted self c w) as (Hh & _ & _ & tr & ts & T & _).
    { fold h. by rewrite rejecting_redis, Hst. }
    { done. }
    cbv zeta. fold h in Hh. rewrite Hh, T, admitted_redis, Hst. split.
    + apply in_or_app. right. by left.
    + destruct c as [code body|].
      * destruct (500 <=? code).
        -- rewrite failureOutcome_redis. simpl. by rewrite Hst.
        -- rewrite successOutcome_redis. simpl. by rewrite Hst.
      * rewrite failureOutcome_redis. simpl. by rewrite Hst.
Qed.

End OnRedisState.



(** Three failures in a row against [maxFailures = 3]: a 500, a timeout
    and a 503.  And the callback of a promise that resolves with 3 while
    the breaker is CLOSED, or with 1. *)
Lemma handleFailure_trips_at_maxFailures_witness :
  RedisStateHandler.state
    (StateHandler.priv
       (CircuitBreaker.stateHandler
          (CircuitBreaker.exec
             (CircuitBreaker.requests Examples.options
                [CircuitBreaker.Completes 500 "error"; CircuitBreaker.TimesOut;
                 CircuitBreaker.Completes 503 "busy"])
             Examples.configured))) = CircuitBreaker.OPEN ∧
  RedisStateHandler.state
    (StateHandler.priv
       (CircuitBreaker.stateHandler
          (CircuitBreaker.exec
             (CircuitBreaker.thenCallback (CircuitBreaker.Build_Promise Examples.options 3))
             Examples.configured))) = CircuitBreaker.OPEN ∧
  CircuitBreaker.exec
    (CircuitBreaker.thenCallback (CircuitBreaker.Build_Promise Examples.options 1))
    Examples.configured = Examples.configured.
Proof.
  split; [|split].
  - refine (proj1 (proj2 (handleFailure_trips_at_maxFailures Examples.options)
      [CircuitBreaker.Completes 500 "error"; CircuitBreaker.TimesOut;
       CircuitBreaker.Completes 503 "busy"] Examples.configured eq_refl eq_refl _ _ eq_refl)).
    + repeat constructor; simpl; lia.
    + simpl. lia.
  - pose proof (proj1 (handleFailure_trips_at_maxFailures Examples.options)
      (CircuitBreaker.World
         (StateHandler.Obj false (RedisStateHandler.Data CircuitBreaker.CLOSED 2)) [] [] [] [] []))
      as (_ & _ & Hthen).
    exact (proj1 (Hthen Examples.configured) eq_refl).
  - pose proof (proj1 (handleFailure_trips_at_maxFailures Examples.options) Examples.configured)
      as (_ & _ & Hthen).
    exact (proj2 (Hthen Examples.configured) eq_refl).
Defined.

(** The probe of the sample HALF_OPEN breaker completes with status 200;
    [handleSuccess] and [handleFailure] on the same breaker. *)
Lemma probe_closes_or_reopens_witness :
  CircuitBreaker.stateHandler
    (CircuitBreaker.exec
       (CircuitBreaker.request Examples.options (CircuitBreaker.Completes 200 "ok"))
       Examples.arrivedHalfOpen)
  = StateHandler.Obj false (RedisStateHandler.Data CircuitBreaker.CLOSED 0) ∧
  CircuitBreaker.trace (CircuitBreaker.exec CircuitBreaker.handleSuccess Examples.arrivedHalfOpen)
  = [CircuitBreaker.EvCall CircuitBreaker.mHandleSuccess; CircuitBreaker.EvEmit "close"] ∧
  CircuitBreaker.trace (CircuitBreaker.exec CircuitBreaker.handleSuccess Examples.arrived)
  = [CircuitBreaker.EvCall CircuitBreaker.mHandleSuccess] ∧
  RedisStateHandler.state
    (StateHandler.priv
       (CircuitBreaker.stateHandler
          (CircuitBreaker.exec
             (CircuitBreaker.bind (CircuitBreaker.handleFailure Examples.options)
                (λ _, CircuitBreaker.resolve))
             Examples.arrivedHalfOpen))) = CircuitBreaker.OPEN.
Proof.
  split; [|split; [|split]].
  - exact (proj2 (proj2 (proj2 (probe_closes_or_reopens Examples.options Examples.arrivedHalfOpen))
      eq_refl eq_refl eq_refl (CircuitBreaker.Completes 200 "ok"))).
  - refine (proj2 (proj1 (proj2 (proj2 (proj1
      (probe_closes_or_reopens Examples.options Examples.arrivedHalfOpen)))) _)).
    discriminate.
  - exact (proj2 (proj2 (proj2 (proj1
      (probe_closes_or_reopens Examples.options Examples.arrived)))) eq_refl).
  - exact (proj1 (proj1 (proj2 (probe_closes_or_reopens Examples.options Examples.arrivedHalfOpen))
      eq_refl eq_refl)).
Defined.

(** ** Group gates *)

Section GroupGate.
Import CircuitBreaker.
Context {St : Type} `{!StateHandler.methods St}.
Context {Strategy Req Err W RequestLog Stats Handler : Type}.
Variable isDebugEnabled : bool.
Variable isRequestLogEnabled : ApiConfig.t → bool.
Variable getRequestLog : Req → W → option RequestLog.
Variable setAuthentication : RequestLog → string → W → W.
Variable groupsJSON : option (list Group.t) → list string → string.
Variable buildGroupAllowFilter : option (list Group.t) → list string → Req → bool.
Variable statsConfig : bool.
Variable createStats : string → Stats.
Variable getStatsKey : string → string → string → string.
Variable middlewarePath : string.
Variable join : list string → string.
Variable require : string → Result Handler.

Local Abbreviation configureCircuitBreakerEventListeners :=
  (ApiCircuitBreaker.configureCircuitBreakerEventListeners statsConfig createStats getStatsKey
     middlewarePath join require).
Local Abbreviation configureBreakers :=
  (ApiCircuitBreaker.configureBreakers (St := St) isDebugEnabled groupsJSON
     buildGroupAllowFilter statsConfig createStats getStatsKey middlewarePath join require).

(** The [BreakerInfo] the loop makes of a config. *)
Local Abbreviation infoOf api cbConfig :=
  (BreakerInfo.Build
     {| timeout := or_default (ApiCircuitBreaker.timeout cbConfig) 30000;
        resetTimeout := or_default (ApiCircuitBreaker.resetTimeout cbConfig) 120000;
        maxFailures := or_default (ApiCircuitBreaker.maxFailures cbConfig) 10 |}
     (buildGroupAllowFilter (ApiConfig.group api) <$> ApiCircuitBreaker.group cbConfig)).

(** One turn of the loop. *)
Lemma configureBreakers_cons (api : ApiConfig.t) (cbConfig : CircuitBreakerConfig.value)
    (rest : list CircuitBreakerConfig.value) (w : world St) :
  snd (fst (configureBreakers api (cbConfig :: rest) w)) =
    match configureCircuitBreakerEventListeners [] (ApiConfig.proxy_path api) cbConfig with
    | Throw e => Throw e
    | Return emitter =>
        match snd (fst (configureBreakers api rest (exec constructor w))) with
        | Return breakerInfos =>
            Return (ApiCircuitBreaker.Build_Breaker (infoOf api cbConfig) emitter :: breakerInfos)
        | Throw e => Throw e
        end
    end.
Proof.
  cbn [ApiCircuitBreaker.configureBreakers]. unfold bind, exec.
  destruct (constructor w) as [[] w1]. simpl.
  destruct (configureCircuitBreakerEventListeners [] (ApiConfig.proxy_path api) cbConfig);
    [|done].
  destruct (ApiCircuitBreaker.group cbConfig) as [names|]; simpl;
    by destruct (configureBreakers api rest w1) as [[logs []] w2].
Qed.

(** When the loop ends without an exception, it has made one [BreakerInfo]
    per config, in order, and the subscribing has thrown for none. *)
Lemma configureBreakers_Return (api : ApiConfig.t)
    (sortedBreakers : list CircuitBreakerConfig.value) :
  ∀ (w : world St) breakerInfos,
    snd (fst (configureBreakers api sortedBreakers w)) = Return breakerInfos →
    ApiCircuitBreaker.breakerInfo <$> breakerInfos = (λ cbConfig, infoOf api cbConfig) <$> sortedBreakers ∧
    Forall (λ cbConfig, ∃ emitter,
      configureCircuitBreakerEventListeners [] (ApiConfig.proxy_path api) cbConfig = Return emitter)
      sortedBreakers.
Proof.
  induction sortedBreakers as [|cbConfig rest IH]; intros w breakerInfos.
  - simpl. intros [= <-]. by split.
  - rewrite configureBreakers_cons.
    destruct (configureCircuitBreakerEventListeners [] (ApiConfig.proxy_path api) cbConfig)
      as [emitter|e] eqn:Hcfg; [|done].
    destruct (snd (fst (configureBreakers api rest (exec constructor w))))
      as [infos|e] eqn:Hrest; [|done].
    intros [= <-]. destruct (IH _ _ Hrest) as [Hinfos Hall]. split.
    + rewrite !fmap_cons, Hinfos. done.
    + constructor; [by exists emitter|done].
Qed.

(** C8.  A breaker stage with a group filter runs the breaker's handler
    when the filter accepts the request; when it rejects, the stage does
    nothing but call [next]: the handler object, the timers, the
    activations and the responses are as before, whatever the breaker's
    state.  An authentication stage with a group filter runs the
    authenticator (with the callback that marks the request log, if the
    request log is enabled) when the filter accepts; when it rejects, it
    calls [next()] on the state it was given, whatever the authenticator
    is.  The stage [createAuthenticatorForGroup] mounts is this handler for
    the filter compiled from the entry's group names, and the breaker
    stages the loop of [circuitBreaker] collects carry the filters compiled
    from their configs' group names. *)
Theorem group_filter_gates_stage :
  (∀ (cb : Options) (groupValidator : Req → bool) (req : Req) (rid : nat) (w : world St),
     let stage := ApiCircuitBreaker.buildMiddleware (BreakerInfo.Build cb (Some groupValidator)) in
     (groupValidator req = true → stage req rid w = middleware cb rid w) ∧
     (groupValidator req = false →
        stage req rid w = (tt, with_trace (trace w ++ [EvNext rid]) w))) ∧
  (∀ (api : ApiConfig.t) (f : Req → bool) (authenticator : ApiAuth.RequestHandler Req Err W)
     (req : Req) (next : option Err → W → W) (w : W),
     let stage := ApiAuth.groupAuthenticatorHandler isRequestLogEnabled getRequestLog
                    setAuthentication api f in
     (f req = true →
        stage authenticator req next w =
          authenticator req
            (if isRequestLogEnabled api
             then ApiAuth.markRequestLog getRequestLog setAuthentication req next
             else next) w) ∧
     (f req = false →
        stage authenticator req next w = next None w ∧
        ∀ other : ApiAuth.RequestHandler Req Err W,
          stage other req next w = stage authenticator req next w)) ∧
  (∀ (api : ApiConfig.t) (names : list string) (authenticator : ApiAuth.RequestHandler Req Err W)
     (c : ApiAuth.Configured (Strategy := Strategy)),
     ApiAuth.router
       (ApiAuth.createAuthenticatorForGroup isDebugEnabled isRequestLogEnabled getRequestLog
          setAuthentication groupsJSON buildGroupAllowFilter api names authenticator c) =
     ApiAuth.router c ++
       [ApiAuth.groupAuthenticatorHandler isRequestLogEnabled getRequestLog setAuthentication
          api (buildGroupAllowFilter (ApiConfig.group api) names) authenticator]) ∧
  (∀ (api : ApiConfig.t) (sortedBreakers : list CircuitBreakerConfig.value) (w : world St)
     (breakerInfos : list ApiCircuitBreaker.Breaker),
     snd (fst (configureBreakers api sortedBreakers w)) = Return breakerInfos →
     (λ breaker, BreakerInfo.groupValidator (ApiCircuitBreaker.breakerInfo breaker))
       <$> breakerInfos =
     (λ cbConfig, buildGroupAllowFilter (ApiConfig.group api) <$> ApiCircuitBreaker.group cbConfig)
       <$> sortedBreakers).
Proof.
  split; [|split; [|split]].
  - intros cb gv req rid w stage. unfold stage, ApiCircuitBreaker.buildMiddleware. simpl.
    by split; intros ->.
  - intros api f authenticator req next w stage.
    unfold stage, ApiAuth.groupAuthenticatorHandler.
    split; intros Hf.
    + destruct (isRequestLogEnabled api); by rewrite Hf.
    + destruct (isRequestLogEnabled api); by rewrite Hf.
  - intros api names authenticator c. unfold ApiAuth.createAuthenticatorForGroup.
    by destruct isDebugEnabled.
  - intros api sortedBreakers w breakerInfos Hret.
    destruct (configureBreakers_Return api sortedBreakers w breakerInfos Hret) as [Hinfos _].
    apply (f_equal (fmap BreakerInfo.groupValidator)) in Hinfos.
    rewrite <- !list_fmap_compose in Hinfos. exact Hinfos.
Qed.

End GroupGate.

(** With the filter of the sample environment (requests under [/admin]):
    a request elsewhere passes an OPEN breaker's stage untouched, and a
    request under [/admin] is rejected by it; an authentication stage lets
    the first pass unauthenticated and authenticates the second. *)
Lemma group_filter_gates_stage_witness :
  ApiCircuitBreaker.buildMiddleware
    (BreakerInfo.Build Examples.options (Some (Examples.buildGroupAllowFilter None ["admins"])))
    "/users/1" 0%nat Examples.arrivedOpen
  = (tt, CircuitBreaker.with_trace [CircuitBreaker.EvNext 0] Examples.arrivedOpen) ∧
  ApiCircuitBreaker.buildMiddleware
    (BreakerInfo.Build Examples.options (Some (Examples.buildGroupAllowFilter None ["admins"])))
    "/admin/1" 0%nat Examples.arrivedOpen
  = CircuitBreaker.middleware Examples.options 0 Examples.arrivedOpen ∧
  ApiAuth.groupAuthenticatorHandler (λ _, false) (λ _ _, None) (λ (_ : unit) _ w, w)
    (Examples.api [] []) (Examples.buildGroupAllowFilter None ["admins"])
    (Examples.authenticate "api_0") "/users/1" (λ _ w, w) [] = [] ∧
  ApiAuth.groupAuthenticatorHandler (λ _, false) (λ _ _, None) (λ (_ : unit) _ w, w)
    (Examples.api [] []) (Examples.buildGroupAllowFilter None ["admins"])
    (Examples.authenticate "api_0") "/admin/1" (λ _ w, w) [] = ["api_0"].
Proof.
  pose proof (group_filter_gates_stage (St := RedisStateHandler.data) (Strategy := string)
    (Err := string) (W := list string) false (λ _, false) (λ _ _, None) (λ (_ : unit) _ w, w)
    Examples.groupsJSON Examples.buildGroupAllowFilter false Examples.createStats
    Examples.getStatsKey "/middleware" Examples.join Examples.require) as (Hbreaker & Hauth & _).
  pose proof (Hbreaker Examples.options (Examples.buildGroupAllowFilter None ["admins"]))
    as Hgate.
  pose proof (Hauth (Examples.api [] []) (Examples.buildGroupAllowFilter None ["admins"])
    (Examples.authenticate "api_0")) as Hgate'.
  split; [|split; [|split]].
  - exact (proj2 (Hgate "/users/1" 0%nat Examples.arrivedOpen) eq_refl).
  - exact (proj1 (Hgate "/admin/1" 0%nat Examples.arrivedOpen) eq_refl).
  - exact (proj1 (proj2 (Hgate' "/users/1" (λ _ w, w) []) eq_refl)).
  - exact (proj1 (Hgate' "/admin/1" (λ _ w, w) []) eq_refl).
Defined.

(** ** References to pipeline-level authentication entries *)

Section References.
Import ApiAuth.
Context {Strategy Req Err W RequestLog : Type}.
Variable loadMiddleware : string → option MiddlewareConfig.t → Result (option Strategy).
Variable getId : option MiddlewareConfig.t → string.
Variable isDebugEnabled : bool.
Variable isRequestLogEnabled : ApiConfig.t → bool.
Variable getRequestLog : Req → W → option RequestLog.
Variable setAuthentication : RequestLog → string → W → W.
Variable authenticate : string → RequestHandler Req Err W.
Variable groupsJSON : option (list Group.t) → list string → string.
Variable buildGroupAllowFilter : option (list Group.t) → list string → Req → bool.

Local Abbreviation configureEntry :=
  (configureEntry loadMiddleware getId isDebugEnabled isRequestLogEnabled getRequestLog
     setAuthentication authenticate groupsJSON buildGroupAllowFilter).
Local Abbreviation configureEntries :=
  (configureEntries loadMiddleware getId isDebugEnabled isRequestLogEnabled getRequestLog
     setAuthentication authenticate groupsJSON buildGroupAllowFilter).

Lemma configureEntries_app (apiKey : string) (api : ApiConfig.t)
    (pipelineConfig : ApiPipelineConfig.t) (before after : list ApiAuthenticationConfig.t) :
  ∀ (index : nat) (c : Configured),
    configureEntries apiKey api pipelineConfig index (before ++ after) c =
      configureEntries apiKey api pipelineConfig (index + length before) after
        (configureEntries apiKey api pipelineConfig index before c).
Proof.
  induction before as [|a before IH]; intros index c; simpl.
  - by rewrite Nat.add_0_r.
  - rewrite IH. f_equal. lia.
Qed.





End References.



(** ** The scenarios of the design document *)

Section Scenarios.
Import CircuitBreaker.
Import StateHandler(Obj).
Import RedisStateHandler(Data).

(** Breaker trip: with [maxFailures = 3], three requests that complete with
    status 500 open the breaker; the fourth request gets 503 and is not
    handed on; when the reset timer (the fourth timer armed) fires the
    breaker is HALF_OPEN; the next request is the probe, a second request
    that arrives before the probe has completed gets 503, and the probe's
    status 200 closes the breaker. *)
Example scenario_breaker_trip :
  let self := Examples.options in
  let w3 := exec (requests self [Completes 500 "e"; Completes 500 "e"; Completes 500 "e"])
              Examples.configured in
  let w4 := exec (rid <- newResponse ;; middleware self rid) w3 in
  let w5 := exec (fireTimer 3) w4 in
  let w6 := exec (probe <- newResponse ;;
                  middleware self probe ;;
                  second <- newResponse ;;
                  middleware self second ;;
                  downstream probe 200 "ok") w5 in
  stateHandler w3 = Obj false (Data OPEN 3) ∧
  trace w4 = trace w3 ++ [EvSent 3 503 "CircuitBreaker open"; EvEmit "rejected"] ∧
  stateHandler w5 = Obj false (Data HALF_OPEN 3) ∧
  stateHandler w6 = Obj false (Data CLOSED 0) ∧
  trace w6 = trace w5 ++ [EvNext 4; EvSent 5 503 "CircuitBreaker open"; EvEmit "rejected";
                          EvCall mHandleSuccess; EvEmit "close"; EvSent 4 200 "ok"].
Proof. vm_compute. repeat split; reflexivity. Qed.

(** Breaker timeout: the upstream does not answer before the timer of 100
    milliseconds fires; the request gets 504, one failure is counted, and
    the answer that comes later is not counted. *)
Example scenario_breaker_timeout :
  let self := Examples.options in
  let w1 := exec (request self TimesOut) Examples.configured in
  let w2 := exec (downstream 0 200 "late") w1 in
  trace w1 = [EvNext 0; EvCall mHandleFailure; EvSent 0 504 "CircuitBreaker timeout"] ∧
  stateHandler w1 = Obj false (Data CLOSED 1) ∧
  stateHandler w2 = stateHandler w1 ∧
  trace w2 = trace w1 ++ [EvSent 0 200 "late"].
Proof. vm_compute. repeat split; reflexivity. Qed.

End Scenarios.

(** * Further properties of the code *)

(** ** Counting in lists that are updated in place *)

Section Counting.
Context {A : Type} (p : A → bool).

Lemma filter_length_app (l k : list A) :
  length (List.filter p (l ++ k)) = (length (List.filter p l) + length (List.filter p k))%nat.
Proof. by rewrite List.filter_app, length_app. Qed.

Lemma filter_length_insert (l : list A) (i : nat) (x y : A) :
  l !! i = Some x →
  (length (List.filter p (<[i := y]> l)) + (if p x then 1 else 0) =
   length (List.filter p l) + (if p y then 1 else 0))%nat.
Proof.
  intros E. rewrite insert_take_drop by (by eapply lookup_lt_Some).
  rewrite <- (take_drop_middle l i x E) at 3.
  rewrite !filter_length_app. simpl. destruct (p x), (p y); simpl; lia.
Qed.

Lemma alter_None (f : A → A) (l : list A) : ∀ i, l !! i = None → alter f i l = l.
Proof.
  induction l as [|x l IH]; intros [|i]; simpl; try done.
  intros E. f_equal. by apply IH.
Qed.

Lemma filter_length_alter (f : A → A) (l : list A) (i : nat) :
  (∀ x, p (f x) = p x) →
  length (List.filter p (alter f i l)) = length (List.filter p l).
Proof.
  intros Hf. destruct (l !! i) as [x|] eqn:E.
  - rewrite (alter_insert f l i x E).
    pose proof (filter_length_insert l i x (f x) E) as Hlen.
    rewrite Hf in Hlen. lia.
  - by rewrite alter_None.
Qed.

Lemma filter_all_false (l : list A) :
  Forall (λ x, p x = false) l → List.filter p l = [].
Proof.
  induction 1 as [|x l Hx _ IH]; simpl; [done|]. by rewrite Hx.
Qed.

End Counting.

(** ** What no run of the event loop does *)

Section Steps.
Import CircuitBreaker.
Import EventLoop.
Context {St : Type} `{!StateHandler.methods St}.
Implicit Types (w : world St) (self : Options) (rid cid tid : nat).

Lemma stepsTo_refl w : stepsTo w w.
Proof. exists []. rewrite app_nil_r. simpl. split; [done|]. split; [constructor|lia]. Qed.

Lemma stepsTo_trans w1 w2 w3 : stepsTo w1 w2 → stepsTo w2 w3 → stepsTo w1 w3.
Proof.
  intros (tr1 & T1 & E1 & N1) (tr2 & T2 & E2 & N2). exists (tr1 ++ tr2).
  rewrite T2, T1, <- app_assoc. split; [done|]. split; [by apply Forall_app|].
  rewrite N2, N1, filter_length_app. lia.
Qed.

(** A step that leaves the trace and the timers alone. *)
Lemma stepsTo_same w w' : trace w' = trace w → timers w' = timers w → stepsTo w w'.
Proof.
  intros T S. exists []. rewrite T, S, app_nil_r. simpl.
  split; [done|]. split; [constructor|lia].
Qed.

Lemma paired_ret {A} (a : A) : paired (St:=St) (ret a).
Proof. intros w. apply stepsTo_refl. Qed.

Lemma paired_bind {A B} (m : M St A) (k : A → M St B) :
  paired m → (∀ a, paired (k a)) → paired (St:=St) (bind m k).
Proof.
  intros Hm Hk w. rewrite exec_bind. eapply stepsTo_trans; [apply Hm|apply Hk].
Qed.

Lemma paired_readHandler {A} (f : StateHandler.obj St → A) : paired (St:=St) (readHandler f).
Proof. intros w. apply stepsTo_refl. Qed.

Lemma paired_callHandler {A} (f : StateHandler.obj St → A * StateHandler.obj St) :
  paired (callHandler f).
Proof.
  intros w. unfold exec, callHandler. destruct (f (stateHandler w)). by apply stepsTo_same.
Qed.

Lemma paired_modify (f : world St → world St) :
  (∀ w, trace (f w) = trace w ∧ timers (f w) = timers w) → paired (St:=St) (modify f).
Proof. intros Hf w. destruct (Hf w). by apply stepsTo_same. Qed.

Lemma paired_log (e : effect) : emitted e → is_open e = false → paired (St:=St) (log e).
Proof.
  intros He Ho w. exists [e]. simpl. rewrite Ho. simpl.
  split; [done|]. split; [by constructor|lia].
Qed.

Lemma paired_withResponse rid (k : Response → M St unit) :
  (∀ r, paired (k r)) → paired (St:=St) (withResponse rid k).
Proof.
  intros Hk w. unfold exec, withResponse.
  destruct (responses w !! rid); [apply Hk|apply stepsTo_refl].
Qed.

Lemma paired_withFrame cid (k : Frame → M St unit) :
  (∀ fr, paired (k fr)) → paired (St:=St) (withFrame cid k).
Proof.
  intros Hk w. unfold exec, withFrame.
  destruct (frames w !! cid); [apply Hk|apply stepsTo_refl].
Qed.

Lemma paired_clearTimeout tid : paired (St:=St) (clearTimeout tid).
Proof.
  intros w. exists []. simpl. rewrite app_nil_r. split; [done|]. split; [constructor|].
  rewrite filter_length_alter; [lia|].
  intros t. unfold clearTimer, is_resetTimer. by destruct (t_status t).
Qed.

Lemma paired_forceOpen self : paired (St:=St) (forceOpen self).
Proof.
  intros w. unfold forceOpen, exec, bind, callHandler.
  destruct (StateHandler.forceOpen (stateHandler w)) as [[] h']; simpl.
  - exists [EvEmit "open"]. simpl. split; [done|]. split.
    + constructor; [|constructor]. simpl. set_solver.
    + rewrite filter_length_app. done.
  - by apply stepsTo_same.
Qed.

Lemma paired_forceClosed : paired (St:=St) (@forceClosed St _).
Proof.
  apply paired_bind; [apply paired_callHandler|]. intros [].
  - apply paired_log; [simpl; set_solver|done].
  - apply paired_ret.
Qed.

Lemma paired_forceHalfOpen : paired (St:=St) (@forceHalfOpen St _).
Proof.
  apply paired_bind; [apply paired_callHandler|]. intros [].
  - apply paired_log; [simpl; set_solver|done].
  - apply paired_ret.
Qed.

Lemma paired_handleSuccess : paired (St:=St) (@handleSuccess St _).
Proof.
  apply paired_bind; [by apply paired_log|]. intros _. apply paired_forceClosed.
Qed.

Lemma paired_handleFailure self : paired (St:=St) (handleFailure self).
Proof.
  apply paired_bind; [by apply paired_log|]. intros _.
  apply paired_bind; [apply paired_callHandler|]. intros n.
  by apply paired_modify.
Qed.

Lemma paired_thenCallback (p : Promise) : paired (St:=St) (thenCallback p).
Proof.
  apply paired_bind; [apply paired_readHandler|]. intros ho.
  destruct (ho || _); [apply paired_forceOpen|apply paired_ret].
Qed.

Lemma paired_observeEnd (fr : Frame) : paired (St:=St) (observeEnd fr).
Proof.
  unfold observeEnd. destruct (negb (operationTimeout fr)); [|apply paired_ret].
  apply paired_bind; [apply paired_clearTimeout|]. intros _.
  apply paired_withResponse. intros r. destruct (500 <=? statusCode r).
  - apply paired_bind; [by apply paired_modify|]. intros _. apply paired_handleFailure.
  - apply paired_handleSuccess.
Qed.

Lemma paired_applyEnd (f : endFn) : ∀ rid (body : string), paired (applyEnd f rid body).
Proof.
  induction f as [|cid end_ IH]; intros rid body; simpl.
  - apply paired_withResponse. intros r. by apply paired_log.
  - apply paired_withFrame. intros fr.
    apply paired_bind; [apply paired_observeEnd|]. intros _.
    apply paired_bind; [by apply paired_modify|]. intros _. apply IH.
Qed.

Lemma paired_res_end_call rid (body : string) : paired (St:=St) (res_end_call rid body).
Proof. apply paired_withResponse. intros r. apply paired_applyEnd. Qed.

Lemma paired_invokeApi self rid : paired (St:=St) (invokeApi self rid).
Proof.
  apply paired_bind; [intros w; apply stepsTo_refl|]. intros cid.
  apply paired_bind.
  { intros w. exists []. simpl. rewrite app_nil_r, filter_length_app. simpl.
    split; [done|]. split; [constructor|lia]. }
  intros tid. apply paired_bind; [by apply paired_modify|]. intros _.
  apply paired_bind.
  { apply paired_withResponse. intros r. by apply paired_modify. }
  intros _. by apply paired_log.
Qed.

Lemma paired_middleware self rid : paired (St:=St) (middleware self rid).
Proof.
  apply paired_bind.
  { apply paired_bind; [apply paired_readHandler|]. intros o.
    apply paired_bind; [apply paired_readHandler|]. intros ho.
    apply paired_bind; [apply paired_readHandler|]. intros pending. apply paired_ret. }
  intros [].
  - apply paired_bind; [by apply paired_modify|]. intros _.
    apply paired_bind; [apply paired_res_end_call|]. intros _.
    apply paired_log; [simpl; set_solver|done].
  - apply paired_bind.
    { apply paired_bind; [apply paired_readHandler|]. intros ho.
      apply paired_bind; [apply paired_readHandler|]. intros pending. apply paired_ret. }
    intros [].
    + apply paired_bind; [by apply paired_modify|]. intros _. apply paired_invokeApi.
    + apply paired_invokeApi.
Qed.

Lemma paired_fireTimer tid : paired (St:=St) (fireTimer tid).
Proof.
  intros w. unfold exec, fireTimer.
  destruct (timers w !! tid) as [t|] eqn:Htm; [|apply stepsTo_refl].
  destruct (t_status t); try apply stepsTo_refl.
  change (stepsTo w (exec
    (modify (λ w, with_timers
       (alter (λ t, Build_Timer (t_callback t) (t_delay t) Fired) tid (timers w)) w) ;;
     runCallback (t_callback t)) w)).
  apply paired_bind.
  { intros w1. exists []. simpl. rewrite app_nil_r. split; [done|]. split; [constructor|].
    rewrite filter_length_alter; [lia|]. by intros t'. }
  intros _. destruct (t_callback t) as [self|cid]; simpl.
  - apply paired_forceHalfOpen.
  - apply paired_withFrame. intros fr.
    apply paired_bind; [by apply paired_modify|]. intros _.
    apply paired_bind; [apply paired_handleFailure|]. intros _.
    apply paired_bind; [by apply paired_modify|]. intros _.
    apply paired_res_end_call.
Qed.

Lemma paired_resolve : paired (St:=St) (@resolve St _).
Proof.
  intros w. unfold exec, resolve. destruct (promises w) as [|p ps]; [apply stepsTo_refl|].
  eapply stepsTo_trans; [|apply paired_thenCallback]. by apply stepsTo_same.
Qed.

Lemma paired_perform (a : action) : paired (St:=St) (perform a).
Proof.
  destruct a as [self|rid code body| tid|]; simpl.
  - apply paired_bind.
    { intros w. by apply stepsTo_same. }
    intros rid. apply paired_middleware.
  - apply paired_bind; [by apply paired_modify|]. intros _. apply paired_res_end_call.
  - apply paired_fireTimer.
  - apply paired_resolve.
Qed.

Lemma paired_run (actions : list action) : paired (St:=St) (run actions).
Proof.
  induction actions as [|a rest IH]; simpl; [apply paired_ret|].
  apply paired_bind; [apply paired_perform|]. by intros _.
Qed.

(** X1.  Over every run of the event loop, from every world: the timer
    table gains exactly as many reset timers (the timers whose callback is
    [forceHalfOpen]) as the event [open] is emitted.  The breaker never
    announces [open] without arming the timer that will take it to
    HALF_OPEN, and never arms that timer silently. *)
Theorem open_event_arms_reset_timer (actions : list action) (w : world St) :
  let w' := exec (run actions) w in
  (length (List.filter is_resetTimer (timers w')) + length (List.filter is_open (trace w)) =
   length (List.filter is_resetTimer (timers w)) + length (List.filter is_open (trace w')))%nat.
Proof.
  destruct (paired_run actions w) as (tr & T & _ & N). cbv zeta.
  rewrite N, T, filter_length_app. lia.
Qed.

(** X2.  Over every run of the event loop, the only events emitted are
    [open], [close], [halfOpen] and [rejected]: none of the events whose
    [emit] is commented out in the source ([request], [success],
    [failure], [timeout]) is ever emitted. *)
Theorem only_four_events_emitted (actions : list action) (w : world St) :
  let w' := exec (run actions) w in
  ∃ tr, trace w' = trace w ++ tr ∧
        ∀ name, In (EvEmit name) tr → name ∈ ["open"; "close"; "halfOpen"; "rejected"].
Proof.
  destruct (paired_run actions w) as (tr & T & E & _). cbv zeta.
  exists tr. split; [done|]. intros name Hin.
  rewrite Forall_forall in E. exact (E (EvEmit name) (proj2 (list_elem_of_In _ _) Hin)).
Qed.

End Steps.

(** ** Arrivals *)

Section Arrivals.
Import CircuitBreaker.
Import EventLoop.
Context {St : Type} `{!StateHandler.methods St}.
Implicit Types (w : world St) (self : Options) (rid cid tid : nat).

Lemma insert_last {A} (l : list A) (x y : A) : <[length l := y]> (l ++ [x]) = l ++ [y].
Proof. by rewrite insert_app_r_alt, Nat.sub_diag. Qed.

(** A request that arrives while the breaker rejects. *)
Lemma arrive_rejected self w :
  let h := stateHandler w in
  StateHandler.isOpen h || (StateHandler.isHalfOpen h && StateHandler.halfOpenCallPending h) = true →
  exec (arrive self) w =
    with_trace (trace w ++ [EvSent (length (responses w)) 503 "CircuitBreaker open";
                            EvEmit "rejected"])
      (with_responses (responses w ++ [Build_Response 503 originalEnd]) w).
Proof.
  intros h Hrej. unfold arrive. rewrite exec_bind. simpl fst. simpl snd.
  rewrite middleware_cases. cbv zeta. simpl stateHandler. fold h. rewrite Hrej.
  unfold fastFail. rewrite !exec_seq.
  erewrite res_status_Some by (simpl; apply list_lookup_middle; done).
  simpl res_end. unfold res_end_call.
  erewrite exec_withResponse_Some by (simpl; rewrite insert_last; apply list_lookup_middle; done).
  simpl applyEnd.
  erewrite exec_withResponse_Some by (simpl; rewrite insert_last; apply list_lookup_middle; done).
  unfold exec, emit, log, modify. simpl. rewrite insert_last, <- app_assoc. done.
Qed.

(** A request that arrives while the breaker admits. *)
Lemma arrive_admitted self w :
  let h := stateHandler w in
  StateHandler.isOpen h || (StateHandler.isHalfOpen h && StateHandler.halfOpenCallPending h) = false →
  let w' := exec (arrive self) w in
  let rid := length (responses w) in
  let cid := length (frames w) in
  let tid := length (timers w) in
  timers w' = timers w ++ [Build_Timer (cbOperationTimeout cid) (timeout self) Pending] ∧
  frames w' = frames w ++ [Build_Frame self rid false tid] ∧
  responses w' = responses w ++ [Build_Response 200 (patchedEnd cid originalEnd)] ∧
  stateHandler w' = admitted h ∧
  promises w' = promises w ∧
  trace w' = trace w ++ [EvNext rid].
Proof.
  intros h Hrej. cbv zeta. unfold arrive. rewrite exec_bind. simpl fst. simpl snd.
  rewrite middleware_admits by done. simpl stateHandler. fold h.
  set (w0 := with_stateHandler (admitted h) _).
  destruct (invokeApi_inFlight self (length (responses w)) 200 w0)
    as (_ & S1 & F1 & R1 & H1 & P1 & T1).
  { unfold w0. simpl. by apply list_lookup_middle. }
  rewrite S1, F1, R1, H1, P1, T1. unfold w0. simpl. by rewrite insert_last.
Qed.

(** Requests that arrive while the breaker rejects. *)
Lemma run_rejected (selfs : list Options) : ∀ w,
  StateHandler.isOpen (stateHandler w)
  || (StateHandler.isHalfOpen (stateHandler w) && StateHandler.halfOpenCallPending (stateHandler w))
  = true →
  exec (run (Arrive <$> selfs)) w =
    with_trace
      (trace w ++ flat_map (λ rid, [EvSent rid 503 "CircuitBreaker open"; EvEmit "rejected"])
                    (seq (length (responses w)) (length selfs)))
      (with_responses (responses w ++ replicate (length selfs) (Build_Response 503 originalEnd)) w).
Proof.
  induction selfs as [|self selfs IH]; intros w Hrej.
  - simpl. change (exec (ret ()) w) with w. rewrite !app_nil_r. by destruct w.
  - rewrite fmap_cons. simpl run. rewrite exec_seq. simpl perform.
    rewrite (arrive_rejected self w Hrej), IH by done.
    simpl. rewrite length_app, <- !app_assoc. simpl.
    replace (length (responses w) + 1)%nat with (S (length (responses w))) by lia.
    done.
Qed.

(** X3.  While the breaker rejects (OPEN, or HALF_OPEN with a call
    pending), requests that arrive, however many and for whichever breaker
    of the state handler, are all answered 503 [CircuitBreaker open] with a
    [rejected] event each, none is handed to [next], and they leave nothing
    behind: the handler object, the timers, the activations and the
    promises are as before, and each response keeps its own [end]. *)
Theorem rejected_arrivals_leave_nothing (selfs : list Options) : ∀ w,
  let h := stateHandler w in
  StateHandler.isOpen h || (StateHandler.isHalfOpen h && StateHandler.halfOpenCallPending h) = true →
  let w' := exec (run (Arrive <$> selfs)) w in
  stateHandler w' = h ∧
  timers w' = timers w ∧
  frames w' = frames w ∧
  promises w' = promises w ∧
  responses w' = responses w ++ replicate (length selfs) (Build_Response 503 originalEnd) ∧
  trace w' = trace w ++
    flat_map (λ rid, [EvSent rid 503 "CircuitBreaker open"; EvEmit "rejected"])
      (seq (length (responses w)) (length selfs)).
Proof.
  intros w h Hrej. cbv zeta. rewrite (run_rejected selfs w Hrej). simpl. by repeat split.
Qed.

(** X22.  One probe.  With a state handler whose [isOpen] and [isHalfOpen]
    do not depend on [halfOpenCallPending]: when requests arrive in
    HALF_OPEN with no call pending, the first one is handed to [next],
    with the flag set and one timer armed for it, and all the others, as
    long as nothing else happens, are answered 503 [CircuitBreaker open]:
    a single request probes the upstream. *)
Theorem single_probe_in_half_open self (selfs : list Options) (w : world St) :
  (∀ h b, StateHandler.isOpen (StateHandler.set_halfOpenCallPending b h) = StateHandler.isOpen h) →
  (∀ h b, StateHandler.isHalfOpen (StateHandler.set_halfOpenCallPending b h)
          = StateHandler.isHalfOpen h) →
  StateHandler.isOpen (stateHandler w) = false →
  StateHandler.isHalfOpen (stateHandler w) = true →
  StateHandler.halfOpenCallPending (stateHandler w) = false →
  let w' := exec (run (Arrive self :: (Arrive <$> selfs))) w in
  let probe := length (responses w) in
  stateHandler w' = StateHandler.set_halfOpenCallPending true (stateHandler w) ∧
  timers w' =
    timers w ++ [Build_Timer (cbOperationTimeout (length (frames w))) (timeout self) Pending] ∧
  frames w' = frames w ++ [Build_Frame self probe false (length (timers w))] ∧
  trace w' = trace w ++ EvNext probe ::
    flat_map (λ rid, [EvSent rid 503 "CircuitBreaker open"; EvEmit "rejected"])
      (seq (S probe) (length selfs)).
Proof.
  intros Hopen Hhalf Ho Hho Hp. cbv zeta. simpl run. rewrite exec_seq. simpl perform.
  destruct (arrive_admitted self w) as (Htm & F & R & Hh & P & T).
  { by rewrite Ho, Hho, Hp. }
  unfold admitted in Hh. rewrite Hho, Hp in Hh. simpl in Hh.
  set (w1 := exec (arrive self) w) in *. clearbody w1.
  rewrite run_rejected.
  2:{ rewrite Hh, Hopen, Hhalf, Ho, Hho. done. }
  simpl. rewrite Hh, Htm, F, T, R, length_app, <- app_assoc. simpl.
  replace (length (responses w) + 1)%nat with (S (length (responses w))) by lia.
  done.
Qed.

End Arrivals.

(** Two requests arrive at the sample breaker while it is OPEN (the sample
    world holds one response already). *)
Lemma rejected_arrivals_leave_nothing_witness :
  CircuitBreaker.trace
    (CircuitBreaker.exec
       (EventLoop.run [EventLoop.Arrive Examples.options; EventLoop.Arrive Examples.options])
       Examples.arrivedOpen)
  = [CircuitBreaker.EvSent 1 503 "CircuitBreaker open"; CircuitBreaker.EvEmit "rejected";
     CircuitBreaker.EvSent 2 503 "CircuitBreaker open"; CircuitBreaker.EvEmit "rejected"].
Proof.
  exact (proj2 (proj2 (proj2 (proj2 (proj2
    (@rejected_arrivals_leave_nothing _ RedisStateHandler.methods
       [Examples.options; Examples.options] Examples.arrivedOpen eq_refl)))))).
Defined.

(** Three requests arrive at the sample breaker in HALF_OPEN (the sample
    world holds one response already). *)
Lemma single_probe_in_half_open_witness :
  CircuitBreaker.trace
    (CircuitBreaker.exec
       (EventLoop.run [EventLoop.Arrive Examples.options; EventLoop.Arrive Examples.options;
                       EventLoop.Arrive Examples.options])
       Examples.arrivedHalfOpen)
  = [CircuitBreaker.EvNext 1;
     CircuitBreaker.EvSent 2 503 "CircuitBreaker open"; CircuitBreaker.EvEmit "rejected";
     CircuitBreaker.EvSent 3 503 "CircuitBreaker open"; CircuitBreaker.EvEmit "rejected"].
Proof.
  exact (proj2 (proj2 (proj2
    (@single_probe_in_half_open _ RedisStateHandler.methods Examples.options
       [Examples.options; Examples.options] Examples.arrivedHalfOpen
       (λ _ _, eq_refl) (λ _ _, eq_refl) eq_refl eq_refl eq_refl)))).
Defined.

(** ** Functions stacked on [res.end] *)

Section Stacked.
Import CircuitBreaker.
Import EventLoop.
Context {St : Type} `{!StateHandler.methods St}.
Implicit Types (w : world St) (self : Options) (rid cid tid : nat).

Lemma is_emit_not_call (tr : list effect) : Forall is_emit tr → List.filter is_call tr = [].
Proof.
  intros Hall. apply filter_all_false. eapply Forall_impl; [done|]. by intros [].
Qed.

(** The function of an activation whose timer has not fired enters exactly
    one of [handleSuccess] and [handleFailure], by the status code. *)
Lemma observeEnd_live (fr : Frame) (code : Z) (f : endFn) w :
  operationTimeout fr = false →
  responses w !! f_res fr = Some (Build_Response code f) →
  let w' := exec (observeEnd fr) w in
  frames w' = frames w ∧ responses w' = responses w ∧
  ∃ tr, trace w' = trace w ++ EvCall (if 500 <=? code then mHandleFailure else mHandleSuccess) :: tr
        ∧ Forall is_emit tr.
Proof.
  intros Hlive Hres. unfold observeEnd. rewrite Hlive. simpl negb. cbv iota zeta.
  rewrite exec_seq. set (w1 := exec (clearTimeout (timeoutID fr)) w).
  assert (responses w1 !! f_res fr = Some (Build_Response code f)) as Hres1 by done.
  rewrite (exec_withResponse_Some _ _ _ _ Hres1). simpl statusCode.
  destruct (500 <=? code).
  - rewrite exec_seq, handleFailure_exec. simpl.
    split; [done|]. split; [done|]. by exists [].
  - destruct (handleSuccess_step w1) as (tr & (F & R & P & T & Htm) & Hemit).
    rewrite F, R, T. split; [done|]. split; [done|]. by exists tr.
Qed.

Lemma applyEnd_stacked (f : endFn) : ∀ w rid (body : string) (code : Z),
  responses w !! rid = Some (Build_Response code f) →
  wf_end (frames w) rid f →
  let w' := exec (applyEnd f rid body) w in
  frames w' = frames w ∧
  responses w' = <[rid := Build_Response code originalEnd]> (responses w) ∧
  ∃ tr, trace w' = trace w ++ tr ++ [EvSent rid code body] ∧
        List.filter is_call tr =
          replicate (length (List.filter (live (frames w)) (activations f)))
            (EvCall (if 500 <=? code then mHandleFailure else mHandleSuccess)) ∧
        Forall internal tr.
Proof.
  induction f as [|cid end_ IH]; intros w rid body code Hres Hwf; simpl.
  - rewrite (exec_withResponse_Some _ _ _ _ Hres). simpl.
    split; [done|]. split; [by rewrite list_insert_id|].
    exists []. split; [done|]. split; [done|constructor].
  - destruct Hwf as [(fr & Hfr & <-) Hwf].
    rewrite (exec_withFrame_Some _ _ _ _ Hfr), exec_seq.
    assert (frames (exec (observeEnd fr) w) = frames w ∧
            responses (exec (observeEnd fr) w) = responses w ∧
            ∃ tr, trace (exec (observeEnd fr) w) = trace w ++ tr ∧
                  List.filter is_call tr =
                    (if live (frames w) cid
                     then [EvCall (if 500 <=? code then mHandleFailure else mHandleSuccess)]
                     else []) ∧
                  Forall internal tr) as (F1 & R1 & tr1 & T1 & C1 & I1).
    { unfold live. rewrite Hfr. destruct (operationTimeout fr) eqn:Hop; simpl.
      - unfold observeEnd. rewrite Hop. simpl.
        split; [done|]. split; [done|]. exists []. by rewrite app_nil_r.
      - destruct (observeEnd_live fr code _ w Hop Hres) as (F & R & tr & T & Hemit).
        split; [done|]. split; [done|]. eexists. split; [done|]. simpl.
        rewrite (is_emit_not_call tr Hemit). split; [done|].
        constructor; [done|]. by apply is_emit_internal. }
    set (w1 := exec (observeEnd fr) w) in *.
    rewrite exec_seq.
    set (w2 := exec (set_res_end (f_res fr) end_) w1).
    assert (responses w2 = <[f_res fr := Build_Response code end_]> (responses w)) as R2.
    { unfold w2. simpl. rewrite R1. by rewrite (alter_insert _ _ _ _ Hres). }
    assert (frames w2 = frames w) as F2 by (unfold w2; simpl; done).
    assert (trace w2 = trace w ++ tr1) as T2 by (unfold w2; simpl; done).
    destruct (IH w2 (f_res fr) body code) as (F3 & R3 & tr3 & T3 & C3 & I3).
    { rewrite R2. apply list_lookup_insert_eq. by eapply lookup_lt_Some. }
    { by rewrite F2. }
    split; [by rewrite F3|]. split.
    { rewrite R3, R2. by rewrite list_insert_insert_eq. }
    exists (tr1 ++ tr3). split; [|split].
    + rewrite T3, T2, <- !app_assoc. done.
    + rewrite List.filter_app, C1, C3, F2. by destruct (live (frames w) cid).
    + by apply Forall_app.
Qed.

(** X4.  A response on whose [end] the functions of several activations
    are stacked (breaker stages that admitted the same request) is ended:
    every activation whose timer has not fired enters exactly one of
    [handleSuccess] and [handleFailure], all of them the same one, by the
    status code; an activation whose timer has fired enters neither; what
    else precedes the response is events of the emitter; the response is
    written out once, and [res.end] is the response's own again. *)
Theorem stacked_ends_count_once_each (f : endFn) (rid : nat) (code : Z) (body : string)
    (w : world St) :
  responses w !! rid = Some (Build_Response code f) →
  wf_end (frames w) rid f →
  let w' := exec (res_end_call rid body) w in
  responses w' !! rid = Some (Build_Response code originalEnd) ∧
  ∃ tr, trace w' = trace w ++ tr ++ [EvSent rid code body] ∧
        List.filter is_call tr =
          replicate (length (List.filter (live (frames w)) (activations f)))
            (EvCall (if 500 <=? code then mHandleFailure else mHandleSuccess)) ∧
        Forall internal tr.
Proof.
  intros Hres Hwf. cbv zeta. unfold res_end_call.
  rewrite (exec_withResponse_Some _ _ _ _ Hres). simpl res_end.
  destruct (applyEnd_stacked f w rid body code Hres Hwf) as (_ & R & Htr).
  split; [|done]. rewrite R. apply list_lookup_insert_eq. by eapply lookup_lt_Some.
Qed.

(** The response of a request whose activation's function is not on
    [res.end] any more is ended: its own [end] is all that runs. *)
Lemma downstream_original rid (code0 code : Z) (body : string) w :
  responses w !! rid = Some (Build_Response code0 originalEnd) →
  exec (downstream rid code body) w =
    with_trace (trace w ++ [EvSent rid code body])
      (with_responses (<[rid := Build_Response code originalEnd]> (responses w)) w).
Proof.
  intros Hres.
  unfold downstream. rewrite exec_seq, (res_status_Some _ _ _ _ Hres). simpl res_end.
  unfold res_end_call.
  erewrite exec_withResponse_Some by lookup_written.
  simpl applyEnd.
  erewrite exec_withResponse_Some by lookup_written.
  done.
Qed.

(** X5.  The response of a request in flight is ended twice (the rest of
    the chain calls [res.end] again): the first call is counted, as one
    success or one failure, and the second one only writes: the handler
    object, the promises, the timers and the activations stay as the first
    call left them. *)
Theorem ending_twice_counts_once self rid cid tid (code code2 : Z) (body body2 : string)
    (w : world St) :
  inFlight self rid cid tid w →
  let w1 := exec (downstream rid code body) w in
  let w2 := exec (downstream rid code2 body2) w1 in
  stateHandler w2 = stateHandler w1 ∧
  promises w2 = promises w1 ∧
  timers w2 = timers w1 ∧
  frames w2 = frames w1 ∧
  trace w2 = trace w1 ++ [EvSent rid code2 body2] ∧
  length (List.filter is_call (trace w2)) = S (length (List.filter is_call (trace w))).
Proof.
  intros Hin. pose proof Hin as (Hfr & Htm & code0 & Hres). cbv zeta.
  assert (responses (exec (downstream rid code body) w) !! rid
            = Some (Build_Response code originalEnd) ∧
          length (List.filter is_call (trace (exec (downstream rid code body) w)))
            = S (length (List.filter is_call (trace w)))) as [Hres1 Hcalls].
  { destruct (Z.le_gt_cases 500 code) as [Hcode|Hcode].
    - destruct (downstream_inFlight_failure self rid cid tid code body w Hin Hcode)
        as (_ & R & _ & _ & T & _).
      rewrite R, T, filter_length_app. simpl. split; [lookup_written|lia].
    - destruct (downstream_inFlight_success self rid cid tid code body w Hin)
        as (_ & R & _ & _ & (tr & T & Hemit) & _); [lia|].
      rewrite R, T, filter_length_app. simpl.
      rewrite List.filter_app, (is_emit_not_call tr Hemit). simpl.
      split; [lookup_written|lia]. }
  rewrite (downstream_original rid code code2 body2 _ Hres1). simpl.
  rewrite filter_length_app. simpl. repeat split; try done. lia.
Qed.

(** X6.  What the breaker itself does to [halfOpenCallPending] when a
    request in flight ends.  On a timeout it does nothing to it: the
    handler object is what [incrementFailures] makes of the object as it
    was, so with a handler whose [incrementFailures] keeps the flag, the
    flag is as before.  On a completion with a status of 500 or more it
    clears the flag before it has the handler count, so with such a handler
    the flag is clear afterwards. *)
Theorem timeout_keeps_pending_flag self rid cid tid (w : world St) :
  (∀ h, StateHandler.halfOpenCallPending (snd (StateHandler.incrementFailures h))
        = StateHandler.halfOpenCallPending h) →
  inFlight self rid cid tid w →
  stateHandler (exec (fireTimer tid) w) = snd (StateHandler.incrementFailures (stateHandler w)) ∧
  StateHandler.halfOpenCallPending (stateHandler (exec (fireTimer tid) w))
    = StateHandler.halfOpenCallPending (stateHandler w) ∧
  ∀ (code : Z) (body : string), 500 ≤ code →
    StateHandler.halfOpenCallPending (stateHandler (exec (downstream rid code body) w)) = false.
Proof.
  intros Hkeep Hin.
  destruct (fireTimer_inFlight self rid cid tid w Hin) as (_ & _ & Hh & _).
  split; [done|]. split; [by rewrite Hh, Hkeep|].
  intros code body Hcode.
  destruct (downstream_inFlight_failure self rid cid tid code body w Hin Hcode)
    as (_ & _ & Hh' & _).
  by rewrite Hh', Hkeep.
Qed.

End Stacked.

(** The response two stages have admitted completes with status 200: both
    stages count a success. *)
Lemma stacked_ends_count_once_each_witness :
  ∃ tr,
    CircuitBreaker.trace
      (CircuitBreaker.exec (CircuitBreaker.res_end_call 0 "ok") Samples.stackedWorld)
    = CircuitBreaker.trace Samples.stackedWorld ++ tr ++ [CircuitBreaker.EvSent 0 200 "ok"] ∧
    List.filter EventLoop.is_call tr
    = [CircuitBreaker.EvCall CircuitBreaker.mHandleSuccess;
       CircuitBreaker.EvCall CircuitBreaker.mHandleSuccess].
Proof.
  destruct (@stacked_ends_count_once_each _ RedisStateHandler.methods
    (CircuitBreaker.patchedEnd 1 (CircuitBreaker.patchedEnd 0 CircuitBreaker.originalEnd))
    0 200 "ok" Samples.stackedWorld eq_refl
    (conj (ex_intro _ _ (conj eq_refl eq_refl))
       (conj (ex_intro _ _ (conj eq_refl eq_refl)) I)))
    as (_ & tr & T & C & _).
  exists tr. split; [exact T|exact C].
Defined.

(** The admitted request of the sample world is ended with status 500 and
    then again with status 200. *)
Lemma ending_twice_counts_once_witness :
  CircuitBreaker.trace
    (CircuitBreaker.exec (CircuitBreaker.downstream 0 200 "again")
       (CircuitBreaker.exec (CircuitBreaker.downstream 0 500 "error") Examples.admittedWorld))
  = [CircuitBreaker.EvNext 0; CircuitBreaker.EvCall CircuitBreaker.mHandleFailure;
     CircuitBreaker.EvSent 0 500 "error"; CircuitBreaker.EvSent 0 200 "again"].
Proof.
  exact (proj1 (proj2 (proj2 (proj2 (proj2
    (@ending_twice_counts_once _ RedisStateHandler.methods Examples.options 0 0 0 500 200
       "error" "again" Examples.admittedWorld
       (conj eq_refl (conj eq_refl (ex_intro _ 200 eq_refl))))))))).
Defined.

(** The probe of the sample HALF_OPEN breaker, admitted, times out: the
    flag its admission has set is still set. *)
Lemma timeout_keeps_pending_flag_witness :
  StateHandler.halfOpenCallPending
    (CircuitBreaker.stateHandler
       (CircuitBreaker.exec (CircuitBreaker.fireTimer 0)
          (CircuitBreaker.exec (CircuitBreaker.middleware Examples.options 0)
             Examples.arrivedHalfOpen)))
  = true.
Proof.
  refine (proj1 (proj2 (@timeout_keeps_pending_flag _ RedisStateHandler.methods Examples.options
    0 0 0 (CircuitBreaker.exec (CircuitBreaker.middleware Examples.options 0)
             Examples.arrivedHalfOpen)
    (λ _, eq_refl) _))).
  split; [reflexivity|]. split; [reflexivity|]. exists 200. reflexivity.
Defined.

(** ** Requests in flight, over runs of the event loop *)

Section Separate.
Import CircuitBreaker.
Import EventLoop.
Context {St : Type} `{!StateHandler.methods St}.
Implicit Types (w : world St) (self : Options) (rid cid tid : nat).

Lemma balanced_quiet w w' (tr : list effect) :
  trace w' = trace w ++ tr →
  List.filter is_call tr = [] → List.filter is_next tr = [] →
  length (List.filter is_pendingOperation (timers w')) =
    length (List.filter is_pendingOperation (timers w)) →
  balanced w w'.
Proof.
  intros T C N P. unfold balanced. rewrite T, P, !filter_length_app, C, N. simpl. lia.
Qed.

Lemma is_emit_not_next (tr : list effect) : Forall is_emit tr → List.filter is_next tr = [].
Proof.
  intros Hall. apply filter_all_false. eapply Forall_impl; [done|]. by intros [].
Qed.

(** A request in flight is known by its response, by its activation and by
    its timer. *)
Lemma inFlight_unique self1 self2 rid1 rid2 cid1 cid2 tid1 tid2 w :
  inFlight self1 rid1 cid1 tid1 w →
  inFlight self2 rid2 cid2 tid2 w →
  rid1 = rid2 ∨ cid1 = cid2 ∨ tid1 = tid2 →
  rid1 = rid2 ∧ cid1 = cid2 ∧ tid1 = tid2.
Proof.
  intros (F1 & S1 & c1 & R1) (F2 & S2 & c2 & R2) [->|[->| ->]].
  - rewrite R1 in R2. injection R2 as _ ->. rewrite F1 in F2. by injection F2 as _ ->.
  - rewrite F1 in F2. by injection F2 as _ -> ->.
  - rewrite S1 in S2. injection S2 as -> _. rewrite F1 in F2. by injection F2 as _ ->.
Qed.

Lemma inFlight_mono self rid cid tid w w' :
  inFlight self rid cid tid w →
  (∀ fr, frames w !! cid = Some fr → frames w' !! cid = Some fr) →
  (∀ t, timers w !! tid = Some t → timers w' !! tid = Some t) →
  (∀ r, responses w !! rid = Some r → responses w' !! rid = Some r) →
  inFlight self rid cid tid w'.
Proof.
  intros (F & S & c & R) HF HS HR. split; [by apply HF|]. split; [by apply HS|].
  exists c. by apply HR.
Qed.

(** A step that touches no request in flight: no wrapped response and no
    pending operation timer is changed, none is new, and the activations
    are as before. *)
Lemma separate_quiet w w' :
  separate w →
  frames w' = frames w →
  (∀ rid r, responses w !! rid = Some r → res_end r ≠ originalEnd → responses w' !! rid = Some r) →
  (∀ rid r, responses w' !! rid = Some r → res_end r = originalEnd ∨ responses w !! rid = Some r) →
  (∀ tid t, timers w !! tid = Some t → is_pendingOperation t = true → timers w' !! tid = Some t) →
  (∀ tid t, timers w' !! tid = Some t → is_pendingOperation t = true → timers w !! tid = Some t) →
  separate w'.
Proof.
  intros [Hr Ht] F R1 R2 S1 S2.
  assert (∀ self rid cid tid, inFlight self rid cid tid w → inFlight self rid cid tid w') as Hkeep.
  { intros self rid cid tid Hin. pose proof Hin as (HF & HS & c & HR).
    apply (inFlight_mono self rid cid tid w); [done|by rewrite F| |].
    - intros t E. rewrite HS in E. injection E as <-. by apply S1.
    - intros r E. rewrite HR in E. injection E as <-. by apply R1. }
  split.
  - intros rid r E. destruct (R2 rid r E) as [Ho|Eold]; [by left|].
    destruct (Hr rid r Eold) as [Ho|(self & cid & tid & He & Hin)]; [by left|].
    right. exists self, cid, tid. split; [done|]. by apply Hkeep.
  - intros tid cid ms E.
    destruct (Ht tid cid ms (S2 _ _ E eq_refl)) as (self & rid & Hin).
    exists self, rid. by apply Hkeep.
Qed.

(** A step that settles the request in flight on [rid0]: its response has
    its own [end] again and its timer is not pending any more; nothing
    else of the tables has changed but its activation. *)
Lemma separate_settled w w' self0 rid0 cid0 tid0 (code : Z) (t' : Timer) :
  separate w →
  inFlight self0 rid0 cid0 tid0 w →
  (∀ cid, cid ≠ cid0 → frames w' !! cid = frames w !! cid) →
  responses w' = <[rid0 := Build_Response code originalEnd]> (responses w) →
  timers w' = <[tid0 := t']> (timers w) →
  is_pendingOperation t' = false →
  separate w'.
Proof.
  intros [Hr Ht] Hin0 F R Htm Hnp. pose proof Hin0 as (F0 & S0 & c0 & R0).
  assert (∀ self rid cid tid, inFlight self rid cid tid w → rid ≠ rid0 →
            inFlight self rid cid tid w') as Hkeep.
  { intros self rid cid tid Hin Hne.
    assert (cid ≠ cid0 ∧ tid ≠ tid0) as [Hc Hti].
    { split; intros ->.
      - destruct (inFlight_unique _ _ _ _ _ _ _ _ w Hin Hin0) as (? & _); auto.
      - destruct (inFlight_unique _ _ _ _ _ _ _ _ w Hin Hin0) as (? & _); auto. }
    apply (inFlight_mono self rid cid tid w); [done| | |].
    - intros fr E. by rewrite F.
    - intros t E. by rewrite Htm, list_lookup_insert_ne.
    - intros r E. by rewrite R, list_lookup_insert_ne. }
  split.
  - intros rid r E. rewrite R in E. destruct (decide (rid = rid0)) as [->|Hne].
    + rewrite list_lookup_insert_eq in E by (by eapply lookup_lt_Some).
      injection E as <-. by left.
    + rewrite list_lookup_insert_ne in E by done.
      destruct (Hr rid r E) as [Ho|(self & cid & tid & He & Hin)]; [by left|].
      right. exists self, cid, tid. split; [done|]. by apply Hkeep.
  - intros tid cid ms E. rewrite Htm in E. destruct (decide (tid = tid0)) as [->|Hne].
    + rewrite list_lookup_insert_eq in E by (by eapply lookup_lt_Some).
      injection E as E. by rewrite E in Hnp.
    + rewrite list_lookup_insert_ne in E by done.
      destruct (Ht tid cid ms E) as (self & rid & Hin).
      exists self, rid. apply Hkeep; [done|]. intros ->.
      destruct (inFlight_unique _ _ _ _ _ _ _ _ w Hin Hin0) as (_ & _ & ?); auto.
Qed.

Lemma forceHalfOpen_step w :
  ∃ tr, handlerStep w (exec forceHalfOpen w) tr [] ∧ Forall is_emit tr.
Proof.
  unfold forceHalfOpen, exec, bind, callHandler, handlerStep.
  destruct (StateHandler.forceHalfOpen (stateHandler w)) as [[] h']; simpl.
  - exists [EvEmit "halfOpen"]. rewrite app_nil_r. repeat split; auto. repeat constructor.
  - exists []. rewrite !app_nil_r. repeat split; auto.
Qed.

(** The timers the callback of [handleFailure] arms are reset timers. *)
Lemma thenCallback_step_reset (p : Promise) w :
  ∃ tr ts, handlerStep w (exec (thenCallback p) w) tr ts ∧ Forall is_emit tr ∧
           Forall (λ t, is_pendingOperation t = false) ts.
Proof.
  unfold thenCallback. rewrite exec_bind. simpl.
  destruct (StateHandler.isHalfOpen (stateHandler w) || (maxFailures (p_self p) <=? p_numFailures p)).
  - unfold forceOpen, exec, bind, callHandler, handlerStep.
    destruct (StateHandler.forceOpen (stateHandler w)) as [[] h']; simpl.
    + exists [EvEmit "open"],
        [Build_Timer (cbForceHalfOpen (p_self p)) (resetTimeout (p_self p)) Pending].
      repeat split; auto; repeat constructor.
    + exists [], []. rewrite !app_nil_r. repeat split; auto.
  - exists [], []. split; [|by split]. unfold handlerStep, exec, ret. simpl.
    rewrite !app_nil_r. done.
Qed.

(** The downstream handler completes the response of a request in flight:
    what the two cases have in common. *)
Lemma downstream_inFlight self rid cid tid (code : Z) (body : string) w :
  inFlight self rid cid tid w →
  let w' := exec (downstream rid code body) w in
  frames w' = frames w ∧
  responses w' = <[rid := Build_Response code originalEnd]> (responses w) ∧
  timers w' = <[tid := Build_Timer (cbOperationTimeout cid) (timeout self) Cleared]> (timers w) ∧
  ∃ tr, trace w' = trace w ++ tr ∧
        length (List.filter is_call tr) = 1%nat ∧ List.filter is_next tr = [].
Proof.
  intros Hin. cbv zeta. destruct (Z.le_gt_cases 500 code) as [Hcode|Hcode].
  - destruct (downstream_inFlight_failure self rid cid tid code body w Hin Hcode)
      as (F & R & _ & _ & T & Htm).
    split; [done|]. split; [done|]. split; [done|]. by eexists.
  - destruct (downstream_inFlight_success self rid cid tid code body w Hin)
      as (F & R & _ & _ & (tr & T & Hemit) & Htm); [lia|].
    split; [done|]. split; [done|]. split; [done|]. eexists. split; [done|]. simpl.
    rewrite !List.filter_app, (is_emit_not_call tr Hemit), (is_emit_not_next tr Hemit). done.
Qed.

Lemma arrive_separate self w :
  separate w → separate (exec (arrive self) w) ∧ balanced w (exec (arrive self) w).
Proof.
  intros Hsep.
  destruct (StateHandler.isOpen (stateHandler w)
            || StateHandler.isHalfOpen (stateHandler w)
               && StateHandler.halfOpenCallPending (stateHandler w)) eqn:Hrej.
  - rewrite (arrive_rejected self w Hrej). split.
    + apply (separate_quiet w); simpl; try done.
      * intros rid r E _. by apply lookup_app_l_Some.
      * intros rid r E. apply lookup_app_Some in E as [E|[_ E]]; [by right|].
        left. destruct (rid - length (responses w))%nat; [|done]. by injection E as <-.
    + by apply (balanced_quiet _ _
        [EvSent (length (responses w)) 503 "CircuitBreaker open"; EvEmit "rejected"]).
  - destruct (arrive_admitted self w Hrej) as (Htm & F & R & _ & _ & T).
    set (w' := exec (arrive self) w) in *. clearbody w'.
    destruct Hsep as [Hr Ht].
    assert (∀ self' rid cid tid, inFlight self' rid cid tid w → inFlight self' rid cid tid w')
      as Hkeep.
    { intros self' rid cid tid Hin. apply (inFlight_mono self' rid cid tid w); [done| | |].
      - intros fr E. rewrite F. by apply lookup_app_l_Some.
      - intros t E. rewrite Htm. by apply lookup_app_l_Some.
      - intros r E. rewrite R. by apply lookup_app_l_Some. }
    assert (inFlight self (length (responses w)) (length (frames w)) (length (timers w)) w')
      as Hnew.
    { unfold inFlight. rewrite F, Htm, R. split; [by apply list_lookup_middle|].
      split; [by apply list_lookup_middle|]. exists 200. by apply list_lookup_middle. }
    split; [split|].
    + intros rid r E. rewrite R in E. apply lookup_app_Some in E as [E|[Hge E]].
      * destruct (Hr rid r E) as [Ho|(self' & cid & tid & He & Hin)]; [by left|].
        right. exists self', cid, tid. split; [done|]. by apply Hkeep.
      * right. destruct (rid - length (responses w))%nat eqn:Hd; [|done].
        injection E as <-. assert (rid = length (responses w)) as -> by lia.
        by exists self, (length (frames w)), (length (timers w)).
    + intros tid cid ms E. rewrite Htm in E. apply lookup_app_Some in E as [E|[Hge E]].
      * destruct (Ht tid cid ms E) as (self' & rid & Hin). exists self', rid. by apply Hkeep.
      * destruct (tid - length (timers w))%nat eqn:Hd; [|done].
        injection E as <- _. assert (tid = length (timers w)) as -> by lia.
        by exists self, (length (responses w)).
    + unfold balanced. rewrite T, Htm, !filter_length_app. simpl. lia.
Qed.

Lemma downstream_separate rid (code : Z) (body : string) w :
  separate w →
  separate (exec (downstream rid code body) w) ∧ balanced w (exec (downstream rid code body) w).
Proof.
  intros Hsep. pose proof Hsep as [Hr Ht].
  destruct (responses w !! rid) as [[code0 f]|] eqn:Hres.
  - destruct (Hr rid _ Hres) as [Ho|(self & cid & tid & He & Hin)]; simpl in *; subst f.
    + rewrite (downstream_original rid code0 code body w Hres). split.
      * apply (separate_quiet w); simpl; try done.
        -- intros rid' r E Hne. rewrite list_lookup_insert_ne; [done|]. intros ->.
           rewrite Hres in E. by injection E as <-.
        -- intros rid' r E. destruct (decide (rid = rid')) as [<-|Hne].
           ++ rewrite list_lookup_insert_eq in E by (by eapply lookup_lt_Some).
              injection E as <-. by left.
           ++ rewrite list_lookup_insert_ne in E by done. by right.
      * by apply (balanced_quiet _ _ [EvSent rid code body]).
    + destruct (downstream_inFlight self rid cid tid code body w Hin)
        as (F & R & Htm & tr & T & C & N).
      split.
      * eapply (separate_settled w _ self rid cid tid); try done. intros cid' _. by rewrite F.
      * pose proof Hin as (_ & Hs & _).
        pose proof (filter_length_insert is_pendingOperation (timers w) tid _
          (Build_Timer (cbOperationTimeout cid) (timeout self) Cleared) Hs) as Hlen.
        simpl in Hlen. unfold balanced. rewrite T, Htm, !filter_length_app, C, N. simpl. lia.
  - assert (exec (downstream rid code body) w =
            with_responses (alter (λ r, Build_Response code (res_end r)) rid (responses w)) w)
      as ->.
    { unfold downstream. rewrite exec_seq. unfold res_end_call.
      rewrite exec_withResponse_None; [done|]. simpl. by rewrite alter_None. }
    rewrite alter_None by done. split.
    + apply (separate_quiet w); simpl; try done. intros rid' r E. by right.
    + eapply (balanced_quiet _ _ []); simpl; try done. by rewrite app_nil_r.
Qed.

Lemma fireTimer_separate tid w :
  separate w →
  separate (exec (fireTimer tid) w) ∧ balanced w (exec (fireTimer tid) w).
Proof.
  intros Hsep. pose proof Hsep as [Hr Ht].
  assert (separate w ∧ balanced w w) as Hsame.
  { split; [done|]. eapply (balanced_quiet _ _ []); simpl; try done. by rewrite app_nil_r. }
  destruct (timers w !! tid) as [[cb ms st]|] eqn:Htm.
  2:{ unfold exec, fireTimer. by rewrite Htm. }
  destruct st.
  2,3: by rewrite (fireTimer_not_Pending tid w _ Htm).
  destruct cb as [self|cid].
  - rewrite (fireTimer_Pending tid w _ _ Htm). simpl runCallback.
    set (w1 := with_timers _ w).
    destruct (forceHalfOpen_step w1) as (tr & (F & R & P & T & S1) & Hemit).
    rewrite app_nil_r in S1. split.
    + apply (separate_quiet w); try done.
      * intros rid r E _. by rewrite R.
      * intros rid r E. rewrite R in E. by right.
      * intros tid' t E Hp. rewrite S1. simpl. rewrite list_lookup_insert_ne; [done|].
        intros ->. rewrite Htm in E. by injection E as <-.
      * intros tid' t E Hp. rewrite S1 in E. simpl in E.
        destruct (decide (tid = tid')) as [<-|Hne].
        -- rewrite list_lookup_insert_eq in E by (by eapply lookup_lt_Some).
           by injection E as <-.
        -- by rewrite list_lookup_insert_ne in E.
    + eapply (balanced_quiet _ _ tr); try done.
      * by apply is_emit_not_call.
      * by apply is_emit_not_next.
      * rewrite S1. simpl.
        pose proof (filter_length_insert is_pendingOperation (timers w) tid _
          (Build_Timer (cbForceHalfOpen self) ms Fired) Htm) as Hlen.
        simpl in Hlen. lia.
  - destruct (Ht tid cid ms Htm) as (self & rid & Hin).
    destruct (fireTimer_inFlight self rid cid tid w Hin) as (F & R & _ & _ & T & S1).
    split.
    + eapply (separate_settled w _ self rid cid tid); try done.
      intros cid' Hne. by rewrite F, list_lookup_insert_ne.
    + pose proof (filter_length_insert is_pendingOperation (timers w) tid _
        (Build_Timer (cbOperationTimeout cid) (timeout self) Fired) Htm) as Hlen.
      simpl in Hlen. unfold balanced. rewrite T, S1, !filter_length_app. simpl. lia.
Qed.

Lemma resolve_separate w :
  separate w → separate (exec resolve w) ∧ balanced w (exec resolve w).
Proof.
  intros Hsep. unfold exec, resolve. destruct (promises w) as [|p ps] eqn:Hps.
  { split; [done|]. eapply (balanced_quiet _ _ []); simpl; try done. by rewrite app_nil_r. }
  change (snd (thenCallback p (with_promises ps w)))
    with (exec (thenCallback p) (with_promises ps w)).
  destruct (thenCallback_step_reset p (with_promises ps w))
    as (tr & ts & (F & R & P & T & S1) & Hemit & Hreset).
  simpl in F, R, T, S1. split.
  - apply (separate_quiet w); try done.
    + intros rid r E _. by rewrite R.
    + intros rid r E. rewrite R in E. by right.
    + intros tid t E _. rewrite S1. by apply lookup_app_l_Some.
    + intros tid t E Hp. rewrite S1 in E. apply lookup_app_Some in E as [E|[_ E]]; [done|].
      rewrite Forall_lookup in Hreset. rewrite (Hreset _ _ E) in Hp. done.
  - eapply (balanced_quiet _ _ tr); try done.
    + by apply is_emit_not_call.
    + by apply is_emit_not_next.
    + rewrite S1, filter_length_app, (filter_all_false _ ts Hreset). simpl. lia.
Qed.

Lemma balanced_trans w1 w2 w3 : balanced w1 w2 → balanced w2 w3 → balanced w1 w3.
Proof. unfold balanced. lia. Qed.

Lemma run_separate (actions : list action) : ∀ w,
  separate w → separate (exec (run actions) w) ∧ balanced w (exec (run actions) w).
Proof.
  induction actions as [|a rest IH]; intros w Hsep; simpl.
  - change (exec (ret ()) w) with w. split; [done|]. unfold balanced. lia.
  - rewrite exec_seq.
    assert (separate (exec (perform a) w) ∧ balanced w (exec (perform a) w)) as [Hsep1 Hbal1].
    { destruct a as [self|rid code body|tid|]; simpl.
      - by apply arrive_separate.
      - by apply downstream_separate.
      - by apply fireTimer_separate.
      - by apply resolve_separate. }
    destruct (IH _ Hsep1) as [Hsep2 Hbal2]. split; [done|]. by eapply balanced_trans.
Qed.

(** X7.  Over every run of the event loop (requests arrive, each on a
    response of its own, at breakers of the state handler; responses are
    completed, also more than once or never; timers come due in any order;
    promises resolve), from a world in which every wrapped response belongs
    to a request in flight: the entries into [handleSuccess] and
    [handleFailure], together with the requests still in flight, grow by
    exactly the number of requests handed to [next].  So every admitted
    request is counted once when it is settled, by its completion or by its
    timeout, and never twice; from a world with no request yet, the
    outcomes recorded never exceed the requests admitted. *)
Theorem admitted_requests_count_once (actions : list action) (w : world St) :
  separate w →
  let w' := exec (run actions) w in
  separate w' ∧
  (length (List.filter is_call (trace w')) + length (List.filter is_pendingOperation (timers w'))
     + length (List.filter is_next (trace w)) =
   length (List.filter is_call (trace w)) + length (List.filter is_pendingOperation (timers w))
     + length (List.filter is_next (trace w')))%nat.
Proof. intros Hsep. by apply run_separate. Qed.

End Separate.

(** From the world a configure leaves: a request arrives, its timer fires,
    its response is completed late, and the promise resolves. *)
Lemma admitted_requests_count_once_witness :
  (length (List.filter EventLoop.is_call
     (CircuitBreaker.trace
        (CircuitBreaker.exec
           (EventLoop.run [EventLoop.Arrive Examples.options; EventLoop.Fire 0;
                           EventLoop.Complete 0 200 "late"; EventLoop.Resolve])
           Examples.configured)))
   + length (List.filter EventLoop.is_pendingOperation
       (CircuitBreaker.timers
          (CircuitBreaker.exec
             (EventLoop.run [EventLoop.Arrive Examples.options; EventLoop.Fire 0;
                             EventLoop.Complete 0 200 "late"; EventLoop.Resolve])
             Examples.configured)))
   + 0
   = 0 + 0
     + length (List.filter EventLoop.is_next
         (CircuitBreaker.trace
            (CircuitBreaker.exec
               (EventLoop.run [EventLoop.Arrive Examples.options; EventLoop.Fire 0;
                               EventLoop.Complete 0 200 "late"; EventLoop.Resolve])
               Examples.configured))))%nat.
Proof.
  refine (proj2 (@admitted_requests_count_once _ RedisStateHandler.methods
    [EventLoop.Arrive Examples.options; EventLoop.Fire 0;
     EventLoop.Complete 0 200 "late"; EventLoop.Resolve] Examples.configured _)).
  split.
  - intros rid r E. discriminate E.
  - intros tid cid ms E. discriminate E.
Defined.

(** ** Bursts and interrupted runs of failures, on the shared state of the design document *)

Section Bursts.
Import CircuitBreaker.
Import StateHandler(Obj, halfOpenCallPending, priv).
Import RedisStateHandler(data, Data, state, failures).
Implicit Types (w : world data) (self : Options) (rid cid tid : nat) (h : StateHandler.obj data).

(** While the breaker is OPEN, the callback of [handleFailure] changes
    nothing. *)
Lemma thenCallback_open (p : Promise) w :
  state (priv (stateHandler w)) = OPEN → exec (thenCallback p) w = w.
Proof.
  destruct w as [[pend [s k]] ts ps fs rs tr]. simpl. intros ->.
  unfold exec, thenCallback, forceOpen, bind, isHalfOpen, readHandler, callHandler. simpl.
  by destruct (maxFailures (p_self p) <=? p_numFailures p).
Qed.

Lemma thenCallbacks_open (ps : list Promise) : ∀ w,
  state (priv (stateHandler w)) = OPEN → exec (thenCallbacks ps) w = w.
Proof.
  induction ps as [|p ps IH]; intros w Hst; simpl; [done|].
  rewrite exec_seq, (thenCallback_open p w Hst). by apply IH.
Qed.

(** The callback either changes nothing or opens the breaker. *)
Lemma thenCallback_redis (p : Promise) w :
  exec (thenCallback p) w = w ∨
  (state (priv (stateHandler (exec (thenCallback p) w))) = OPEN ∧
   failures (priv (stateHandler (exec (thenCallback p) w))) = failures (priv (stateHandler w)) ∧
   promises (exec (thenCallback p) w) = promises w ∧
   trace (exec (thenCallback p) w) = trace w ++ [EvEmit "open"] ∧
   timers (exec (thenCallback p) w) =
     timers w ++ [Build_Timer (cbForceHalfOpen (p_self p)) (resetTimeout (p_self p)) Pending]).
Proof.
  destruct w as [[pend [s k]] ts ps fs rs tr].
  unfold exec, thenCallback, forceOpen, bind, isHalfOpen, readHandler, callHandler. simpl.
  destruct s; simpl.
  - left. by destruct (maxFailures (p_self p) <=? p_numFailures p).
  - destruct (maxFailures (p_self p) <=? p_numFailures p); simpl; [by right|by left].
  - by right.
Qed.

Lemma thenCallbacks_redis (ps : list Promise) : ∀ w,
  let w' := exec (thenCallbacks ps) w in
  w' = w ∨
  ∃ self, In self (p_self <$> ps) ∧
    state (priv (stateHandler w')) = OPEN ∧
    failures (priv (stateHandler w')) = failures (priv (stateHandler w)) ∧
    promises w' = promises w ∧
    trace w' = trace w ++ [EvEmit "open"] ∧
    timers w' = timers w ++ [Build_Timer (cbForceHalfOpen self) (resetTimeout self) Pending].
Proof.
  induction ps as [|p ps IH]; intros w; cbv zeta; simpl; [by left|].
  rewrite exec_seq. destruct (thenCallback_redis p w) as [->|(Hst & Hk & P & T & Htm)].
  - destruct (IH w) as [->|(self & Hin & Hrest)]; [by left|].
    right. exists self. split; [by right|done].
  - right. exists (p_self p). split; [by left|].
    by rewrite (thenCallbacks_open ps _ Hst).
Qed.

(** X8.  On the state handler of the design document.  However many
    failures are reported back at once (the promises of [handleFailure]
    that resolve), the breaker opens at most once: either nothing changes,
    or [open] is emitted once and one reset timer is armed, for the breaker
    of one of the promises, and the breaker is OPEN; the failure counter is
    not touched, and no promise is left.  While the breaker is OPEN
    already, nothing changes. *)
Theorem burst_of_failures_opens_once (w : world data) :
  let w' := exec settle w in
  promises w' = [] ∧
  failures (priv (stateHandler w')) = failures (priv (stateHandler w)) ∧
  (state (priv (stateHandler w)) = OPEN → w' = with_promises [] w) ∧
  (w' = with_promises [] w ∨
   ∃ self, In self (p_self <$> promises w) ∧
     state (priv (stateHandler w')) = OPEN ∧
     trace w' = trace w ++ [EvEmit "open"] ∧
     timers w' = timers w ++ [Build_Timer (cbForceHalfOpen self) (resetTimeout self) Pending]).
Proof.
  cbv zeta.
  assert (exec settle w = exec (thenCallbacks (promises w)) (with_promises [] w)) as -> by done.
  destruct (thenCallbacks_redis (promises w) (with_promises [] w))
    as [->|(self & Hin & Hst & Hk & P & T & Htm)].
  - split; [done|]. split; [done|]. split; [done|]. by left.
  - split; [by rewrite P|]. split; [by rewrite Hk|]. split.
    + intros Hopen. by apply thenCallbacks_open.
    + right. by exists self.
Qed.

Lemma requests_app self (cs1 cs2 : list completion) : ∀ w,
  exec (requests self (cs1 ++ cs2)) w = exec (requests self cs2) (exec (requests self cs1) w).
Proof.
  induction cs1 as [|c cs1 IH]; intros w; simpl; [done|].
  by rewrite !exec_seq, IH.
Qed.

(** Failures one after the other from CLOSED that stay below [maxFailures]
    leave the breaker CLOSED, with the counter advanced and no promise
    pending. *)
Lemma requests_failures_below self (cs : list completion) : ∀ w,
  state (priv (stateHandler w)) = CLOSED →
  halfOpenCallPending (stateHandler w) = false →
  promises w = [] →
  Forall isFailure cs →
  failures (priv (stateHandler w)) + Z.of_nat (length cs) < maxFailures self →
  let w' := exec (requests self cs) w in
  stateHandler w' = Obj false (Data CLOSED (failures (priv (stateHandler w)) + Z.of_nat (length cs))) ∧
  promises w' = [].
Proof.
  induction cs as [|c cs IH]; intros w Hst Hp Hps Hall Hlt; cbv zeta.
  - simpl. change (exec (ret ()) w) with w. rewrite Z.add_0_r. split; [|done].
    destruct (stateHandler w) as [p [s k]]. simpl in *. by subst.
  - apply Forall_cons in Hall as [Hc Hall].
    simpl requests. rewrite exec_seq.
    destruct (request_failure_closed self c w Hst Hp Hps Hc) as (Hh & Hps1 & _).
    set (w1 := exec (request self c) w) in *. clearbody w1.
    rewrite failureOutcome_redis, Hst, Hp in Hh. cbv zeta in Hh.
    rewrite length_cons, Nat2Z.inj_succ in *.
    destruct (Z.leb_spec (maxFailures self) (failures (priv (stateHandler w)) + 1)) as [Hmax|Hmax];
      [lia|].
    destruct (IH w1) as (Hh2 & Hps2).
    { by rewrite Hh. } { by rewrite Hh. } { done. } { done. }
    { rewrite Hh. simpl. lia. }
    rewrite Hh2, Hps2, Hh. simpl. split; [|done]. do 2 f_equal. lia.
Qed.

(** X9.  On the state handler of the design document.  Failures are
    counted in a row: from the state a configure leaves, fewer than
    [maxFailures] failures, then one response with a status below 500, then
    again fewer than [maxFailures] failures leave the breaker CLOSED, and
    the counter holds the failures behind the success only. *)
Theorem success_resets_failure_count self (before after : list completion)
    (code : Z) (body : string) (w : world data) :
  stateHandler w = RedisStateHandler.initial →
  promises w = [] →
  Forall isFailure before →
  Forall isFailure after →
  Z.of_nat (length before) < maxFailures self →
  Z.of_nat (length after) < maxFailures self →
  code < 500 →
  let w' := exec (requests self (before ++ Completes code body :: after)) w in
  stateHandler w' = Obj false (Data CLOSED (Z.of_nat (length after))).
Proof.
  intros Hinit Hps Hbefore Hafter Hlt1 Hlt2 Hcode. cbv zeta.
  rewrite requests_app.
  destruct (requests_failures_below self before w) as (Hh1 & Hps1);
    try done; try (rewrite Hinit; simpl; done || lia).
  set (w1 := exec (requests self before) w) in *. clearbody w1.
  rewrite Hinit in Hh1. simpl in Hh1.
  simpl requests. rewrite exec_seq.
  destruct (request_admitted self (Completes code body) w1) as (Hh2 & Hps2 & _).
  { by rewrite rejecting_redis, Hh1. }
  { done. }
  set (w2 := exec (request self (Completes code body)) w1) in *. clearbody w2.
  destruct (Z.leb_spec 500 code); [lia|].
  rewrite successOutcome_redis, admitted_redis, Hh1 in Hh2. simpl in Hh2.
  destruct (requests_failures_below self after w2) as (Hh3 & _);
    try done; try (rewrite Hh2; simpl; done || lia).
  rewrite Hh3, Hh2. done.
Qed.

End Bursts.

(** Against [maxFailures = 3]: two failures, a response with status 200,
    and two failures again. *)
Lemma success_resets_failure_count_witness :
  CircuitBreaker.stateHandler
    (CircuitBreaker.exec
       (CircuitBreaker.requests Examples.options
          ([CircuitBreaker.Completes 500 "error"; CircuitBreaker.TimesOut]
           ++ CircuitBreaker.Completes 200 "ok"
              :: [CircuitBreaker.TimesOut; CircuitBreaker.Completes 502 "bad gateway"]))
       Examples.configured)
  = StateHandler.Obj false (RedisStateHandler.Data CircuitBreaker.CLOSED 2).
Proof.
  refine (success_resets_failure_count Examples.options
    [CircuitBreaker.Completes 500 "error"; CircuitBreaker.TimesOut]
    [CircuitBreaker.TimesOut; CircuitBreaker.Completes 502 "bad gateway"]
    200 "ok" Examples.configured eq_refl eq_refl _ _ _ _ _).
  - repeat constructor; simpl; lia.
  - repeat constructor; simpl; lia.
  - simpl. lia.
  - simpl. lia.
  - lia.
Defined.

(** ** A response that succeeds after the breaker has opened *)

Section LateSuccess.
Import CircuitBreaker.
Context {St : Type} `{!StateHandler.methods St}.
Implicit Types (w : world St) (self : Options) (rid cid tid : nat).

Lemma handleSuccess_exec w :
  exec handleSuccess w =
    let r := StateHandler.forceClose (stateHandler w) in
    with_trace (trace w ++ EvCall mHandleSuccess :: (if fst r then [EvEmit "close"] else []))
      (with_stateHandler (snd r) w).
Proof.
  unfold handleSuccess, forceClosed, exec, bind, callHandler, log, emit, modify. simpl.
  destruct (StateHandler.forceClose (stateHandler w)) as [[] h2]; simpl;
    rewrite <- ?app_assoc; done.
Qed.

(** The downstream handler completes the response of a request in flight
    with a status below 500: the events [forceClosed] emits. *)
Lemma downstream_inFlight_closes self rid cid tid (code : Z) (body : string) w :
  inFlight self rid cid tid w →
  code < 500 →
  let w' := exec (downstream rid code body) w in
  let r := StateHandler.forceClose (stateHandler w) in
  stateHandler w' = snd r ∧
  trace w' = trace w ++ EvCall mHandleSuccess
               :: (if fst r then [EvEmit "close"] else []) ++ [EvSent rid code body] ∧
  timers w' = <[tid := Build_Timer (cbOperationTimeout cid) (timeout self) Cleared]> (timers w).
Proof.
  intros (Hfr & Htm & code0 & Hres) Hcode. simpl.
  unfold downstream. rewrite exec_seq, (res_status_Some _ _ _ _ Hres). simpl res_end.
  unfold res_end_call.
  erewrite exec_withResponse_Some by lookup_written.
  simpl applyEnd.
  erewrite exec_withFrame_Some by lookup_written.
  rewrite !exec_seq. unfold observeEnd. simpl operationTimeout. simpl negb. cbv iota.
  rewrite exec_seq. simpl timeoutID. simpl f_res. simpl f_self.
  erewrite clearTimeout_Pending by lookup_written.
  erewrite (exec_withResponse_Some _ (λ r, if 500 <=? statusCode r then _ else _))
    by lookup_written.
  simpl statusCode.
  destruct (Z.leb_spec 500 code); [lia|].
  rewrite handleSuccess_exec. cbv zeta.
  erewrite set_res_end_Some by lookup_written.
  erewrite exec_withResponse_Some by lookup_written.
  simpl. rewrite <- !app_assoc. done.
Qed.

End LateSuccess.

Section LateSuccessRedis.
Import CircuitBreaker.
Import StateHandler(Obj, halfOpenCallPending, priv).
Import RedisStateHandler(data, Data, state, failures).
Implicit Types (w : world data) (self : Options) (rid cid tid : nat).

(** X23.  On the shared state of the design document: a request that was
    admitted before the breaker opened and completes with a status below
    500 while the breaker is OPEN closes it at once: [handleSuccess] asks
    for no state, the failure count is back at 0 and [close] is emitted.
    The reset timer armed at the opening is not cancelled: when it fires,
    it takes the breaker, now CLOSED, to HALF_OPEN. *)
Theorem late_success_closes_open_breaker self rid cid tid (code : Z) (body : string) w :
  inFlight self rid cid tid w →
  state (priv (stateHandler w)) = OPEN →
  code < 500 →
  let w' := exec (downstream rid code body) w in
  stateHandler w' = Obj false (Data CLOSED 0) ∧
  trace w' = trace w ++ [EvCall mHandleSuccess; EvEmit "close"; EvSent rid code body] ∧
  ∀ (t : nat) self' (ms : Z),
    timers w !! t = Some (Build_Timer (cbForceHalfOpen self') ms Pending) →
    let w'' := exec (fireTimer t) w' in
    stateHandler w'' = Obj false (Data HALF_OPEN 0) ∧
    trace w'' = trace w' ++ [EvEmit "halfOpen"].
Proof.
  intros Hin Hst Hcode. cbv zeta.
  destruct (downstream_inFlight_closes self rid cid tid code body w Hin Hcode) as (Hh & T & Htm).
  set (w' := exec (downstream rid code body) w) in *. clearbody w'.
  assert (stateHandler w' = Obj false (Data CLOSED 0)) as Hh'.
  { rewrite Hh. simpl. unfold RedisStateHandler.forceClose. by rewrite Hst. }
  split; [done|]. split.
  { rewrite T. simpl. unfold RedisStateHandler.forceClose. by rewrite Hst. }
  intros t self' ms Ht.
  assert (timers w' !! t = Some (Build_Timer (cbForceHalfOpen self') ms Pending)) as Ht'.
  { rewrite Htm. destruct (decide (t = tid)) as [->|Hne].
    - destruct Hin as (_ & E & _). congruence.
    - by rewrite list_lookup_insert_ne. }
  rewrite (fireTimer_Pending _ _ _ _ Ht'). simpl runCallback.
  unfold forceHalfOpen, exec, bind, callHandler, emit, log, modify. simpl.
  rewrite Hh'. simpl. done.
Qed.

End LateSuccessRedis.

(** With [maxFailures = 1], two requests are admitted, the first one fails
    and opens the breaker, and the second one then completes with 200; the
    reset timer is the third timer. *)
Lemma late_success_closes_open_breaker_witness :
  CircuitBreaker.stateHandler
    (CircuitBreaker.exec (CircuitBreaker.downstream 1 200 "ok") Samples.lateWorld)
  = StateHandler.Obj false (RedisStateHandler.Data CircuitBreaker.CLOSED 0) ∧
  CircuitBreaker.stateHandler
    (CircuitBreaker.exec (CircuitBreaker.fireTimer 2)
       (CircuitBreaker.exec (CircuitBreaker.downstream 1 200 "ok") Samples.lateWorld))
  = StateHandler.Obj false (RedisStateHandler.Data CircuitBreaker.HALF_OPEN 0).
Proof.
  assert (CircuitBreaker.inFlight Samples.hasty 1 1 1 Samples.lateWorld) as Hin.
  { split; [reflexivity|]. split; [reflexivity|]. exists 200. reflexivity. }
  assert (200 < 500) as Hcode by lia.
  destruct (late_success_closes_open_breaker Samples.hasty 1 1 1 200 "ok" Samples.lateWorld
              Hin eq_refl Hcode) as (Hh & _ & Hfire).
  split; [exact Hh|].
  exact (proj1 (Hfire 2%nat Samples.hasty 1000 eq_refl)).
Defined.
(** ** The stages the breaker builder makes *)

Section BuilderFacts.
Import ApiCircuitBreaker.
Import CircuitBreaker.
Context {St : Type} `{!StateHandler.methods St} {Req Stats Handler : Type}.
Variable isDebugEnabled : bool.
Variable groupsJSON : option (list Group.t) → list string → string.
Variable buildGroupAllowFilter : option (list Group.t) → list string → Req → bool.
Variable statsConfig : bool.
Variable createStats : string → Stats.
Variable getStatsKey : string → string → string → string.
Variable middlewarePath : string.
Variable join : list string → string.
Variable require : string → Result Handler.

Local Abbreviation configureCircuitBreakerEventListeners :=
  (configureCircuitBreakerEventListeners statsConfig createStats getStatsKey middlewarePath
     join require).
Local Abbreviation configureBreakers :=
  (configureBreakers (St := St) isDebugEnabled groupsJSON buildGroupAllowFilter statsConfig
     createStats getStatsKey middlewarePath join require).
Local Abbreviation circuitBreaker :=
  (circuitBreaker (St := St) isDebugEnabled groupsJSON buildGroupAllowFilter statsConfig
     createStats getStatsKey middlewarePath join require).
Local Abbreviation configureBreakers_cons :=
  (configureBreakers_cons (St := St) isDebugEnabled groupsJSON buildGroupAllowFilter statsConfig
     createStats getStatsKey middlewarePath join require).
Local Abbreviation configureBreakers_Return :=
  (configureBreakers_Return (St := St) isDebugEnabled groupsJSON buildGroupAllowFilter
     statsConfig createStats getStatsKey middlewarePath join require).

Implicit Types (emitter : EventEmitter.t (Listener Stats Handler)) (path : string)
  (config : CircuitBreakerConfig.value).

(** The [BreakerInfo] the loop makes of a config. *)
Local Abbreviation infoOf api cbConfig :=
  (BreakerInfo.Build
     {| timeout := or_default (ApiCircuitBreaker.timeout cbConfig) 30000;
        resetTimeout := or_default (ApiCircuitBreaker.resetTimeout cbConfig) 120000;
        maxFailures := or_default (ApiCircuitBreaker.maxFailures cbConfig) 10 |}
     (buildGroupAllowFilter (ApiConfig.group api) <$> ApiCircuitBreaker.group cbConfig)).
(** Subscribing the listeners of a config throws nothing. *)
Local Abbreviation subscribes api cbConfig :=
  (∃ emitter,
     configureCircuitBreakerEventListeners [] (ApiConfig.proxy_path api) cbConfig = Return emitter).

Lemma configureBreakers_Throw (api : ApiConfig.t)
    (sortedBreakers : list CircuitBreakerConfig.value) : ∀ w : world St,
  Exists (λ cbConfig, ∃ e,
    configureCircuitBreakerEventListeners [] (ApiConfig.proxy_path api) cbConfig = Throw e)
    sortedBreakers →
  ∃ e, snd (fst (configureBreakers api sortedBreakers w)) = Throw e.
Proof.
  induction sortedBreakers as [|cbConfig rest IH]; intros w Hex.
  - by apply Exists_nil in Hex.
  - rewrite configureBreakers_cons.
    destruct (configureCircuitBreakerEventListeners [] (ApiConfig.proxy_path api) cbConfig)
      as [emitter|e] eqn:Hcfg; [|by eexists].
    apply Exists_cons in Hex as [[e He]|Hex]; [congruence|].
    destruct (IH (exec constructor w) Hex) as [e ->]. by eexists.
Qed.

Lemma configureBreakers_subscribes (api : ApiConfig.t)
    (sortedBreakers : list CircuitBreakerConfig.value) : ∀ w : world St,
  Forall (λ cbConfig, subscribes api cbConfig) sortedBreakers →
  ∃ breakerInfos, snd (fst (configureBreakers api sortedBreakers w)) = Return breakerInfos.
Proof.
  induction sortedBreakers as [|cbConfig rest IH]; intros w Hall.
  - by exists [].
  - apply Forall_cons in Hall as [[emitter Hcfg] Hall].
    rewrite configureBreakers_cons, Hcfg.
    destruct (IH (exec constructor w) Hall) as (breakerInfos & ->). by eexists.
Qed.

(** [circuitBreaker] mounts what the loop has collected, or throws what
    the loop threw. *)
Lemma circuitBreaker_result (apiRouter : list (Stage (St := St) (Req := Req)))
    (api : ApiConfig.t) (w : world St) :
  let sortedBreakers :=
    fst (sortBreakers (ApiConfig.circuitBreaker api) (ApiConfig.proxy_path api)) in
  let result := fst (circuitBreaker apiRouter api w) in
  match snd (fst (configureBreakers api sortedBreakers w)) with
  | Return breakerInfos =>
      snd (fst result) = apiRouter ++ (buildMiddleware <$> (breakerInfo <$> breakerInfos)) ∧
      snd result = None
  | Throw e => snd (fst result) = apiRouter ∧ snd result = Some e
  end.
Proof.
  cbv zeta. unfold ApiCircuitBreaker.circuitBreaker.
  destruct (sortBreakers _ _) as [sorted logs]. simpl. unfold bind.
  destruct (configureBreakers api sorted w) as [[logs' [breakerInfos|e]] w']; simpl; [|done].
  split; [|done]. unfold setupMiddlewares. by rewrite <- list_fmap_compose.
Qed.

Lemma or_default_not_zero (v : option Z) (d : Z) : d ≠ 0 → or_default v d ≠ 0.
Proof. intros Hd. unfold or_default. by destruct v as [[]|]. Qed.

Lemma or_default_given (v : option Z) (d n : Z) : v = Some n → n ≠ 0 → or_default v d = n.
Proof. intros -> Hn. unfold or_default. by destruct n. Qed.

Lemma or_default_missing (v : option Z) (d : Z) : v = None ∨ v = Some 0 → or_default v d = d.
Proof. by intros [-> | ->]. Qed.

(** X10.  When the loop of [circuitBreaker] ends without an exception, it
    has made one breaker per config of the sorted list, in order.  A
    breaker's [timeout], [resetTimeout] and [maxFailures] are the config's
    where the config gives a number other than zero, and 30000, 120000 and
    10 where it gives none or gives zero: no breaker is mounted with one of
    the three at zero. *)
Theorem breaker_options_never_zero (api : ApiConfig.t)
    (sortedBreakers : list CircuitBreakerConfig.value) (w : world St)
    (breakerInfos : list (Breaker (Req := Req) (Stats := Stats) (Handler := Handler))) :
  snd (fst (configureBreakers api sortedBreakers w)) = Return breakerInfos →
  length breakerInfos = length sortedBreakers ∧
  ∀ (i : nat) (cbConfig : CircuitBreakerConfig.value) (breaker : Breaker),
    sortedBreakers !! i = Some cbConfig →
    breakerInfos !! i = Some breaker →
    let options := BreakerInfo.circuitBreaker (breakerInfo breaker) in
    (timeout options ≠ 0 ∧ resetTimeout options ≠ 0 ∧ maxFailures options ≠ 0) ∧
    (∀ n, ApiCircuitBreaker.timeout cbConfig = Some n → n ≠ 0 → timeout options = n) ∧
    (∀ n, ApiCircuitBreaker.resetTimeout cbConfig = Some n → n ≠ 0 → resetTimeout options = n) ∧
    (∀ n, ApiCircuitBreaker.maxFailures cbConfig = Some n → n ≠ 0 → maxFailures options = n) ∧
    (ApiCircuitBreaker.timeout cbConfig = None ∨ ApiCircuitBreaker.timeout cbConfig = Some 0 →
       timeout options = 30000) ∧
    (ApiCircuitBreaker.resetTimeout cbConfig = None
     ∨ ApiCircuitBreaker.resetTimeout cbConfig = Some 0 →
       resetTimeout options = 120000) ∧
    (ApiCircuitBreaker.maxFailures cbConfig = None
     ∨ ApiCircuitBreaker.maxFailures cbConfig = Some 0 →
       maxFailures options = 10).
Proof.
  intros Hret.
  destruct (configureBreakers_Return api sortedBreakers w breakerInfos Hret) as [Hinfos _].
  split.
  { apply (f_equal length) in Hinfos. by rewrite !length_fmap in Hinfos. }
  intros i cbConfig breaker Hcfg Hbreaker.
  assert ((breakerInfo <$> breakerInfos) !! i = Some (breakerInfo breaker)) as Hinfo
    by (by rewrite list_lookup_fmap, Hbreaker).
  rewrite Hinfos, list_lookup_fmap, Hcfg in Hinfo. injection Hinfo as <-. simpl.
  split; [by repeat split; apply or_default_not_zero|].
  repeat split; intros; first [by eapply or_default_given|by apply or_default_missing].
Qed.

Lemma filter_partition_length {A} (p : A → bool) (l : list A) :
  (length (List.filter p l) + length (List.filter (λ v, negb (p v)) l) = length l)%nat.
Proof.
  induction l as [|x l IH]; simpl; [done|]. destruct (p x); simpl; lia.
Qed.

(** X11.  What becomes of the one config of an API that names a group,
    when [circuitBreaker] throws nothing.  Where other configs stand behind
    it, [sortBreakers] moves it to the end as the array [splice] returned,
    which has no properties: the API gets as many stages as it has configs,
    the last one with [timeout] 30000, [resetTimeout] 120000 and
    [maxFailures] 10 whatever the config says, and no stage of the API has
    a group filter, so that every stage runs its breaker on every request.
    Where it stands last already, it is left there, and the last stage has
    its settings and the filter compiled from its group names. *)
Theorem moved_breaker_loses_group_and_settings
    (apiRouter : list (Stage (St := St) (Req := Req))) (api : ApiConfig.t)
    (g : CircuitBreakerConfig.value) (w : world St) :
  let breakers := ApiConfig.circuitBreaker api in
  let index := indexOfFirst sortBreakers_test breakers in
  let result := fst (circuitBreaker apiRouter api w) in
  List.filter sortBreakers_test breakers = [g] →
  snd result = None →
  ∃ stages : list (BreakerInfo.t Req),
    snd (fst result) = apiRouter ++ (buildMiddleware <$> stages) ∧
    ((S index < length breakers)%nat →
       length stages = length breakers ∧
       Forall (λ stage, BreakerInfo.groupValidator stage = None) stages ∧
       last stages = Some (BreakerInfo.Build (Build_Options 30000 120000 10) None)) ∧
    (S index = length breakers →
       ∃ names,
         ApiCircuitBreaker.group g = Some names ∧
         last stages =
           Some (BreakerInfo.Build
                   {| timeout := or_default (ApiCircuitBreaker.timeout g) 30000;
                      resetTimeout := or_default (ApiCircuitBreaker.resetTimeout g) 120000;
                      maxFailures := or_default (ApiCircuitBreaker.maxFailures g) 10 |}
                   (Some (buildGroupAllowFilter (ApiConfig.group api) names)))).
Proof.
  intros breakers index result Hone Hnone.
  pose proof (circuitBreaker_result apiRouter api w) as Hresult. cbv zeta in Hresult.
  fold breakers result in Hresult.
  destruct (snd (fst (configureBreakers api
              (fst (sortBreakers breakers (ApiConfig.proxy_path api))) w)))
    as [breakerInfos|e] eqn:Hloop.
  2:{ destruct Hresult as [_ Hthrown]. congruence. }
  destruct Hresult as [Hrouter _].
  destruct (configureBreakers_Return api _ w breakerInfos Hloop) as [Hinfos _].
  exists (breakerInfo <$> breakerInfos). split; [done|].
  rewrite Hinfos, (sortBreakers_one_scoped breakers _ g Hone). fold index.
  split.
  - intros Hlt.
    destruct (Z.ltb_spec (Z.of_nat index) (Z.of_nat (length breakers) - 1)); [|lia].
    simpl fst. rewrite fmap_app. simpl. split; [|split].
    + rewrite length_app, length_fmap. simpl.
      pose proof (filter_partition_length sortBreakers_test breakers) as Hlen.
      rewrite Hone in Hlen. simpl in Hlen. lia.
    + apply Forall_app. split; [|by repeat constructor].
      apply Forall_fmap, Forall_forall. intros v Hv. simpl.
      apply list_elem_of_In, filter_In in Hv as [_ Hv].
      unfold sortBreakers_test in Hv.
      by destruct (ApiCircuitBreaker.group v).
    + by rewrite last_snoc.
  - intros Hlast.
    destruct (Z.ltb_spec (Z.of_nat index) (Z.of_nat (length breakers) - 1)); [lia|].
    simpl fst.
    destruct (filter_one_split sortBreakers_test breakers) as (Hi & Ht & _);
      [by rewrite Hone|].
    fold index in Hi, Ht. rewrite Hone in Ht.
    assert (In g breakers ∧ sortBreakers_test g = true) as [_ Hg].
    { apply filter_In. rewrite Hone. by left. }
    unfold sortBreakers_test in Hg.
    destruct (ApiCircuitBreaker.group g) as [names|] eqn:Hgroup; [|done].
    exists names. split; [done|].
    assert (breakers = take index breakers ++ [g]) as Hsplit.
    { rewrite <- (take_drop index breakers) at 1. f_equal.
      rewrite <- Ht. symmetry. apply take_ge. rewrite length_drop. lia. }
    rewrite Hsplit, fmap_app, fmap_cons, fmap_nil, last_snoc. simpl. by rewrite Hgroup.
Qed.

Lemma configureBreakers_world (api : ApiConfig.t) (cbConfig : CircuitBreakerConfig.value)
    (rest : list CircuitBreakerConfig.value) (w : world St) :
  snd (configureBreakers api (cbConfig :: rest) w) =
    match configureCircuitBreakerEventListeners [] (ApiConfig.proxy_path api) cbConfig with
    | Return _ => snd (configureBreakers api rest (exec constructor w))
    | Throw _ => exec constructor w
    end.
Proof.
  cbn [ApiCircuitBreaker.configureBreakers]. unfold bind, exec.
  destruct (constructor w) as [[] w1]. simpl.
  destruct (configureCircuitBreakerEventListeners [] (ApiConfig.proxy_path api) cbConfig);
    [|done].
  destruct (ApiCircuitBreaker.group cbConfig) as [names|]; simpl;
    by destruct (configureBreakers api rest w1) as [[logs stages] w2].
Qed.

Lemma constructor_step (w : world St) :
  timers (exec constructor w) = timers w ∧ frames (exec constructor w) = frames w ∧
  responses (exec constructor w) = responses w ∧ promises (exec constructor w) = promises w ∧
  ∃ tr, trace (exec constructor w) = trace w ++ tr ∧
        Forall (λ e, e = EvEmit "close") tr ∧ (length tr ≤ 1)%nat.
Proof.
  unfold constructor, forceClosed, exec, bind, callHandler.
  destruct (StateHandler.forceClose (stateHandler w)) as [[] h']; simpl.
  - repeat split; try done. exists [EvEmit "close"]. split; [done|]. split; [by constructor|done].
  - repeat split; try done. exists []. rewrite app_nil_r. split; [done|]. split; [constructor|].
    simpl. lia.
Qed.

(** X12.  What configuring the breakers of an API does to the world.  A
    breaker is constructed for every config of the sorted list up to and
    including the first one whose subscribing throws (for every config, if
    none throws), and every construction has the state handler force the
    breaker closed; nothing else happens.  So the world afterwards is the
    world after so many calls of the constructor, also where an exception
    ends the loop and no stage is mounted: timers, activations, responses
    and promises are as before, and [close] is emitted at most once per
    config, and nothing else. *)
Theorem configuring_forces_closed (api : ApiConfig.t)
    (sortedBreakers : list CircuitBreakerConfig.value) : ∀ w : world St,
  let w' := snd (configureBreakers api sortedBreakers w) in
  (Forall (λ cbConfig, subscribes api cbConfig) sortedBreakers →
   w' = Nat.iter (length sortedBreakers) (exec constructor) w) ∧
  (∀ (before after : list CircuitBreakerConfig.value) (cbConfig : CircuitBreakerConfig.value)
     (e : string),
     sortedBreakers = before ++ cbConfig :: after →
     Forall (λ cbConfig, subscribes api cbConfig) before →
     configureCircuitBreakerEventListeners [] (ApiConfig.proxy_path api) cbConfig = Throw e →
     w' = Nat.iter (S (length before)) (exec constructor) w) ∧
  timers w' = timers w ∧
  frames w' = frames w ∧
  responses w' = responses w ∧
  promises w' = promises w ∧
  ∃ tr, trace w' = trace w ++ tr ∧
        Forall (λ e, e = EvEmit "close") tr ∧ (length tr ≤ length sortedBreakers)%nat.
Proof.
  induction sortedBreakers as [|cbConfig rest IH]; intros w; cbv zeta.
  - simpl. split; [done|]. split.
    { intros before after c e Hsplit. by destruct before. }
    repeat split; try done. exists []. rewrite app_nil_r. split; [done|]. by split.
  - rewrite configureBreakers_world.
    destruct (constructor_step w) as (Htm1 & F1 & R1 & P1 & tr1 & T1 & Hclose1 & Hlen1).
    destruct (configureCircuitBreakerEventListeners [] (ApiConfig.proxy_path api) cbConfig)
      as [emitter|e] eqn:Hcfg.
    + destruct (IH (exec constructor w))
        as (Hall & Hthrow & Htm & F & R & P & tr & T & Hclose & Hlen).
      rewrite Htm, F, R, P, T, Htm1, F1, R1, P1, T1. split; [|split].
      * intros Hsub. apply Forall_cons in Hsub as [_ Hsub].
        rewrite (Hall Hsub). simpl length. by rewrite Nat.iter_succ_r.
      * intros before after c e Hsplit Hbefore Hc.
        destruct before as [|b before]; simpl in Hsplit.
        { injection Hsplit as -> _. congruence. }
        injection Hsplit as -> Hrest. apply Forall_cons in Hbefore as [_ Hbefore].
        rewrite (Hthrow before after c e Hrest Hbefore Hc). simpl length.
        by rewrite (Nat.iter_succ_r (S (length before))).
      * repeat split; try done. exists (tr1 ++ tr). rewrite <- app_assoc. split; [done|]. split.
        -- by apply Forall_app.
        -- rewrite length_app. simpl. lia.
    + rewrite Htm1, F1, R1, P1, T1. split; [|split].
      * intros Hsub. apply Forall_cons in Hsub as [[emitter Hsub] _]. congruence.
      * intros before after c e' Hsplit Hbefore Hc.
        destruct before as [|b before]; simpl in Hsplit; [done|].
        injection Hsplit as -> _. apply Forall_cons in Hbefore as [[emitter Hb] _]. congruence.
      * repeat split; try done. exists tr1. split; [done|]. split; [done|]. simpl. lia.
Qed.

(** ** Subscriptions *)

Lemma listeners_app (eventName : string) emitter emitter' :
  EventEmitter.listeners eventName (emitter ++ emitter') =
    EventEmitter.listeners eventName emitter ++ EventEmitter.listeners eventName emitter'.
Proof. unfold EventEmitter.listeners. by rewrite List.filter_app, fmap_app. Qed.

(** The listeners one configured handler name adds, and the listeners the
    statistics add. *)
Local Abbreviation handlerListeners eventName path configured :=
  (match configured with
   | Some name =>
       if String.eqb name EmptyString then []
       else
         match require (join [middlewarePath; "circuitbreaker"; "handler"; name]) with
         | Return handler => [(eventName, ApiCircuitBreaker.callHandler handler path)]
         | Throw _ => []
         end
   | None => []
   end).
Local Abbreviation statsListeners path config :=
  (if negb (truthy_bool (disableStats config)) && statsConfig then
     [("open", registerOccurrence (createStats (getStatsKey "circuitbreaker" path "open")) "total" 1)]
     ++ [("close",
          registerOccurrence (createStats (getStatsKey "circuitbreaker" path "close")) "total" 1)]
     ++ [("rejected",
          registerOccurrence (createStats (getStatsKey "circuitbreaker" path "rejected")) "total" 1)]
   else []).

Lemma configureCircuitBreakerEventListeners_Return emitter emitter' path config :
  configureCircuitBreakerEventListeners emitter path config = Return emitter' →
  emitter' = emitter ++ statsListeners path config
               ++ handlerListeners "open" path (onOpen config)
               ++ handlerListeners "close" path (onClose config)
               ++ handlerListeners "rejected" path (onRejected config).
Proof.
  unfold ApiCircuitBreaker.configureCircuitBreakerEventListeners,
    createCircuitBreakerStats, EventEmitter.on, truthy_string.
  destruct (negb (truthy_bool (disableStats config)) && statsConfig);
    destruct (onOpen config) as [n1|]; try destruct (String.eqb n1 EmptyString);
    try destruct (require (join [middlewarePath; "circuitbreaker"; "handler"; n1]));
    try discriminate;
    destruct (onClose config) as [n2|]; try destruct (String.eqb n2 EmptyString);
    try destruct (require (join [middlewarePath; "circuitbreaker"; "handler"; n2]));
    try discriminate;
    destruct (onRejected config) as [n3|]; try destruct (String.eqb n3 EmptyString);
    try destruct (require (join [middlewarePath; "circuitbreaker"; "handler"; n3]));
    try discriminate;
    simpl; intros [= <-]; rewrite <- ?app_assoc, ?app_nil_r; done.
Qed.

(** A configured handler whose module does not load makes the subscribing
    throw. *)
Lemma configureCircuitBreakerEventListeners_Throw emitter path config (name e : string) :
  In (Some name) [onOpen config; onClose config; onRejected config] →
  name ≠ EmptyString →
  require (join [middlewarePath; "circuitbreaker"; "handler"; name]) = Throw e →
  ∃ e', configureCircuitBreakerEventListeners emitter path config = Throw e'.
Proof.
  intros Hin Hne Hreq.
  assert (String.eqb name EmptyString = false) as Heq by (by apply String.eqb_neq).
  unfold ApiCircuitBreaker.configureCircuitBreakerEventListeners, truthy_string.
  destruct Hin as [E|[E|[E|[]]]]; rewrite E.
  - rewrite Heq, Hreq. simpl. by eexists.
  - destruct (onOpen config) as [n1|]; try destruct (String.eqb n1 EmptyString); simpl;
      try destruct (require (join [middlewarePath; "circuitbreaker"; "handler"; n1]));
      rewrite ?Heq, ?Hreq; simpl; by eexists.
  - destruct (onOpen config) as [n1|]; try destruct (String.eqb n1 EmptyString); simpl;
      try destruct (require (join [middlewarePath; "circuitbreaker"; "handler"; n1]));
      try (by eexists);
      destruct (onClose config) as [n2|]; try destruct (String.eqb n2 EmptyString); simpl;
      try destruct (require (join [middlewarePath; "circuitbreaker"; "handler"; n2]));
      rewrite ?Heq, ?Hreq; simpl; by eexists.
Qed.

Lemma listeners_one (eventName name : string) (l : Listener Stats Handler) :
  EventEmitter.listeners eventName [(name, l)] = if String.eqb name eventName then [l] else [].
Proof. unfold EventEmitter.listeners. simpl. by destruct (String.eqb name eventName). Qed.

Lemma listeners_handlerListeners (eventName name : string) path (configured : option string) :
  EventEmitter.listeners eventName (handlerListeners name path configured) =
    if String.eqb name eventName
    then snd <$> (handlerListeners name path configured : EventEmitter.t (Listener Stats Handler))
    else [].
Proof.
  destruct configured as [n|]; [|by destruct (String.eqb name eventName)].
  destruct (String.eqb n EmptyString); [by destruct (String.eqb name eventName)|].
  destruct (require _); [|by destruct (String.eqb name eventName)].
  by rewrite listeners_one.
Qed.

(** X13.  The subscriptions of a breaker, when no [require] throws.
    With statistics on ([disableStats] not set and the gateway has a
    [statsConfig]), the events [open], [close] and [rejected] each have a
    listener that registers one occurrence under [total] with the
    statistics object made for the key of the API path and the event; with
    statistics off there is none.  A handler configured by a name that is
    not empty ([onOpen], [onClose], [onRejected]) is loaded from
    [middlewarePath/circuitbreaker/handler/name] and subscribed to its
    event, behind the statistics, to be called with the API path; an empty
    name is as none.  No other event has a listener: [halfOpen] is emitted
    to nobody. *)
Theorem breaker_subscriptions path config emitter :
  configureCircuitBreakerEventListeners [] path config = Return emitter →
  let statistics (eventName : string) : list (Listener Stats Handler) :=
    if negb (truthy_bool (disableStats config)) && statsConfig
    then [registerOccurrence (createStats (getStatsKey "circuitbreaker" path eventName)) "total" 1]
    else [] in
  let handler (name : option string) : list (Listener Stats Handler) :=
    match name with
    | Some name =>
        if String.eqb name EmptyString then []
        else
          match require (join [middlewarePath; "circuitbreaker"; "handler"; name]) with
          | Return handler => [ApiCircuitBreaker.callHandler handler path]
          | Throw _ => []
          end
    | None => []
    end in
  EventEmitter.listeners "open" emitter = statistics "open" ++ handler (onOpen config) ∧
  EventEmitter.listeners "close" emitter = statistics "close" ++ handler (onClose config) ∧
  EventEmitter.listeners "rejected" emitter = statistics "rejected" ++ handler (onRejected config) ∧
  ∀ eventName, ¬ In eventName ["open"; "close"; "rejected"] →
    EventEmitter.listeners eventName emitter = [].
Proof.
  intros Hret. apply configureCircuitBreakerEventListeners_Return in Hret. subst emitter.
  cbv zeta. rewrite app_nil_l.
  assert (∀ eventName (configured : option string),
    snd <$> (handlerListeners eventName path configured : EventEmitter.t (Listener Stats Handler)) =
      match configured with
      | Some name =>
          if String.eqb name EmptyString then []
          else
            match require (join [middlewarePath; "circuitbreaker"; "handler"; name]) with
            | Return handler => [ApiCircuitBreaker.callHandler handler path]
            | Throw _ => []
            end
      | None => []
      end) as Hsnd.
  { intros eventName [n|]; [|done]. destruct (String.eqb n EmptyString); [done|].
    by destruct (require _). }
  split; [|split; [|split]].
  - rewrite !listeners_app, !listeners_handlerListeners. simpl. rewrite app_nil_r, Hsnd.
    by destruct (negb (truthy_bool (disableStats config)) && statsConfig).
  - rewrite !listeners_app, !listeners_handlerListeners. simpl. rewrite app_nil_r, Hsnd.
    by destruct (negb (truthy_bool (disableStats config)) && statsConfig).
  - rewrite !listeners_app, !listeners_handlerListeners. simpl. rewrite Hsnd.
    by destruct (negb (truthy_bool (disableStats config)) && statsConfig).
  - intros eventName Hother.
    assert (String.eqb "open" eventName = false ∧ String.eqb "close" eventName = false
            ∧ String.eqb "rejected" eventName = false) as (E1 & E2 & E3).
    { repeat split; apply String.eqb_neq; intros <-; apply Hother; simpl; auto. }
    rewrite !listeners_app, !listeners_handlerListeners, E1, E2, E3, !app_nil_r.
    destruct (negb (truthy_bool (disableStats config)) && statsConfig); [|done].
    by rewrite !listeners_app, !listeners_one, E1, E2, E3.
Qed.

(** X14.  [circuitBreaker] with its subscriptions.  If subscribing throws
    for one of the sorted configs (as it does when a configured handler
    module does not load), [circuitBreaker] throws, and the router is as it
    was: no stage is mounted for the API, not even for the configs in front
    of the failing one.  If it throws for none, nothing is thrown, and one
    stage per config is mounted behind the handlers the router had, each the
    handler [buildMiddleware] makes of its [BreakerInfo]. *)
Theorem failing_handler_module_mounts_nothing (apiRouter : list (Stage (St := St) (Req := Req)))
    (api : ApiConfig.t) (w : world St) :
  let path := ApiConfig.proxy_path api in
  let sortedBreakers := fst (sortBreakers (ApiConfig.circuitBreaker api) path) in
  let result := fst (circuitBreaker apiRouter api w) in
  let router := snd (fst result) in
  let thrown := snd result in
  (Exists (λ cbConfig, ∃ e, configureCircuitBreakerEventListeners [] path cbConfig = Throw e)
     sortedBreakers →
   router = apiRouter ∧ ∃ e, thrown = Some e) ∧
  (Forall (λ cbConfig, ∃ emitter,
      configureCircuitBreakerEventListeners [] path cbConfig = Return emitter) sortedBreakers →
   thrown = None ∧
   router = apiRouter ++
     (buildMiddleware <$> ((λ cbConfig, infoOf api cbConfig) <$> sortedBreakers))) ∧
  (∀ (cbConfig : CircuitBreakerConfig.value) (name e : string),
     In (Some name) [onOpen cbConfig; onClose cbConfig; onRejected cbConfig] →
     name ≠ EmptyString →
     require (join [middlewarePath; "circuitbreaker"; "handler"; name]) = Throw e →
     ∃ e', configureCircuitBreakerEventListeners [] path cbConfig = Throw e').
Proof.
  intros path sortedBreakers result router thrown.
  pose proof (circuitBreaker_result apiRouter api w) as Hresult. cbv zeta in Hresult.
  fold path sortedBreakers result router thrown in Hresult.
  split; [|split].
  - intros Hex. destruct (configureBreakers_Throw api sortedBreakers w Hex) as [e He].
    rewrite He in Hresult. destruct Hresult as [Hrouter Hthrown]. split; [done|by eexists].
  - intros Hall.
    destruct (configureBreakers_subscribes api sortedBreakers w Hall) as (bs & Hbs).
    rewrite Hbs in Hresult. destruct Hresult as [Hrouter Hthrown]. split; [done|].
    destruct (configureBreakers_Return api sortedBreakers w bs Hbs) as [Hinfos _].
    by rewrite Hrouter, Hinfos.
  - intros cbConfig name e. apply configureCircuitBreakerEventListeners_Throw.
Qed.

End BuilderFacts.

(** The two default sample configs: the second one gives a [timeout]
    only. *)
Lemma breaker_options_never_zero_witness :
  CircuitBreaker.timeout (CircuitBreaker.Build_Options 200 120000 10) = 200 ∧
  CircuitBreaker.maxFailures (CircuitBreaker.Build_Options 200 120000 10) = 10.
Proof.
  destruct (@breaker_options_never_zero _ RedisStateHandler.methods string string string false
    Examples.groupsJSON Examples.buildGroupAllowFilter false Examples.createStats
    Examples.getStatsKey "/middleware" Examples.join Examples.require
    (Examples.api [] [CircuitBreakerConfig.Config Examples.defaultBreaker;
                      CircuitBreakerConfig.Config Examples.secondDefaultBreaker])
    [CircuitBreakerConfig.Config Examples.defaultBreaker;
     CircuitBreakerConfig.Config Examples.secondDefaultBreaker]
    Examples.configured
    [ApiCircuitBreaker.Build_Breaker
       (BreakerInfo.Build (CircuitBreaker.Build_Options 100 120000 3) None) [];
     ApiCircuitBreaker.Build_Breaker
       (BreakerInfo.Build (CircuitBreaker.Build_Options 200 120000 10) None) []]
    eq_refl) as [_ Hoptions].
  destruct (Hoptions 1%nat (CircuitBreakerConfig.Config Examples.secondDefaultBreaker)
    (ApiCircuitBreaker.Build_Breaker
       (BreakerInfo.Build (CircuitBreaker.Build_Options 200 120000 10) None) [])
    eq_refl eq_refl) as (_ & Htimeout & _ & _ & _ & _ & Hmax).
  split; [apply (Htimeout 200 eq_refl); lia|apply Hmax; by left].
Defined.

(** The group-scoped sample config in front of the default one, and behind
    it. *)
Lemma moved_breaker_loses_group_and_settings_witness :
  (∃ stages,
     snd (fst (fst (ApiCircuitBreaker.circuitBreaker (H := RedisStateHandler.methods) false
                      Examples.groupsJSON Examples.buildGroupAllowFilter false
                      Examples.createStats Examples.getStatsKey "/middleware" Examples.join
                      Examples.require []
                      (Examples.api [] [CircuitBreakerConfig.Config Examples.adminBreaker;
                                        CircuitBreakerConfig.Config Examples.defaultBreaker])
                      Examples.configured)))
     = [] ++ (ApiCircuitBreaker.buildMiddleware <$> stages) ∧
     last stages = Some (BreakerInfo.Build (CircuitBreaker.Build_Options 30000 120000 10) None)) ∧
  (∃ stages names,
     snd (fst (fst (ApiCircuitBreaker.circuitBreaker (H := RedisStateHandler.methods) false
                      Examples.groupsJSON Examples.buildGroupAllowFilter false
                      Examples.createStats Examples.getStatsKey "/middleware" Examples.join
                      Examples.require []
                      (Examples.api [] [CircuitBreakerConfig.Config Examples.defaultBreaker;
                                        CircuitBreakerConfig.Config Examples.adminBreaker])
                      Examples.configured)))
     = [] ++ (ApiCircuitBreaker.buildMiddleware <$> stages) ∧
     ApiCircuitBreaker.group (CircuitBreakerConfig.Config Examples.adminBreaker) = Some names ∧
     last stages
     = Some (BreakerInfo.Build (CircuitBreaker.Build_Options 100 120000 5)
               (Some (Examples.buildGroupAllowFilter None names)))).
Proof.
  split.
  - destruct (@moved_breaker_loses_group_and_settings _ RedisStateHandler.methods string string string false
      Examples.groupsJSON Examples.buildGroupAllowFilter false Examples.createStats
      Examples.getStatsKey "/middleware" Examples.join Examples.require []
      (Examples.api [] [CircuitBreakerConfig.Config Examples.adminBreaker;
                        CircuitBreakerConfig.Config Examples.defaultBreaker])
      (CircuitBreakerConfig.Config Examples.adminBreaker) Examples.configured eq_refl eq_refl)
      as (stages & Hrouter & Hmoved & _).
    exists stages. split; [exact Hrouter|]. apply Hmoved. simpl. lia.
  - destruct (@moved_breaker_loses_group_and_settings _ RedisStateHandler.methods string string string false
      Examples.groupsJSON Examples.buildGroupAllowFilter false Examples.createStats
      Examples.getStatsKey "/middleware" Examples.join Examples.require []
      (Examples.api [] [CircuitBreakerConfig.Config Examples.defaultBreaker;
                        CircuitBreakerConfig.Config Examples.adminBreaker])
      (CircuitBreakerConfig.Config Examples.adminBreaker) Examples.configured eq_refl eq_refl)
      as (stages & Hrouter & _ & Hlast).
    destruct (Hlast eq_refl) as (names & Hgroup & Hstage).
    exists stages, names. split; [exact Hrouter|]. split; [exact Hgroup|exact Hstage].
Defined.

(** The sample config with a handler for [open], with statistics on. *)
Lemma breaker_subscriptions_witness :
  EventEmitter.listeners "open" Samples.notifyingEmitter
  = [ApiCircuitBreaker.registerOccurrence "circuitbreaker:/api:open" "total" 1;
     ApiCircuitBreaker.callHandler "/middleware/circuitbreaker/handler/notify" "/api"] ∧
  EventEmitter.listeners "halfOpen" Samples.notifyingEmitter = [].
Proof.
  pose proof (breaker_subscriptions true Examples.createStats Examples.getStatsKey "/middleware"
    Examples.join Examples.require "/api" (CircuitBreakerConfig.Config Samples.notifyingBreaker)
    Samples.notifyingEmitter eq_refl) as (Hopen & _ & _ & Hother).
  split; [exact Hopen|]. apply Hother. simpl. intuition discriminate.
Defined.

(** ** The authentication stages of an API *)

Section AuthFacts.
Import ApiAuth.
Context {Strategy Req Err W RequestLog : Type}.
Variable loadMiddleware : string → option MiddlewareConfig.t → Result (option Strategy).
Variable getId : option MiddlewareConfig.t → string.
Variable isDebugEnabled : bool.
Variable isRequestLogEnabled : ApiConfig.t → bool.
Variable getRequestLog : Req → W → option RequestLog.
Variable setAuthentication : RequestLog → string → W → W.
Variable authenticate : string → RequestHandler Req Err W.
Variable groupsJSON : option (list Group.t) → list string → string.
Variable buildGroupAllowFilter : option (list Group.t) → list string → Req → bool.

Local Abbreviation Configured := (Configured (Strategy := Strategy) (Req := Req) (Err := Err) (W := W)).
Local Abbreviation authenticatorHandler :=
  (authenticatorHandler isRequestLogEnabled getRequestLog setAuthentication).
Local Abbreviation groupAuthenticatorHandler :=
  (groupAuthenticatorHandler isRequestLogEnabled getRequestLog setAuthentication).
Local Abbreviation createAuthenticator :=
  (createAuthenticator (Strategy := Strategy) isRequestLogEnabled getRequestLog setAuthentication).
Local Abbreviation configureEntry :=
  (configureEntry loadMiddleware getId isDebugEnabled isRequestLogEnabled getRequestLog
     setAuthentication authenticate groupsJSON buildGroupAllowFilter).
Local Abbreviation configureEntries :=
  (configureEntries loadMiddleware getId isDebugEnabled isRequestLogEnabled getRequestLog
     setAuthentication authenticate groupsJSON buildGroupAllowFilter).
Local Abbreviation authentication :=
  (authentication loadMiddleware getId isDebugEnabled isRequestLogEnabled getRequestLog
     setAuthentication authenticate groupsJSON buildGroupAllowFilter).

(** X15.  [createAuthenticator] mounts one handler and touches nothing
    else.  With the request log off the handler is the authenticator
    itself.  With it on, when the authenticator answers a request (calls
    back with an error or with none), the request log of the request, if it
    has one, is marked [fail] or [success] accordingly, and the answer is
    passed on to [next] as it came: an error is never swallowed and none is
    made up. *)
Theorem createAuthenticator_records_outcome (api : ApiConfig.t)
    (authentication : ApiAuthenticationConfig.t) (authenticator : RequestHandler Req Err W)
    (c : Configured) (req : Req) (next : option Err → W → W) (w w1 : W) (err : option Err) :
  (∀ callback, authenticator req callback w = callback err w1) →
  let c' := createAuthenticator api authentication authenticator c in
  strategies c' = strategies c ∧
  logs c' = logs c ∧
  ∃ handler,
    router c' = router c ++ [handler] ∧
    (isRequestLogEnabled api = false → handler = authenticator) ∧
    handler req next w =
      next err
        (if isRequestLogEnabled api then
           match getRequestLog req w1 with
           | Some requestLog =>
               setAuthentication requestLog
                 (match err with Some _ => "fail" | None => "success" end) w1
           | None => w1
           end
         else w1).
Proof.
  intros Hanswer. cbv zeta. split; [done|]. split; [done|].
  exists (authenticatorHandler api authenticator). split; [done|].
  unfold ApiAuth.authenticatorHandler. destruct (isRequestLogEnabled api).
  - split; [done|]. rewrite Hanswer. unfold markRequestLog.
    by destruct err, (getRequestLog req w1).
  - split; [done|]. by rewrite Hanswer.
Qed.

(** *** Sorting keeps the entries *)

Lemma filter_partition_Permutation {A} (p : A → bool) (l : list A) :
  List.filter (λ v, negb (p v)) l ++ List.filter p l ≡ₚ l.
Proof.
  induction l as [|x l IH]; simpl; [done|]. destruct (p x); simpl.
  - rewrite <- Permutation_middle. by constructor.
  - by constructor.
Qed.

Lemma filter_filter_negb {A} (p : A → bool) (l : list A) :
  List.filter p (List.filter (λ v, negb (p v)) l) = [] ∧
  List.filter (λ v, negb (p v)) (List.filter p l) = [] ∧
  List.filter p (List.filter p l) = List.filter p l ∧
  List.filter (λ v, negb (p v)) (List.filter (λ v, negb (p v)) l) = List.filter (λ v, negb (p v)) l.
Proof.
  induction l as [|x l (IH1 & IH2 & IH3 & IH4)]; simpl; [done|].
  destruct (p x) eqn:Hx; simpl; rewrite Hx; simpl; by rewrite ?IH3, ?IH4.
Qed.

(** X16.  Unless it finds two or more entries without a group,
    [sortMiddlewares] only reorders: the sorted list holds the same
    entries, each as often as before, with the group-scoped ones in the
    order they had; and it is stable: sorting the sorted list again gives the
    same list and logs nothing. *)
Theorem sortMiddlewares_reorders_only (middlewares : list ApiAuthenticationConfig.t)
    (path : string) :
  (length (List.filter sortMiddlewares_test middlewares) ≤ 1)%nat →
  let sorted := fst (sortMiddlewares middlewares path) in
  sorted ≡ₚ middlewares ∧
  List.filter (λ v, negb (sortMiddlewares_test v)) sorted =
    List.filter (λ v, negb (sortMiddlewares_test v)) middlewares ∧
  sortMiddlewares sorted path = (sorted, []).
Proof.
  intros Hlen. cbv zeta. rewrite (sortMiddlewares_sorted middlewares path Hlen). simpl.
  destruct (filter_filter_negb sortMiddlewares_test middlewares) as (E1 & E2 & E3 & E4).
  split; [apply filter_partition_Permutation|]. split.
  - by rewrite List.filter_app, E4, E2, app_nil_r.
  - rewrite sortMiddlewares_sorted.
    + by rewrite !List.filter_app, E1, E2, E3, E4, app_nil_r.
    + by rewrite List.filter_app, E1, E3.
Qed.

(** *** References *)

Lemma defaults_idempotent (object source : ApiAuthenticationConfig.t) :
  defaults (defaults object source) source = defaults object source.
Proof.
  destruct object as [[s|] [g|] [u|]], source as [s' g' u']; unfold defaults; simpl;
    try done; destruct s', g', u'; done.
Qed.

(** X17.  Resolving the references of an entry that has been resolved
    changes nothing: [resolveReferences], applied to what it returned,
    returns it again.  (The entry of the API config is the object
    [_.defaults] fills in, so this is what a later run over the same config
    meets.) *)
Theorem resolveReferences_idempotent (authentication resolved : ApiAuthenticationConfig.t)
    (pipelineConfig : ApiPipelineConfig.t) :
  resolveReferences authentication pipelineConfig = Return resolved →
  resolveReferences resolved pipelineConfig = Return resolved.
Proof.
  unfold resolveReferences.
  destruct (ApiAuthenticationConfig.use authentication) as [use|] eqn:Huse.
  2:{ intros [= <-]. by rewrite Huse. }
  destruct (ApiPipelineConfig.authentication pipelineConfig) as [dict|] eqn:Hdict.
  2:{ intros [= <-]. by rewrite Huse. }
  destruct (truthy_string (Some use)) eqn:Htruthy.
  2:{ intros [= <-]. by rewrite Huse, Htruthy. }
  destruct (get dict use) as [[source|name]|] eqn:Hsource; [| |done].
  - intros [= <-].
    assert (ApiAuthenticationConfig.use (defaults authentication source) = Some use) as ->.
    { unfold defaults. simpl. by rewrite Huse. }
    by rewrite Htruthy, Hsource, defaults_idempotent.
  - intros [= <-]. by rewrite Huse, Htruthy, Hsource.
Qed.

End AuthFacts.

(** The sample entry that names [shared], under the dictionary that has it. *)
Lemma resolveReferences_idempotent_witness :
  ApiAuth.resolveReferences (ApiAuth.defaults Examples.sharedAuth Examples.adminAuth)
    Examples.dictionary
  = Return (ApiAuth.defaults Examples.sharedAuth Examples.adminAuth).
Proof.
  exact (resolveReferences_idempotent Examples.sharedAuth
    (ApiAuth.defaults Examples.sharedAuth Examples.adminAuth) Examples.dictionary eq_refl).
Defined.

(** [defaultAuth] in front of [adminAuth]: sorted, and sorted again. *)
Lemma sortMiddlewares_reorders_only_witness :
  ApiAuth.sortMiddlewares [Examples.adminAuth; Examples.defaultAuth] "/api"
  = ([Examples.adminAuth; Examples.defaultAuth], []).
Proof.
  refine (proj2 (proj2 (sortMiddlewares_reorders_only
    [Examples.defaultAuth; Examples.adminAuth] "/api" _))).
  simpl. lia.
Defined.

(** The sample authenticator always succeeds; with a request log that is
    the state itself, its success is marked. *)
Lemma createAuthenticator_records_outcome_witness :
  ∃ handler,
    ApiAuth.router
      (ApiAuth.createAuthenticator (Strategy := string) (λ _, true) (λ _ w, Some w)
         (λ (_ : list string) mark w, w ++ [mark]) (Examples.api [] []) Examples.defaultAuth
         (Examples.authenticate "api_0") Examples.emptyRouter) = [] ++ [handler] ∧
    handler "/users/1" (λ _ w, w) [] = ["api_0"; "success"].
Proof.
  destruct (createAuthenticator_records_outcome (Strategy := string) (λ _, true) (λ _ w, Some w)
    (λ (_ : list string) mark w, w ++ [mark]) (Examples.api [] []) Examples.defaultAuth
    (Examples.authenticate "api_0") Examples.emptyRouter "/users/1" (λ _ w, w) [] ["api_0"] None
    (λ _, eq_refl)) as (_ & _ & handler & Hrouter & _ & Hhandler).
  exists handler. split; [exact Hrouter|exact Hhandler].
Defined.

(** ** The loop of [authentication] *)

Section AuthLoop.
Import ApiAuth.
Context {Strategy Req Err W RequestLog : Type}.
Variable loadMiddleware : string → option MiddlewareConfig.t → Result (option Strategy).
Variable getId : option MiddlewareConfig.t → string.
Variable isDebugEnabled : bool.
Variable isRequestLogEnabled : ApiConfig.t → bool.
Variable getRequestLog : Req → W → option RequestLog.
Variable setAuthentication : RequestLog → string → W → W.
Variable authenticate : string → RequestHandler Req Err W.
Variable groupsJSON : option (list Group.t) → list string → string.
Variable buildGroupAllowFilter : option (list Group.t) → list string → Req → bool.

Local Abbreviation Configured := (Configured (Strategy := Strategy) (Req := Req) (Err := Err) (W := W)).
Local Abbreviation authenticatorHandler :=
  (authenticatorHandler isRequestLogEnabled getRequestLog setAuthentication).
Local Abbreviation groupAuthenticatorHandler :=
  (groupAuthenticatorHandler isRequestLogEnabled getRequestLog setAuthentication).
Local Abbreviation configureEntry :=
  (configureEntry loadMiddleware getId isDebugEnabled isRequestLogEnabled getRequestLog
     setAuthentication authenticate groupsJSON buildGroupAllowFilter).
Local Abbreviation configureEntries :=
  (configureEntries loadMiddleware getId isDebugEnabled isRequestLogEnabled getRequestLog
     setAuthentication authenticate groupsJSON buildGroupAllowFilter).
Local Abbreviation authentication :=
  (authentication loadMiddleware getId isDebugEnabled isRequestLogEnabled getRequestLog
     setAuthentication authenticate groupsJSON buildGroupAllowFilter).

(** The entry's references resolve and its strategy loads. *)
Local Abbreviation configures pipelineConfig entry :=
  (match resolveReferences entry pipelineConfig with
   | Return resolved =>
       match loadMiddleware "authentication/strategy"
               (ApiAuthenticationConfig.strategy resolved) with
       | Return (Some _) => true
       | _ => false
       end
   | Throw _ => false
   end).
(** The key the entry at [index] is registered under. *)
Local Abbreviation keyOf apiKey index := (apiKey +:+ "_" +:+ pretty index).

(** The handler an entry mounts is the authenticator for its key, behind
    the filter of its group if it has one. *)
Local Abbreviation mounted api key handler :=
  (handler = authenticatorHandler api (authenticate key) ∨
   ∃ names, handler = groupAuthenticatorHandler api
                        (buildGroupAllowFilter (ApiConfig.group api) names) (authenticate key)).

Lemma configureEntry_cases (apiKey : string) (api : ApiConfig.t)
    (pipelineConfig : ApiPipelineConfig.t) (index : nat) (entry : ApiAuthenticationConfig.t)
    (c : Configured) :
  let c' := configureEntry apiKey api pipelineConfig index entry c in
  ∃ ls, logs c' = logs c ++ ls ∧ (isDebugEnabled = false → length ls = 1%nat) ∧
    if configures pipelineConfig entry
    then ∃ handler strategy,
           router c' = router c ++ [handler] ∧
           strategies c' = strategies c ++ [(keyOf apiKey index, strategy)] ∧
           mounted api (keyOf apiKey index) handler
    else router c' = router c ∧ strategies c' = strategies c.
Proof.
  cbv zeta. unfold ApiAuth.configureEntry.
  destruct (resolveReferences entry pipelineConfig) as [resolved|e]; [|by eexists].
  destruct (loadMiddleware "authentication/strategy" (ApiAuthenticationConfig.strategy resolved))
    as [[strategy|]|e]; [|by eexists|by eexists].
  destruct (ApiAuthenticationConfig.group resolved) as [names|]; simpl.
  - unfold createAuthenticatorForGroup. destruct isDebugEnabled; simpl.
    + eexists. rewrite <- app_assoc. split; [done|]. split; [done|].
      eexists _, _. split; [done|]. split; [done|]. right. by eexists.
    + eexists. split; [done|]. split; [done|].
      eexists _, _. split; [done|]. split; [done|]. right. by eexists.
  - eexists. split; [done|]. split; [done|].
    eexists _, _. split; [done|]. split; [done|]. by left.
Qed.

Lemma configureEntries_grows (apiKey : string) (api : ApiConfig.t)
    (pipelineConfig : ApiPipelineConfig.t) (entries : list ApiAuthenticationConfig.t) :
  ∀ (index : nat) (c : Configured),
    let c' := configureEntries apiKey api pipelineConfig index entries c in
    ∃ hs ss ks ls,
      router c' = router c ++ hs ∧
      strategies c' = strategies c ++ ss ∧
      logs c' = logs c ++ ls ∧
      length hs = length (List.filter (λ entry, configures pipelineConfig entry) entries) ∧
      length ss = length hs ∧
      ss.*1 = (λ k, keyOf apiKey k) <$> ks ∧
      NoDup ks ∧
      Forall (λ k, index ≤ k < index + length entries)%nat ks ∧
      Forall (λ handler, ∃ k, (k < index + length entries)%nat ∧ mounted api (keyOf apiKey k) handler)
        hs ∧
      (isDebugEnabled = false → length ls = length entries).
Proof.
  induction entries as [|entry rest IH]; intros index c; cbv zeta; simpl.
  { exists [], [], [], []. rewrite !app_nil_r. repeat split; try done; constructor. }
  destruct (configureEntry_cases apiKey api pipelineConfig index entry c)
    as (ls1 & L1 & Hl1 & Hcase).
  set (c1 := configureEntry apiKey api pipelineConfig index entry c) in *. clearbody c1.
  destruct (IH (S index) c1) as (hs & ss & ks & ls & R & Hs & L & Hlen & Hlen' & Hkeys & Hnd
                                    & Hbound & Hmounted & Hl).
  destruct (configures pipelineConfig entry).
  - destruct Hcase as (handler & strategy & R1 & S1 & Hm).
    exists (handler :: hs), ((keyOf apiKey index, strategy) :: ss), (index :: ks), (ls1 ++ ls).
    rewrite R, Hs, L, R1, S1, L1, <- !app_assoc. simpl.
    repeat split; try done; try lia.
    + f_equal. exact Hkeys.
    + apply NoDup_cons. split; [|done]. intros Hin.
      rewrite Forall_forall in Hbound. specialize (Hbound _ Hin). lia.
    + constructor; [lia|]. eapply Forall_impl; [done|]. simpl. lia.
    + constructor.
      * exists index. split; [lia|done].
      * eapply Forall_impl; [done|]. simpl. intros h (k & Hk & Hh). exists k. split; [lia|done].
    + intros Hd. rewrite length_app, (Hl1 Hd), (Hl Hd). done.
  - destruct Hcase as (R1 & S1).
    exists hs, ss, ks, (ls1 ++ ls).
    rewrite R, Hs, L, R1, S1, L1, <- !app_assoc.
    repeat split; try done.
    + eapply Forall_impl; [done|]. simpl. lia.
    + eapply Forall_impl; [done|]. simpl. intros h (k & Hk & Hh). exists k. split; [lia|done].
    + intros Hd. rewrite length_app, (Hl1 Hd), (Hl Hd). done.
Qed.

Lemma authentication_loop (apiKey : string) (api : ApiConfig.t)
    (pipelineConfig : ApiPipelineConfig.t) (c : Configured) :
  authentication apiKey api pipelineConfig c =
    configureEntries apiKey api pipelineConfig 0
      (fst (sortMiddlewares (ApiConfig.authentication api) (ApiConfig.path api)))
      (Build_Configured (router c) (strategies c)
         (logs c ++ snd (sortMiddlewares (ApiConfig.authentication api) (ApiConfig.path api)))).
Proof.
  unfold ApiAuth.authentication. by destruct (sortMiddlewares _ _).
Qed.

(** The handler and the strategy the entry at [index] mounts and
    registers, if its references resolve and its strategy loads: the
    authenticator for the key of its place, behind the filter of its own
    group if it has one. *)
Local Abbreviation stageOf apiKey api pipelineConfig index entry :=
  (match resolveReferences entry pipelineConfig with
   | Return resolved =>
       match loadMiddleware "authentication/strategy"
               (ApiAuthenticationConfig.strategy resolved) with
       | Return (Some strategy) =>
           Some (match ApiAuthenticationConfig.group resolved with
                 | Some names =>
                     groupAuthenticatorHandler api
                       (buildGroupAllowFilter (ApiConfig.group api) names)
                       (authenticate (keyOf apiKey index))
                 | None => authenticatorHandler api (authenticate (keyOf apiKey index))
                 end,
                 (keyOf apiKey index, strategy))
       | _ => None
       end
   | Throw _ => None
   end).

Lemma configureEntry_stage (apiKey : string) (api : ApiConfig.t)
    (pipelineConfig : ApiPipelineConfig.t) (index : nat) (entry : ApiAuthenticationConfig.t)
    (c : Configured) :
  let c' := configureEntry apiKey api pipelineConfig index entry c in
  router c' = router c ++ (option_list (stageOf apiKey api pipelineConfig index entry)).*1 ∧
  strategies c' =
    strategies c ++ (option_list (stageOf apiKey api pipelineConfig index entry)).*2.
Proof.
  cbv zeta. unfold ApiAuth.configureEntry.
  destruct (resolveReferences entry pipelineConfig) as [resolved|e];
    [|by rewrite !app_nil_r].
  destruct (loadMiddleware "authentication/strategy" (ApiAuthenticationConfig.strategy resolved))
    as [[strategy|]|e]; [|by rewrite !app_nil_r|by rewrite !app_nil_r].
  destruct (ApiAuthenticationConfig.group resolved) as [names|]; simpl; [|done].
  unfold createAuthenticatorForGroup. by destruct isDebugEnabled.
Qed.

Lemma configureEntries_stages (apiKey : string) (api : ApiConfig.t)
    (pipelineConfig : ApiPipelineConfig.t) (entries : list ApiAuthenticationConfig.t) :
  ∀ (index : nat) (c : Configured),
    let c' := configureEntries apiKey api pipelineConfig index entries c in
    let stages :=
      omap id (imap (λ i entry, stageOf apiKey api pipelineConfig (index + i)%nat entry) entries) in
    router c' = router c ++ stages.*1 ∧ strategies c' = strategies c ++ stages.*2.
Proof.
  induction entries as [|entry rest IH]; intros index c; cbv zeta.
  { simpl. by rewrite !app_nil_r. }
  cbn [ApiAuth.configureEntries].
  destruct (IH (S index) (configureEntry apiKey api pipelineConfig index entry c)) as [R Hs].
  destruct (configureEntry_stage apiKey api pipelineConfig index entry c) as [R1 S1].
  rewrite R, Hs, R1, S1, <- !app_assoc, <- !fmap_app.
  rewrite imap_cons, Nat.add_0_r.
  assert (imap ((λ i entry, stageOf apiKey api pipelineConfig (index + i)%nat entry) ∘ S) rest
          = imap (λ i entry, stageOf apiKey api pipelineConfig (S index + i)%nat entry) rest)
    as ->.
  { apply imap_ext. intros i x _. simpl. by rewrite Nat.add_succ_r. }
  cbn [omap list_omap].
  destruct (stageOf apiKey api pipelineConfig index entry) as [stage|]; done.
Qed.

Lemma stages_length {A} (configures : ApiAuthenticationConfig.t → bool)
    (entries : list ApiAuthenticationConfig.t) :
  ∀ stage : nat → ApiAuthenticationConfig.t → option A,
    (∀ i entry, is_Some (stage i entry) ↔ configures entry = true) →
    length (omap id (imap stage entries)) = length (List.filter configures entries).
Proof.
  induction entries as [|entry rest IH]; intros stage Hstage; [done|].
  rewrite imap_cons. cbn [omap list_omap List.filter].
  pose proof (Hstage 0%nat entry) as H0.
  destruct (stage 0%nat entry) as [y|], (configures entry); simpl.
  - f_equal. apply IH. intros i e. apply Hstage.
  - destruct H0 as [H0 _]. by specialize (H0 ltac:(by eexists)).
  - destruct H0 as [_ H0]. by destruct (H0 eq_refl).
  - apply IH. intros i e. apply Hstage.
Qed.

(** X18.  The loop of [authentication] goes through all sorted entries,
    whatever happens to one of them.  An entry whose reference does not
    resolve, whose strategy does not load (the loader throws or answers
    nothing) mounts nothing and registers nothing.  Every other entry mounts
    one handler and registers one strategy, behind what the router and the
    registry held and in the order of the entries: the handler is the
    authenticator for the key of the entry's own place in the sorted list,
    alone if the resolved entry has no group and behind the filter of the
    entry's own group if it has one, and the strategy is the one loaded for
    the resolved entry, under that key.  Even with debug logging off every
    entry leaves exactly one line with the logger, an error or the line
    that says it was configured ([if (this.logger.isDebugEnabled)] tests
    the method, not its answer). *)
Theorem authentication_skips_failed_entries (apiKey : string) (api : ApiConfig.t)
    (pipelineConfig : ApiPipelineConfig.t) (c : Configured) :
  let sorted := fst (sortMiddlewares (ApiConfig.authentication api) (ApiConfig.path api)) in
  let errors := snd (sortMiddlewares (ApiConfig.authentication api) (ApiConfig.path api)) in
  let configured := List.filter (λ entry, configures pipelineConfig entry) sorted in
  let stage (index : nat) (entry : ApiAuthenticationConfig.t) :=
    match resolveReferences entry pipelineConfig with
    | Return resolved =>
        match loadMiddleware "authentication/strategy"
                (ApiAuthenticationConfig.strategy resolved) with
        | Return (Some strategy) =>
            Some (match ApiAuthenticationConfig.group resolved with
                  | Some names =>
                      groupAuthenticatorHandler api
                        (buildGroupAllowFilter (ApiConfig.group api) names)
                        (authenticate (keyOf apiKey index))
                  | None => authenticatorHandler api (authenticate (keyOf apiKey index))
                  end,
                  (keyOf apiKey index, strategy))
        | _ => None
        end
    | Throw _ => None
    end in
  let stages := omap id (imap stage sorted) in
  let c' := authentication apiKey api pipelineConfig c in
  router c' = router c ++ stages.*1 ∧
  strategies c' = strategies c ++ stages.*2 ∧
  length stages = length configured ∧
  (isDebugEnabled = false →
     length (logs c') = (length (logs c) + length errors + length sorted)%nat).
Proof.
  cbv zeta. rewrite authentication_loop.
  destruct (configureEntries_stages apiKey api pipelineConfig
    (fst (sortMiddlewares (ApiConfig.authentication api) (ApiConfig.path api))) 0
    (Build_Configured (router c) (strategies c)
       (logs c ++ snd (sortMiddlewares (ApiConfig.authentication api) (ApiConfig.path api)))))
    as [R Hs].
  destruct (configureEntries_grows apiKey api pipelineConfig
    (fst (sortMiddlewares (ApiConfig.authentication api) (ApiConfig.path api))) 0
    (Build_Configured (router c) (strategies c)
       (logs c ++ snd (sortMiddlewares (ApiConfig.authentication api) (ApiConfig.path api)))))
    as (_ & _ & _ & ls & _ & _ & L & _ & _ & _ & _ & _ & _ & Hl).
  simpl in R, Hs, L. split; [exact R|]. split; [exact Hs|]. split.
  - apply (stages_length (λ entry, configures pipelineConfig entry)).
    intros i entry.
    destruct (resolveReferences entry pipelineConfig) as [resolved|e];
      [|split; [by intros [? ?]|done]].
    destruct (loadMiddleware "authentication/strategy"
                (ApiAuthenticationConfig.strategy resolved)) as [[strategy|]|e];
      split; try done; by intros [? ?].
  - intros Hd. rewrite L, !length_app, (Hl Hd). done.
Qed.

Lemma keyOf_inj (apiKey : string) : Inj (=) (=) (λ k : nat, keyOf apiKey k).
Proof.
  intros k1 k2 E. apply String.app_inj in E. apply (String.app_inj "_") in E.
  by apply pretty_nat_inj in E.
Qed.

(** X19.  The strategies one run of [authentication] registers have keys
    of their own: each key is the API key, an underscore and the place of
    its entry in the sorted list, and no two of them are equal, so that no
    entry of the API takes over the strategy of another. *)
Theorem strategy_keys_are_distinct (apiKey : string) (api : ApiConfig.t)
    (pipelineConfig : ApiPipelineConfig.t) (c : Configured) :
  let sorted := fst (sortMiddlewares (ApiConfig.authentication api) (ApiConfig.path api)) in
  let c' := authentication apiKey api pipelineConfig c in
  ∃ ss, strategies c' = strategies c ++ ss ∧
        NoDup ss.*1 ∧
        ∀ key, In key ss.*1 → ∃ k, (k < length sorted)%nat ∧ key = keyOf apiKey k.
Proof.
  cbv zeta. rewrite authentication_loop.
  destruct (configureEntries_grows apiKey api pipelineConfig
    (fst (sortMiddlewares (ApiConfig.authentication api) (ApiConfig.path api))) 0
    (Build_Configured (router c) (strategies c)
       (logs c ++ snd (sortMiddlewares (ApiConfig.authentication api) (ApiConfig.path api)))))
    as (hs & ss & ks & ls & _ & Hs & _ & _ & _ & Hkeys & Hnd & Hbound & _).
  simpl in Hs. exists ss. split; [done|]. rewrite Hkeys. split.
  - exact (@NoDup_fmap_2 nat string _ (keyOf_inj apiKey) ks Hnd).
  - intros key Hin. apply list_elem_of_In, list_elem_of_fmap in Hin as (k & -> & Hk).
    rewrite Forall_forall in Hbound. specialize (Hbound _ Hk). exists k. split; [lia|done].
Qed.

(** *** What a request meets *)

Lemma handle_transparent (req : Req) (hs : list (RequestHandler Req Err W)) :
  Forall (λ handler, ∀ next w, handler req next w = next None w) hs →
  ∀ out w, Router.handle hs req out w = out None w.
Proof.
  induction 1 as [|handler hs Hh _ IH]; intros out w; simpl; [done|].
  by rewrite Hh, IH.
Qed.

Lemma configureEntries_transparent (apiKey : string) (api : ApiConfig.t)
    (pipelineConfig : ApiPipelineConfig.t) (req : Req)
    (entries : list ApiAuthenticationConfig.t) :
  Forall (λ entry, ∀ resolved,
    resolveReferences entry pipelineConfig = Return resolved →
    ∃ names, ApiAuthenticationConfig.group resolved = Some names ∧
             buildGroupAllowFilter (ApiConfig.group api) names req = false) entries →
  ∀ (index : nat) (c : Configured),
    ∃ hs, router (configureEntries apiKey api pipelineConfig index entries c) = router c ++ hs ∧
          Forall (λ handler, ∀ next w, handler req next w = next None w) hs.
Proof.
  induction 1 as [|entry rest Hentry _ IH]; intros index c; simpl.
  { exists []. by rewrite app_nil_r. }
  destruct (IH (S index) (configureEntry apiKey api pipelineConfig index entry c))
    as (hs & -> & Hall).
  unfold ApiAuth.configureEntry.
  destruct (resolveReferences entry pipelineConfig) as [resolved|e]; [|by exists hs].
  destruct (Hentry resolved eq_refl) as (names & Hgroup & Hfilter).
  destruct (loadMiddleware "authentication/strategy" (ApiAuthenticationConfig.strategy resolved))
    as [[strategy|]|e]; [|by exists hs|by exists hs].
  rewrite Hgroup. unfold createAuthenticatorForGroup.
  eexists (_ :: hs). split.
  - destruct isDebugEnabled; simpl; by rewrite <- app_assoc.
  - constructor; [|done]. intros next w. unfold ApiAuth.groupAuthenticatorHandler.
    destruct (isRequestLogEnabled api); by rewrite Hfilter.
Qed.

(** X20.  If every authentication entry of an API is scoped, once its
    references are resolved, to a group whose filter does not accept a
    request, the handlers [authentication] mounts pass the request on as it
    came: no authenticator runs on it, no request log is marked, and the
    router is left with no error.  An API whose entries all name groups
    does not authenticate the requests outside those groups. *)
Theorem requests_outside_all_groups_pass (apiKey : string) (api : ApiConfig.t)
    (pipelineConfig : ApiPipelineConfig.t) (c : Configured) (req : Req) :
  Forall (λ entry, ∀ resolved,
    resolveReferences entry pipelineConfig = Return resolved →
    ∃ names, ApiAuthenticationConfig.group resolved = Some names ∧
             buildGroupAllowFilter (ApiConfig.group api) names req = false)
    (ApiConfig.authentication api) →
  let c' := authentication apiKey api pipelineConfig c in
  ∃ hs, router c' = router c ++ hs ∧
        ∀ (out : option Err → W → W) (w : W), Router.handle hs req out w = out None w.
Proof.
  intros Hall. cbv zeta. rewrite authentication_loop.
  assert (Forall (λ entry, ∀ resolved,
    resolveReferences entry pipelineConfig = Return resolved →
    ∃ names, ApiAuthenticationConfig.group resolved = Some names ∧
             buildGroupAllowFilter (ApiConfig.group api) names req = false)
    (fst (sortMiddlewares (ApiConfig.authentication api) (ApiConfig.path api)))) as Hsorted.
  { destruct (Nat.le_gt_cases
      (length (List.filter sortMiddlewares_test (ApiConfig.authentication api))) 1) as [Hle|Hgt].
    - rewrite (sortMiddlewares_sorted _ _ Hle). simpl.
      rewrite Forall_forall in Hall. apply Forall_forall. intros entry Hin.
      apply Hall. apply list_elem_of_In. apply list_elem_of_In in Hin.
      apply in_app_or in Hin as [Hin|Hin]; by apply filter_In in Hin as [Hin _].
    - rewrite (sortMiddlewares_conflict _ _ Hgt). constructor. }
  destruct (configureEntries_transparent apiKey api pipelineConfig req _ Hsorted 0
    (Build_Configured (router c) (strategies c)
       (logs c ++ snd (sortMiddlewares (ApiConfig.authentication api) (ApiConfig.path api)))))
    as (hs & R & Htransparent).
  exists hs. split; [done|]. by apply handle_transparent.
Qed.

(** X21.  An API with exactly one entry without a group, which refers to
    no pipeline-level entry and whose strategy loads: the handler of this
    entry is the last one [authentication] mounts, it is the authenticator
    itself, behind no filter, and its strategy is the last one registered,
    under the key of the last place of the list.  So the one general
    authenticator stands behind all authenticators of groups, and every
    request those pass on meets it. *)
Theorem general_authenticator_is_mounted_last (apiKey : string) (api : ApiConfig.t)
    (pipelineConfig : ApiPipelineConfig.t) (c : Configured)
    (general : ApiAuthenticationConfig.t) (strategy : Strategy) :
  let middlewares := ApiConfig.authentication api in
  List.filter sortMiddlewares_test middlewares = [general] →
  ApiAuthenticationConfig.use general = None →
  loadMiddleware "authentication/strategy" (ApiAuthenticationConfig.strategy general)
    = Return (Some strategy) →
  let c' := authentication apiKey api pipelineConfig c in
  let key := keyOf apiKey (length middlewares - 1)%nat in
  last (router c') = Some (authenticatorHandler api (authenticate key)) ∧
  last (strategies c') = Some (key, strategy) ∧
  ∃ hs, router c' = router c ++ hs ++ [authenticatorHandler api (authenticate key)].
Proof.
  intros middlewares Hone Huse Hload. cbv zeta. rewrite authentication_loop. fold middlewares.
  rewrite (sortMiddlewares_sorted middlewares (ApiConfig.path api)) by (rewrite Hone; simpl; lia).
  rewrite Hone. simpl fst. simpl snd.
  rewrite (configureEntries_app loadMiddleware getId isDebugEnabled isRequestLogEnabled
    getRequestLog setAuthentication authenticate groupsJSON buildGroupAllowFilter).
  destruct (configureEntries_grows apiKey api pipelineConfig
    (List.filter (λ v, negb (sortMiddlewares_test v)) middlewares) 0
    (Build_Configured (router c) (strategies c) (logs c ++ [])))
    as (hs & ss & ks & ls & R & Hs & _).
  simpl in R, Hs.
  set (c1 := ApiAuth.configureEntries _ _ _ _ _ _ _ _ _ apiKey api pipelineConfig 0 _ _) in *.
  clearbody c1.
  assert (length (List.filter (λ v, negb (sortMiddlewares_test v)) middlewares)
          = (length middlewares - 1)%nat) as Hlen.
  { pose proof (filter_partition_length sortMiddlewares_test middlewares) as Hp.
    rewrite Hone in Hp. simpl in Hp. lia. }
  simpl. rewrite Hlen.
  assert (ApiAuthenticationConfig.group general = None) as Hgroup.
  { assert (In general (List.filter sortMiddlewares_test middlewares)) as Hin
      by (rewrite Hone; by left).
    apply filter_In in Hin as [_ Hin]. by apply sortMiddlewares_test_general. }
  unfold ApiAuth.configureEntry, resolveReferences.
  rewrite Huse, Hload, Hgroup. simpl. rewrite R, Hs, !last_snoc.
  split; [done|]. split; [done|]. exists hs. by rewrite <- app_assoc.
Qed.

End AuthLoop.

(** An API whose one entry is for the group [admins]: a request elsewhere
    passes its authentication stage untouched. *)
Lemma requests_outside_all_groups_pass_witness :
  ∃ hs,
    ApiAuth.router
      (ApiAuth.authentication Examples.loadMiddleware Examples.getId false (λ _, false)
         (λ _ _, None) (λ (_ : unit) _ w, w) Examples.authenticate Examples.groupsJSON
         Examples.buildGroupAllowFilter "api" (Examples.api [Examples.adminAuth] [])
         Examples.noDictionary Examples.emptyRouter) = [] ++ hs ∧
    Router.handle hs "/users/1" (λ _ w, w) [] = [].
Proof.
  destruct (requests_outside_all_groups_pass Examples.loadMiddleware Examples.getId false
    (λ _, false) (λ _ _, None) (λ (_ : unit) _ w, w) Examples.authenticate Examples.groupsJSON
    Examples.buildGroupAllowFilter "api" (Examples.api [Examples.adminAuth] [])
    Examples.noDictionary Examples.emptyRouter "/users/1") as (hs & Hrouter & Hpass).
  - constructor; [|constructor]. intros resolved E. injection E as <-.
    exists ["admins"]. split; reflexivity.
  - exists hs. split; [exact Hrouter|exact (Hpass (λ _ w, w) [])].
Defined.

(** [defaultAuth] in front of [adminAuth]: the strategy of [defaultAuth] is
    the last one registered, under the key of the second place. *)
Lemma general_authenticator_is_mounted_last_witness :
  last (ApiAuth.strategies
          (ApiAuth.authentication Examples.loadMiddleware Examples.getId false (λ _, false)
             (λ _ _, None) (λ (_ : unit) _ w, w) Examples.authenticate Examples.groupsJSON
             Examples.buildGroupAllowFilter "api"
             (Examples.api [Examples.defaultAuth; Examples.adminAuth] [])
             Examples.noDictionary Examples.emptyRouter))
  = Some ("api_1", "basic").
Proof.
  exact (proj1 (proj2 (general_authenticator_is_mounted_last Examples.loadMiddleware
    Examples.getId false (λ _, false) (λ _ _, None) (λ (_ : unit) _ w, w) Examples.authenticate
    Examples.groupsJSON Examples.buildGroupAllowFilter "api"
    (Examples.api [Examples.defaultAuth; Examples.adminAuth] [])
    Examples.noDictionary Examples.emptyRouter Examples.defaultAuth "basic"
    eq_refl eq_refl eq_refl))).
Defined.
